(** * Universal metaagent system: lifecycle manager, swarm coordinator, agents

    A shallow embedding of [src/lifecycle/LifecycleManager.ts],
    [src/swarm/SwarmCoordinator.ts] and the agent classes
    [src/agents/BaseAgent.ts] and [src/agents/BasicAgent.ts], with the
    properties of the design document stated and settled against it, and
    further properties read off the code.

    Conventions of the embedding.
    - A JavaScript [number] that only ever holds integers (time stamps,
      counters, priorities) is a [Z]; the load factor, the reputation and the
      node score are rationals [Q] (exact arithmetic in place of binary64),
      and the one place where the source computes [0 / 0] is modelled by an
      explicit NaN case.
    - [new Date()] and [Date.now()] read a clock: every operation takes the
      current time [now] as an argument.
    - [emit] appends to the trace of emitted events; subscribers live outside
      the classes. [Subscribed] has the lifecycle manager with subscribers
      that throw.
    - An [async] method of the lifecycle manager is taken together with its
      continuation after the [await], as it runs when no other call comes in
      between; [Overlap] has the two parts as separate steps.
    - A JavaScript object used as a dictionary is a [gmap]; a [Map], whose
      iteration order is its insertion order, is an association list. *)

From Stdlib Require Import QArith Qminmax Lqa Sorted.
From stdpp Require Import gmap strings list pretty.

Open Scope Z_scope.

(** ** Agent states ([src/interfaces/types.ts]) *)

Inductive AgentState : Set :=
| CREATED | INITIALIZING | RUNNING | SUSPENDED
| TERMINATING | TERMINATED | ERROR.

#[global] Instance AgentState_eq_dec : EqDecision AgentState.
Proof. solve_decision. Defined.


(** ** [Map<K, V>] as an insertion-ordered association list *)

Section JSMap.
Context {K V : Type} `{EqDecision K}.

Fixpoint map_get (k : K) (m : list (K * V)) : option V :=
  match m with
  | [] => None
  | (k', v) :: m' => if decide (k' = k) then Some v else map_get k m'
  end.

(** [set] overwrites in place an existing key and appends a new one. *)
Fixpoint map_set (k : K) (v : V) (m : list (K * V)) : list (K * V) :=
  match m with
  | [] => [(k, v)]
  | (k', v') :: m' =>
      if decide (k' = k) then (k, v) :: m' else (k', v') :: map_set k v m'
  end.

(** [delete] drops the entry of the key (a [Map] holds at most one). *)
Fixpoint map_delete (k : K) (m : list (K * V)) : list (K * V) :=
  match m with
  | [] => []
  | (k', v') :: m' =>
      if decide (k' = k) then map_delete k m' else (k', v') :: map_delete k m'
  end.

Definition map_values (m : list (K * V)) : list V := m.*2.

Definition map_size (m : list (K * V)) : Z := Z.of_nat (length m).

End JSMap.

Module Lifecycle.

(** Values stored under a key of [metadata?: Record<string, unknown>]. *)
Inductive MetaValue : Type :=
| MBool (b : bool)
| MNum (n : Z)
| MStr (s : string)
| MDate (t : Z).

#[global] Instance MetaValue_eq_dec : EqDecision MetaValue.
Proof. solve_decision. Defined.

(** JavaScript truthiness of a stored value ([Date] objects are truthy). *)
Definition truthy (v : MetaValue) : bool :=
  match v with
  | MBool b => b
  | MNum n => negb (n =? 0)
  | MStr s => negb (String.eqb s "")
  | MDate _ => true
  end.

Record StateTransition : Type := mkTransition {
  from : AgentState;
  to : AgentState;
  timestamp : Z;
  reason : option string;
  metadata : option (gmap string MetaValue)
}.

#[global] Instance StateTransition_eq_dec : EqDecision StateTransition.
Proof. solve_decision. Defined.

Record LifecyclePolicy : Type := mkPolicy {
  maxRetries : Z;
  retryDelayMs : Z;
  timeoutMs : Z;
  checkpointInterval : Z;
  autoRestart : bool;
  gracefulShutdownMs : Z
}.

(** [Partial<LifecyclePolicy>] *)
Record PartialPolicy : Type := mkPartial {
  p_maxRetries : option Z;
  p_retryDelayMs : option Z;
  p_timeoutMs : option Z;
  p_checkpointInterval : option Z;
  p_autoRestart : option bool;
  p_gracefulShutdownMs : option Z
}.

Definition noOverrides : PartialPolicy :=
  mkPartial None None None None None None.

(** [{ ...base, ...over }] *)
Definition mergePolicy (base : LifecyclePolicy) (over : PartialPolicy)
  : LifecyclePolicy :=
  {| maxRetries := default (maxRetries base) (p_maxRetries over);
     retryDelayMs := default (retryDelayMs base) (p_retryDelayMs over);
     timeoutMs := default (timeoutMs base) (p_timeoutMs over);
     checkpointInterval :=
       default (checkpointInterval base) (p_checkpointInterval over);
     autoRestart := default (autoRestart base) (p_autoRestart over);
     gracefulShutdownMs :=
       default (gracefulShutdownMs base) (p_gracefulShutdownMs over) |}.

Definition defaultPolicy : LifecyclePolicy :=
  {| maxRetries := 3; retryDelayMs := 1000; timeoutMs := 30000;
     checkpointInterval := 60000; autoRestart := false;
     gracefulShutdownMs := 5000 |}.

(** The notifications the manager emits, in emission order. *)
Inductive Event : Type :=
| EvPolicyUpdated (p : LifecyclePolicy)
| EvTransitionError (f t : AgentState)
| EvTransitionFailed (tr : StateTransition)   (* 'transitionError', from the
                                                 [catch] of transitionTo *)
| EvStateChanged (new old : AgentState) (tr : StateTransition)
| EvState (s : AgentState) (tr : StateTransition)
| EvTerminated (tr : StateTransition)
| EvCheckpoint (cp : StateTransition)
| EvRestored (cp : StateTransition).

(** The callbacks handed to [setTimeout]. *)
Inductive TimerKind : Set :=
| RetryTimer        (* handleError: transitionTo(INITIALIZING) *)
| ForceTimer.       (* gracefulShutdown: forceTransitionTo(TERMINATED) *)

Record Timer : Type := mkTimer {
  timerId : nat;
  timerKind : TimerKind;
  timerDelay : Z
}.

Record LifecycleManager : Type := mkManager {
  currentState : AgentState;
  stateHistory : list StateTransition;
  policy : LifecyclePolicy;
  retryCount : Z;
  checkpointTimer : bool;          (* the setInterval handle is set *)
  timers : list Timer;             (* pending setTimeout callbacks *)
  nextTimer : nat;
  onceTerminated : list nat;       (* once('terminated') handlers, each
                                      clearing the force timer it names *)
  emitted : list Event
}.

Definition set_state (s : AgentState) (m : LifecycleManager) :=
  mkManager s (stateHistory m) (policy m) (retryCount m) (checkpointTimer m)
            (timers m) (nextTimer m) (onceTerminated m) (emitted m).
Definition set_history (h : list StateTransition) (m : LifecycleManager) :=
  mkManager (currentState m) h (policy m) (retryCount m) (checkpointTimer m)
            (timers m) (nextTimer m) (onceTerminated m) (emitted m).
Definition set_policy (p : LifecyclePolicy) (m : LifecycleManager) :=
  mkManager (currentState m) (stateHistory m) p (retryCount m)
            (checkpointTimer m) (timers m) (nextTimer m) (onceTerminated m)
            (emitted m).
Definition set_retryCount (n : Z) (m : LifecycleManager) :=
  mkManager (currentState m) (stateHistory m) (policy m) n (checkpointTimer m)
            (timers m) (nextTimer m) (onceTerminated m) (emitted m).
Definition set_checkpointTimer (b : bool) (m : LifecycleManager) :=
  mkManager (currentState m) (stateHistory m) (policy m) (retryCount m) b
            (timers m) (nextTimer m) (onceTerminated m) (emitted m).
Definition set_timers (ts : list Timer) (m : LifecycleManager) :=
  mkManager (currentState m) (stateHistory m) (policy m) (retryCount m)
            (checkpointTimer m) ts (nextTimer m) (onceTerminated m) (emitted m).
Definition set_onceTerminated (hs : list nat) (m : LifecycleManager) :=
  mkManager (currentState m) (stateHistory m) (policy m) (retryCount m)
            (checkpointTimer m) (timers m) (nextTimer m) hs (emitted m).
Definition emit (e : Event) (m : LifecycleManager) :=
  mkManager (currentState m) (stateHistory m) (policy m) (retryCount m)
            (checkpointTimer m) (timers m) (nextTimer m) (onceTerminated m)
            (emitted m ++ [e]).

(** [setTimeout(cb, delay)]: the new timer's handle is returned. *)
Definition setTimeout (k : TimerKind) (delay : Z) (m : LifecycleManager)
  : nat * LifecycleManager :=
  (nextTimer m,
   mkManager (currentState m) (stateHistory m) (policy m) (retryCount m)
             (checkpointTimer m) (timers m ++ [mkTimer (nextTimer m) k delay])
             (S (nextTimer m)) (onceTerminated m) (emitted m)).

Definition clearTimeout (id : nat) (m : LifecycleManager) : LifecycleManager :=
  set_timers (filter (fun t => timerId t ≠ id) (timers m)) m.

(** VALID_TRANSITIONS *)
Definition VALID_TRANSITIONS (s : AgentState) : list AgentState :=
  match s with
  | CREATED => [INITIALIZING; ERROR]
  | INITIALIZING => [RUNNING; ERROR; TERMINATED]
  | RUNNING => [SUSPENDED; TERMINATING; ERROR]
  | SUSPENDED => [RUNNING; TERMINATING; ERROR]
  | TERMINATING => [TERMINATED; ERROR]
  | TERMINATED => []
  | ERROR => [INITIALIZING; TERMINATING; TERMINATED]
  end.

(** constructor *)
Definition startCheckpointing (m : LifecycleManager) : LifecycleManager :=
  if 0 <? checkpointInterval (policy m) then set_checkpointTimer true m else m.

Definition stopCheckpointing (m : LifecycleManager) : LifecycleManager :=
  if checkpointTimer m then set_checkpointTimer false m else m.

Definition new (over : PartialPolicy) : LifecycleManager :=
  startCheckpointing
    (mkManager CREATED [] (mergePolicy defaultPolicy over) 0 false [] 0%nat
               [] []).

Definition getCurrentState (m : LifecycleManager) : AgentState :=
  currentState m.

Definition getStateHistory (m : LifecycleManager) : list StateTransition :=
  stateHistory m.

Definition updatePolicy (over : PartialPolicy) (m : LifecycleManager)
  : LifecycleManager :=
  let m1 := set_policy (mergePolicy (policy m) over) m in
  emit (EvPolicyUpdated (policy m1)) m1.

(** canTransitionTo: [validTransitions.includes(newState)] *)
Definition canTransitionTo (m : LifecycleManager) (newState : AgentState)
  : bool :=
  bool_decide (newState ∈ VALID_TRANSITIONS (currentState m)).

(** The delivery of 'terminated': every [once] handler registered by
    [gracefulShutdown] clears its force timer and is dropped. *)
Definition fireOnceTerminated (m : LifecycleManager) : LifecycleManager :=
  set_onceTerminated [] (foldl (fun acc id => clearTimeout id acc) m
                               (onceTerminated m)).

(** executeTransition. When the target is TERMINATED the event named
    'terminated' is emitted twice: once as [emit(transition.to, ...)] and
    once by the special case below it. *)
Definition executeTransition (tr : StateTransition) (m : LifecycleManager)
  : LifecycleManager :=
  let oldState := currentState m in
  let m1 := set_state (to tr) m in
  let m2 := set_history (stateHistory m1 ++ [tr]) m1 in
  let m3 := if decide (to tr = RUNNING) then set_retryCount 0 m2 else m2 in
  let m4 := emit (EvStateChanged (to tr) oldState tr) m3 in
  let m5 := emit (EvState (to tr) tr) m4 in
  let m6 := if decide (to tr = TERMINATED) then fireOnceTerminated m5 else m5 in
  if decide (to tr = TERMINATED)
  then emit (EvTerminated tr) (stopCheckpointing m6)
  else m6.

(** transitionTo, when no subscriber throws. [executeTransition] can only
    fail if a subscriber throws from inside [emit] (the handler the manager
    registers itself, in gracefulShutdown, does not throw); the [catch]
    branch of the source is then not entered. [Subscribed.transitionTo] is
    the method with subscribers that throw, and with its [catch] branch. *)
Definition transitionTo (now : Z) (newState : AgentState)
    (rsn : option string) (md : option (gmap string MetaValue))
    (m : LifecycleManager) : bool * LifecycleManager :=
  if negb (canTransitionTo m newState)
  then (false, emit (EvTransitionError (currentState m) newState) m)
  else
    let transition := mkTransition (currentState m) newState now rsn md in
    (true, executeTransition transition m).

(** forceTransitionTo: [{ ...metadata, forced: true }] *)
Definition forceTransitionTo (now : Z) (newState : AgentState) (rsn : string)
    (md : option (gmap string MetaValue)) (m : LifecycleManager)
  : LifecycleManager :=
  let transition :=
    mkTransition (currentState m) newState now (Some ("FORCED: " +:+ rsn))
                 (Some (<["forced" := MBool true]> (default ∅ md))) in
  executeTransition transition m.

(** handleError, when no other call runs while it is suspended at
    [await this.transitionTo(...)] ([Overlap] separates the two parts). *)
Definition handleError (now : Z) (message : string) (m : LifecycleManager)
  : LifecycleManager :=
  let m1 := set_retryCount (retryCount m + 1) m in
  let shouldRetry :=
    (retryCount m1 <=? maxRetries (policy m1))
    && autoRestart (policy m1)
    && negb (bool_decide (currentState m1 = TERMINATED)) in
  if shouldRetry then
    let m2 :=
      (transitionTo now ERROR (Some ("Error occurred: " +:+ message))
         (Some (<["willRetry" := MBool true]>
                  (<["retryCount" := MNum (retryCount m1)]>
                     (<["error" := MStr message]> ∅)))) m1).2 in
    (setTimeout RetryTimer
       (retryDelayMs (policy m2) * 2 ^ (retryCount m2 - 1)) m2).2
  else
    (transitionTo now ERROR (Some ("Max retries exceeded: " +:+ message))
       (Some (<["willRetry" := MBool false]>
                (<["retryCount" := MNum (retryCount m1)]>
                   (<["error" := MStr message]> ∅)))) m1).2.

(** gracefulShutdown, up to the point where it waits for 'terminated', when
    no other call runs while it is suspended at
    [await this.transitionTo(...)]: the timer is set and the handler
    registered right after the transition ([Overlap] separates the two
    parts). [reason || '...'] replaces a missing and an empty reason
    alike. *)
Definition gracefulShutdown (now : Z) (rsn : option string)
    (m : LifecycleManager) : LifecycleManager :=
  if bool_decide (currentState m = TERMINATED)
     || bool_decide (currentState m = TERMINATING)
  then m
  else
    let r := match rsn with
             | Some s => if String.eqb s "" then "Graceful shutdown requested"
                         else s
             | None => "Graceful shutdown requested"
             end in
    let m1 := (transitionTo now TERMINATING (Some r) None m).2 in
    let '(id, m2) := setTimeout ForceTimer (gracefulShutdownMs (policy m1)) m1 in
    set_onceTerminated (onceTerminated m2 ++ [id]) m2.

(** getUptime *)
Definition getUptime (now : Z) (m : LifecycleManager) : Z :=
  match List.find (fun t => bool_decide (to t = CREATED)) (stateHistory m) with
  | None => 0
  | Some createdTransition => now - timestamp createdTransition
  end.

(** getTimeInCurrentState *)
Definition getTimeInCurrentState (now : Z) (m : LifecycleManager) : Z :=
  match last (stateHistory m) with
  | None => 0
  | Some lastTransition => now - timestamp lastTransition
  end.

(** createCheckpoint *)
Definition createCheckpoint (now : Z) (m : LifecycleManager)
  : StateTransition * LifecycleManager :=
  let checkpoint :=
    mkTransition (currentState m) (currentState m) now (Some "Checkpoint")
      (Some (<["uptime" := MNum (getUptime now m)]>
               (<["retryCount" := MNum (retryCount m)]>
                  (<["checkpoint" := MBool true]> ∅)))) in
  (checkpoint,
   emit (EvCheckpoint checkpoint)
        (set_history (stateHistory m ++ [checkpoint]) m)).

(** [t.metadata?.checkpoint === true] *)
Definition isCheckpoint (t : StateTransition) : bool :=
  bool_decide (metadata t ≫= (.!! "checkpoint") = Some (MBool true)).

(** [t.metadata?.checkpoint], tested for truthiness *)
Definition hasCheckpointMark (t : StateTransition) : bool :=
  match metadata t ≫= (.!! "checkpoint") with
  | Some v => truthy v
  | None => false
  end.

(** getLastCheckpoint. [Array.prototype.reverse] reverses the array it is
    called on, in place, and returns that same array: the manager's
    [stateHistory] field is reversed by the call. *)
Definition getLastCheckpoint (m : LifecycleManager)
  : option StateTransition * LifecycleManager :=
  let m1 := set_history (rev (stateHistory m)) m in
  (List.find isCheckpoint (stateHistory m1), m1).

Inductive Completion : Type :=
| Returned
| Threw (message : string).

(** restoreFromCheckpoint: [checkpoint || this.getLastCheckpoint()] only
    evaluates its right operand when no checkpoint is passed. *)
Definition restoreFromCheckpoint (now : Z) (checkpoint : option StateTransition)
    (m : LifecycleManager) : Completion * LifecycleManager :=
  let '(targetCheckpoint, m1) :=
    match checkpoint with
    | Some cp => (Some cp, m)
    | None => getLastCheckpoint m
    end in
  match targetCheckpoint with
  | None => (Threw "No checkpoint available for restoration", m1)
  | Some cp =>
      let m2 :=
        forceTransitionTo now (to cp) "Restored from checkpoint"
          (Some (<["restoredFrom" := MDate (timestamp cp)]> ∅)) m1 in
      (Returned, emit (EvRestored cp) m2)
  end.

Record Statistics : Type := mkStatistics {
  st_currentState : AgentState;
  st_uptime : Z;
  st_timeInCurrentState : Z;
  st_stateChanges : nat;
  st_errorCount : nat;
  st_retryCount : Z;
  st_checkpointCount : nat;
  st_stateDurations : list (AgentState * Z)
}.

(** The loop of getStatistics over consecutive pairs of the history. *)
Fixpoint stateDurations (h : list StateTransition)
    (acc : list (AgentState * Z)) : list (AgentState * Z) :=
  match h with
  | current :: ((next :: _) as rest) =>
      let duration := timestamp next - timestamp current in
      stateDurations rest
        (map_set (to current)
                 (default 0 (map_get (to current) acc) + duration) acc)
  | _ => acc
  end.

(** getStatistics *)
Definition getStatistics (now : Z) (m : LifecycleManager) : Statistics :=
  {| st_currentState := currentState m;
     st_uptime := getUptime now m;
     st_timeInCurrentState := getTimeInCurrentState now m;
     st_stateChanges := length (stateHistory m);
     st_errorCount :=
       length (List.filter (fun t => bool_decide (to t = ERROR))
                           (stateHistory m));
     st_retryCount := retryCount m;
     st_checkpointCount :=
       length (List.filter hasCheckpointMark (stateHistory m));
     st_stateDurations := stateDurations (stateHistory m) [] |}.

(** destroy: [removeAllListeners] drops the pending [once] handlers. *)
Definition destroy (m : LifecycleManager) : LifecycleManager :=
  set_onceTerminated [] (stopCheckpointing m).

(** A pending [setTimeout] callback runs (and is no longer pending). *)
Definition fireTimer (now : Z) (id : nat) (m : LifecycleManager)
  : LifecycleManager :=
  match List.find (fun t => bool_decide (timerId t = id)) (timers m) with
  | None => m
  | Some t =>
      let m1 := clearTimeout id m in
      match timerKind t with
      | RetryTimer =>
          (transitionTo now INITIALIZING (Some "Retry after error") None m1).2
      | ForceTimer =>
          forceTransitionTo now TERMINATED
            "Forceful termination after graceful shutdown timeout" None m1
      end
  end.

(** The [setInterval] callback of startCheckpointing runs. *)
Definition checkpointTick (now : Z) (m : LifecycleManager)
  : LifecycleManager :=
  if checkpointTimer m then
    if bool_decide (currentState m = RUNNING)
    then (createCheckpoint now m).2 else m
  else m.

(** *** Runs

    A run of a manager is a sequence of calls of its public methods and of
    firings of its timers, each at a clock reading. *)
Inductive Op : Type :=
| OpTransitionTo (target : AgentState) (rsn : option string)
                 (md : option (gmap string MetaValue))
| OpForceTransitionTo (target : AgentState) (rsn : string)
                      (md : option (gmap string MetaValue))
| OpHandleError (message : string)
| OpGracefulShutdown (rsn : option string)
| OpCreateCheckpoint
| OpRestoreFromCheckpoint (checkpoint : option StateTransition)
| OpUpdatePolicy (over : PartialPolicy)
| OpGetUptime
| OpGetStatistics
| OpDestroy
| OpTimerFires (id : nat)
| OpCheckpointTick.

Definition exec (now : Z) (op : Op) (m : LifecycleManager)
  : LifecycleManager :=
  match op with
  | OpTransitionTo target rsn md => (transitionTo now target rsn md m).2
  | OpForceTransitionTo target rsn md => forceTransitionTo now target rsn md m
  | OpHandleError message => handleError now message m
  | OpGracefulShutdown rsn => gracefulShutdown now rsn m
  | OpCreateCheckpoint => (createCheckpoint now m).2
  | OpRestoreFromCheckpoint cp => (restoreFromCheckpoint now cp m).2
  | OpUpdatePolicy over => updatePolicy over m
  | OpGetUptime => m
  | OpGetStatistics => m
  | OpDestroy => destroy m
  | OpTimerFires id => fireTimer now id m
  | OpCheckpointTick => checkpointTick now m
  end.

Definition run (ops : list (Z * Op)) (m : LifecycleManager)
  : LifecycleManager :=
  foldl (fun acc '(now, op) => exec now op acc) m ops.

(** The allowed-transitions table as the design document lists it. *)
Definition allowed (s : AgentState) : list AgentState :=
  match s with
  | CREATED => [INITIALIZING; ERROR]
  | INITIALIZING => [RUNNING; ERROR; TERMINATED]
  | RUNNING => [SUSPENDED; TERMINATING; ERROR]
  | SUSPENDED => [RUNNING; TERMINATING; ERROR]
  | TERMINATING => [TERMINATED; ERROR]
  | TERMINATED => []
  | ERROR => [INITIALIZING; TERMINATING; TERMINATED]
  end.

(** *** Vocabulary of the properties *)

(** Executing [op] in [m] calls forceTransitionTo with target CREATED,
    directly or from restoreFromCheckpoint. *)
Definition forcesCreated (op : Op) (m : LifecycleManager) : bool :=
  match op with
  | OpForceTransitionTo target _ _ => bool_decide (target = CREATED)
  | OpRestoreFromCheckpoint (Some cp) => bool_decide (to cp = CREATED)
  | OpRestoreFromCheckpoint None =>
      match (getLastCheckpoint m).1 with
      | Some cp => bool_decide (to cp = CREATED)
      | None => false
      end
  | _ => false
  end.

(** Executing [op] in [m] takes a checkpoint of the state CREATED. *)
Definition checkpointsCreated (op : Op) (m : LifecycleManager) : bool :=
  match op with
  | OpCreateCheckpoint => bool_decide (currentState m = CREATED)
  | _ => false
  end.

(** A predicate on single steps holds at no step of the run from [m]. *)
Fixpoint never (bad : Op -> LifecycleManager -> bool) (ops : list (Z * Op))
    (m : LifecycleManager) : bool :=
  match ops with
  | [] => true
  | (now, op) :: rest => negb (bad op m) && never bad rest (exec now op m)
  end.

(** A manager that reached RUNNING and then took a checkpoint. *)
Definition checkpointed : LifecycleManager :=
  run [(1, OpTransitionTo INITIALIZING None None);
       (2, OpTransitionTo RUNNING None None);
       (3, OpCreateCheckpoint)] (new noOverrides).

(** No recorded transition has CREATED as its target. *)
Definition noCreated (m : LifecycleManager) : Prop :=
  Forall (fun t => to t ≠ CREATED) (stateHistory m).

(** A run that never forces CREATED and never checkpoints CREATED. *)
Definition quiet_ops : list (Z * Op) :=
  [(1, OpTransitionTo INITIALIZING None None);
   (2, OpTransitionTo RUNNING None None);
   (3, OpCreateCheckpoint);
   (4, OpRestoreFromCheckpoint None);
   (5, OpHandleError "boom");
   (6, OpGracefulShutdown None);
   (7, OpTimerFires 0)].

(** A run that takes a checkpoint before the first transition. *)
Definition early_checkpoint : list (Z * Op) := [(2, OpCreateCheckpoint)].

End Lifecycle.

(** ** The swarm coordinator ([src/swarm/SwarmCoordinator.ts])

    Nodes, tasks and proposals are JavaScript objects that the coordinator
    reaches both through its maps and through references captured by pending
    asynchronous calls and timer callbacks. The embedding keeps the objects
    in stores ([nodeObjects], [taskObjects], [proposalObjects], a reference
    being an index) and the maps hold references, so that an update through
    a captured reference is seen through the map, and an object deleted from
    a map lives on for whoever still holds it. *)

Module Swarm.

Inductive TaskStatus : Set :=
| Pending | Assigned | Executing | Completed | Failed.

#[global] Instance TaskStatus_eq_dec : EqDecision TaskStatus.
Proof. solve_decision. Defined.

(** [TaskResult], as far as the coordinator stores it. *)
Record TaskResult : Type := mkResult {
  r_taskId : string;
  r_agentId : string;
  r_success : bool;
  r_duration : Z
}.

(** How [node.agent.executeTask(agentTask)] settles. *)
Inductive Outcome : Type :=
| Resolved (r : TaskResult)
| Rejected (error : string).

Record SwarmNode : Type := mkNode {
  node_id : string;
  agent : string;                  (* the agent, known by its [id] *)
  capabilities : list string;
  loadFactor : Q;
  reputation : Q;
  lastSeen : Z
}.

Record SwarmTask : Type := mkTask {
  task_id : string;
  description : string;
  requirements : list string;
  priority : Z;
  subtasks : option (list nat);    (* references to task objects *)
  assignedNodes : option (list string);
  status : TaskStatus;
  result : option TaskResult;
  createdAt : Z;
  deadline : option Z
}.

Inductive ProposalType : Set :=
| task_assignment | resource_allocation | strategy_change.

#[global] Instance ProposalType_eq_dec : EqDecision ProposalType.
Proof. solve_decision. Defined.

(** The payload of the proposals the coordinator creates. *)
Record Payload : Type := mkPayload {
  taskId : string;
  candidateNodes : list string
}.

Record ConsensusProposal : Type := mkProposal {
  proposal_id : string;
  proposerId : string;
  proposalType : ProposalType;
  payload : Payload;
  votes : list (string * bool);
  threshold : Z;
  expiresAt : Z
}.

Record SwarmMetrics : Type := mkMetrics {
  totalNodes : Z;
  activeNodes : Z;
  completedTasks : Z;
  averageLoadFactor : Q;
  consensusSuccessRate : Q;
  averageTaskCompletionTime : Q
}.

(** The argument of submitTask: [Omit<SwarmTask, 'id'|'status'|'createdAt'>]
    (without caller-made subtask objects, which the coordinator never
    reads). *)
Record TaskSpec : Type := mkSpec {
  sp_description : string;
  sp_requirements : list string;
  sp_priority : Z;
  sp_assignedNodes : option (list string);
  sp_result : option TaskResult;
  sp_deadline : option Z
}.

(** The callbacks handed to [setTimeout]. *)
Inductive Callback : Type :=
| SimulateVoting (proposal : nat)
| ResolveConsensus (proposalId : string)
| RetryTask (task : nat).

Record Timer : Type := mkTimer {
  callback : Callback;
  delay : Z
}.

Inductive Event : Type :=
| nodeRegistered (node : nat)
| nodeUnregistered (nodeId : string)
| taskSubmitted (task : nat)
| taskAssigned (task node : nat)
| taskCompleted (task : nat) (r : TaskResult)
| taskFailed (task : nat) (error : string)
| taskAssignmentFailed (task : nat) (why : string)
| taskRetryFailed (task : nat) (why : string)
| consensusStarted (proposal : nat)
| consensusResolved (proposalId : string) (reached : bool) (yesVotes : Z)
                    (threshold : Z)
| nodeStale (nodeId : string)
| taskCancelled (task : nat)
| swarmShutdown.

(** The coordinator, together with what it reads from its environment: the
    clock behind [Date.now()] and the successive draws of [Math.random()]
    (the id suffix a draw renders to, and whether it exceeds 0.2). *)
Record SwarmCoordinator : Type := mkCoordinator {
  nodeObjects : list SwarmNode;
  taskObjects : list SwarmTask;
  proposalObjects : list ConsensusProposal;
  nodes : list (string * nat);
  tasks : list (string * nat);
  proposals : list (string * nat);
  metrics : SwarmMetrics;
  heartbeatInterval : bool;
  timers : list Timer;
  listeners : list string;         (* 'agentStateChanged' subscriptions *)
  emitted : list Event;
  clock : Z;
  draws : nat;
  randomId : nat -> string;
  randomVote : nat -> bool
}.

Definition consensusTimeout : Z := 30000.
Definition maxTaskRetries : nat := 3.

Definition on_nodeObjects (f : list SwarmNode -> list SwarmNode)
    (w : SwarmCoordinator) : SwarmCoordinator :=
  mkCoordinator (f (nodeObjects w)) (taskObjects w) (proposalObjects w)
    (nodes w) (tasks w) (proposals w) (metrics w) (heartbeatInterval w)
    (timers w) (listeners w) (emitted w) (clock w) (draws w) (randomId w)
    (randomVote w).
Definition on_taskObjects (f : list SwarmTask -> list SwarmTask)
    (w : SwarmCoordinator) : SwarmCoordinator :=
  mkCoordinator (nodeObjects w) (f (taskObjects w)) (proposalObjects w)
    (nodes w) (tasks w) (proposals w) (metrics w) (heartbeatInterval w)
    (timers w) (listeners w) (emitted w) (clock w) (draws w) (randomId w)
    (randomVote w).
Definition on_proposalObjects
    (f : list ConsensusProposal -> list ConsensusProposal)
    (w : SwarmCoordinator) : SwarmCoordinator :=
  mkCoordinator (nodeObjects w) (taskObjects w) (f (proposalObjects w))
    (nodes w) (tasks w) (proposals w) (metrics w) (heartbeatInterval w)
    (timers w) (listeners w) (emitted w) (clock w) (draws w) (randomId w)
    (randomVote w).
Definition on_nodes (f : list (string * nat) -> list (string * nat))
    (w : SwarmCoordinator) : SwarmCoordinator :=
  mkCoordinator (nodeObjects w) (taskObjects w) (proposalObjects w)
    (f (nodes w)) (tasks w) (proposals w) (metrics w) (heartbeatInterval w)
    (timers w) (listeners w) (emitted w) (clock w) (draws w) (randomId w)
    (randomVote w).
Definition on_tasks (f : list (string * nat) -> list (string * nat))
    (w : SwarmCoordinator) : SwarmCoordinator :=
  mkCoordinator (nodeObjects w) (taskObjects w) (proposalObjects w)
    (nodes w) (f (tasks w)) (proposals w) (metrics w) (heartbeatInterval w)
    (timers w) (listeners w) (emitted w) (clock w) (draws w) (randomId w)
    (randomVote w).
Definition on_proposals (f : list (string * nat) -> list (string * nat))
    (w : SwarmCoordinator) : SwarmCoordinator :=
  mkCoordinator (nodeObjects w) (taskObjects w) (proposalObjects w)
    (nodes w) (tasks w) (f (proposals w)) (metrics w) (heartbeatInterval w)
    (timers w) (listeners w) (emitted w) (clock w) (draws w) (randomId w)
    (randomVote w).
Definition on_metrics (f : SwarmMetrics -> SwarmMetrics)
    (w : SwarmCoordinator) : SwarmCoordinator :=
  mkCoordinator (nodeObjects w) (taskObjects w) (proposalObjects w)
    (nodes w) (tasks w) (proposals w) (f (metrics w)) (heartbeatInterval w)
    (timers w) (listeners w) (emitted w) (clock w) (draws w) (randomId w)
    (randomVote w).
Definition set_heartbeatInterval (b : bool)
    (w : SwarmCoordinator) : SwarmCoordinator :=
  mkCoordinator (nodeObjects w) (taskObjects w) (proposalObjects w)
    (nodes w) (tasks w) (proposals w) (metrics w) b
    (timers w) (listeners w) (emitted w) (clock w) (draws w) (randomId w)
    (randomVote w).
Definition on_timers (f : list Timer -> list Timer)
    (w : SwarmCoordinator) : SwarmCoordinator :=
  mkCoordinator (nodeObjects w) (taskObjects w) (proposalObjects w)
    (nodes w) (tasks w) (proposals w) (metrics w) (heartbeatInterval w)
    (f (timers w)) (listeners w) (emitted w) (clock w) (draws w) (randomId w)
    (randomVote w).
Definition on_listeners (f : list string -> list string)
    (w : SwarmCoordinator) : SwarmCoordinator :=
  mkCoordinator (nodeObjects w) (taskObjects w) (proposalObjects w)
    (nodes w) (tasks w) (proposals w) (metrics w) (heartbeatInterval w)
    (timers w) (f (listeners w)) (emitted w) (clock w) (draws w) (randomId w)
    (randomVote w).
Definition emit (e : Event) (w : SwarmCoordinator) : SwarmCoordinator :=
  mkCoordinator (nodeObjects w) (taskObjects w) (proposalObjects w)
    (nodes w) (tasks w) (proposals w) (metrics w) (heartbeatInterval w)
    (timers w) (listeners w) (emitted w ++ [e]) (clock w) (draws w)
    (randomId w) (randomVote w).
Definition set_clock (now : Z) (w : SwarmCoordinator) : SwarmCoordinator :=
  mkCoordinator (nodeObjects w) (taskObjects w) (proposalObjects w)
    (nodes w) (tasks w) (proposals w) (metrics w) (heartbeatInterval w)
    (timers w) (listeners w) (emitted w) now (draws w) (randomId w)
    (randomVote w).
Definition set_draws (n : nat) (w : SwarmCoordinator) : SwarmCoordinator :=
  mkCoordinator (nodeObjects w) (taskObjects w) (proposalObjects w)
    (nodes w) (tasks w) (proposals w) (metrics w) (heartbeatInterval w)
    (timers w) (listeners w) (emitted w) (clock w) n (randomId w)
    (randomVote w).

(** Field updates of the three kinds of object. *)
Definition set_loadFactor (x : Q) (n : SwarmNode) : SwarmNode :=
  mkNode (node_id n) (agent n) (capabilities n) x (reputation n) (lastSeen n).
Definition set_reputation (x : Q) (n : SwarmNode) : SwarmNode :=
  mkNode (node_id n) (agent n) (capabilities n) (loadFactor n) x (lastSeen n).
Definition set_lastSeen (t : Z) (n : SwarmNode) : SwarmNode :=
  mkNode (node_id n) (agent n) (capabilities n) (loadFactor n) (reputation n) t.

Definition set_status (st : TaskStatus) (t : SwarmTask) : SwarmTask :=
  mkTask (task_id t) (description t) (requirements t) (priority t)
         (subtasks t) (assignedNodes t) st (result t) (createdAt t)
         (deadline t).
Definition set_assignedNodes (ns : option (list string)) (t : SwarmTask)
  : SwarmTask :=
  mkTask (task_id t) (description t) (requirements t) (priority t)
         (subtasks t) ns (status t) (result t) (createdAt t) (deadline t).
Definition set_result (r : option TaskResult) (t : SwarmTask) : SwarmTask :=
  mkTask (task_id t) (description t) (requirements t) (priority t)
         (subtasks t) (assignedNodes t) (status t) r (createdAt t)
         (deadline t).
Definition set_subtasks (ts : option (list nat)) (t : SwarmTask) : SwarmTask :=
  mkTask (task_id t) (description t) (requirements t) (priority t)
         ts (assignedNodes t) (status t) (result t) (createdAt t)
         (deadline t).

Definition set_votes (vs : list (string * bool)) (p : ConsensusProposal)
  : ConsensusProposal :=
  mkProposal (proposal_id p) (proposerId p) (proposalType p) (payload p) vs
             (threshold p) (expiresAt p).

(** Writing through a reference. *)
Definition updateNode (l : nat) (f : SwarmNode -> SwarmNode)
    (w : SwarmCoordinator) : SwarmCoordinator :=
  on_nodeObjects (alter f l) w.
Definition updateTask (l : nat) (f : SwarmTask -> SwarmTask)
    (w : SwarmCoordinator) : SwarmCoordinator :=
  on_taskObjects (alter f l) w.
Definition updateProposal (l : nat)
    (f : ConsensusProposal -> ConsensusProposal)
    (w : SwarmCoordinator) : SwarmCoordinator :=
  on_proposalObjects (alter f l) w.

Definition setTimeout (cb : Callback) (ms : Z) (w : SwarmCoordinator)
  : SwarmCoordinator :=
  on_timers (fun ts => ts ++ [mkTimer cb ms]) w.

(** *** Asynchronous methods

    An [async] method runs until it returns or until it awaits
    [executeTask], where it gives up control: other handlers may then run,
    and the method resumes, in whatever state they left, when the agent's
    promise settles. Awaiting a call that finished without suspending is not
    a point where the embedding yields. *)
Inductive Res (A : Type) : Type :=
| Done (a : A) (w : SwarmCoordinator)
| Wait (w : SwarmCoordinator) (node task : nat)
       (k : Outcome -> SwarmCoordinator -> Res A).
Arguments Done {A} a w.
Arguments Wait {A} w node task k.

Definition Async (A : Type) : Type := SwarmCoordinator -> Res A.

Fixpoint bindRes {A B : Type} (r : Res A) (f : A -> Async B) : Res B :=
  match r with
  | Done a w => f a w
  | Wait w n t k => Wait w n t (fun o w' => bindRes (k o w') f)
  end.

Definition ret {A : Type} (a : A) : Async A := fun w => Done a w.
Definition bind {A B : Type} (m : Async A) (f : A -> Async B) : Async B :=
  fun w => bindRes (m w) f.
Definition get : Async SwarmCoordinator := fun w => Done w w.
Definition modify (f : SwarmCoordinator -> SwarmCoordinator) : Async unit :=
  fun w => Done tt (f w).
Definition await_executeTask (node task : nat) : Async Outcome :=
  fun w => Wait w node task (fun o w' => Done o w').

#[global] Instance Async_ret : MRet Async := @ret.
#[global] Instance Async_bind : MBind Async := fun A B f m => bind m f.

Definition skip : Async unit := ret tt.

(** [for (const x of l) { await body(x) }] *)
Fixpoint forEach {X : Type} (l : list X) (body : X -> Async unit)
  : Async unit :=
  match l with
  | [] => skip
  | x :: l' => body x;; forEach l' body
  end.

(** *** Reading the maps *)

(** [Array.from(this.nodes.values())], each object with its reference. *)
Definition nodeEntries (w : SwarmCoordinator) : list (nat * SwarmNode) :=
  omap (fun e : string * nat => (fun n => (e.2, n)) <$> nodeObjects w !! e.2)
       (nodes w).

Definition taskEntries (w : SwarmCoordinator) : list (nat * SwarmTask) :=
  omap (fun e : string * nat => (fun t => (e.2, t)) <$> taskObjects w !! e.2)
       (tasks w).

(** getNodes, getTasks, getActiveProposals, getMetrics *)
Definition getNodes (w : SwarmCoordinator) : list SwarmNode :=
  (nodeEntries w).*2.
Definition getTasks (w : SwarmCoordinator) : list SwarmTask :=
  (taskEntries w).*2.
Definition getActiveProposals (w : SwarmCoordinator)
  : list ConsensusProposal :=
  omap (fun e : string * nat => proposalObjects w !! e.2) (proposals w).
Definition getMetrics (w : SwarmCoordinator) : SwarmMetrics := metrics w.

(** *** Candidate search *)

(** [cap.includes(req)]: [req] occurs in [cap] as a substring. *)
Fixpoint includes (cap req : string) : bool :=
  String.prefix req cap ||
  match cap with
  | EmptyString => false
  | String _ cap' => includes cap' req
  end.

Definition Qlt_bool (a b : Q) : bool := negb (Qle_bool b a).

(** [node.capabilities.some(cap => cap.includes(req))] *)
Definition hasCapability (node : SwarmNode) (req : string) : bool :=
  existsb (fun cap => includes cap req) (capabilities node).

(** The filter of findSuitableNodes. *)
Definition isSuitable (task : SwarmTask) (node : SwarmNode) : bool :=
  let hasCapabilities := forallb (hasCapability node) (requirements task) in
  let notOverloaded := Qlt_bool (loadFactor node) (8 # 10) in
  let goodReputation := Qlt_bool 50 (reputation node) in
  hasCapabilities && notOverloaded && goodReputation.

(** calculateNodeScore. With no requirement the capability ratio is
    [0 / 0], and the score is NaN: [None]. *)
Definition calculateNodeScore (node : SwarmNode) (task : SwarmTask)
  : option Q :=
  let matched :=
    fold_left (fun acc req => acc + (if hasCapability node req then 1 else 0))
              (requirements task) 0 in
  match requirements task with
  | [] => None
  | _ :: _ =>
      let capabilityMatch :=
        (inject_Z matched / inject_Z (Z.of_nat (length (requirements task))))%Q
      in
      Some (0 + capabilityMatch * 40
              + (1 - loadFactor node) * 30
              + (reputation node / 100) * 30)%Q
  end.

(** The comparator [(a, b) => scoreB - scoreA]. *)
Definition compareNodes (task : SwarmTask) (a b : nat * SwarmNode)
  : option Q :=
  match calculateNodeScore a.2 task, calculateNodeScore b.2 task with
  | Some scoreA, Some scoreB => Some (scoreB - scoreA)%Q
  | _, _ => None
  end.

(** [Array.prototype.sort(cmp)]: a stable sort; a NaN result of the
    comparator counts as 0. For a consistent comparator the outcome is the
    one a stable insertion sort computes. *)
Definition comesFirst {A : Type} (cmp : A -> A -> option Q) (a b : A) : bool :=
  match cmp a b with
  | Some d => Qle_bool d 0
  | None => true
  end.

Fixpoint insertSorted {A : Type} (cmp : A -> A -> option Q) (x : A)
    (l : list A) : list A :=
  match l with
  | [] => [x]
  | y :: l' =>
      if comesFirst cmp x y then x :: y :: l' else y :: insertSorted cmp x l'
  end.

Definition sortWith {A : Type} (cmp : A -> A -> option Q) (l : list A)
  : list A :=
  foldr (insertSorted cmp) [] l.

(** findSuitableNodes *)
Definition findSuitableNodes (task : SwarmTask) (w : SwarmCoordinator)
  : list (nat * SwarmNode) :=
  sortWith (compareNodes task)
           (List.filter (fun e => isSuitable task e.2) (nodeEntries w)).

(** *** Metrics *)

(** updateMetrics *)
Definition updateMetrics (w : SwarmCoordinator) : SwarmCoordinator :=
  let size := map_size (nodes w) in
  let active :=
    Z.of_nat (length (List.filter
                        (fun n : SwarmNode => clock w - lastSeen n <? 60000)
                        (getNodes w))) in
  let average :=
    if 0 <? size
    then (fold_left (fun sum (n : SwarmNode) => sum + loadFactor n)
                    (getNodes w) 0 / inject_Z size)%Q
    else averageLoadFactor (metrics w) in
  on_metrics (fun m => mkMetrics size active (completedTasks m) average
                                 (consensusSuccessRate m)
                                 (averageTaskCompletionTime m)) w.

Definition set_totalNodes (w : SwarmCoordinator) : SwarmCoordinator :=
  on_metrics (fun m => mkMetrics (map_size (nodes w)) (activeNodes m)
                                 (completedTasks m) (averageLoadFactor m)
                                 (consensusSuccessRate m)
                                 (averageTaskCompletionTime m)) w.

Definition incr_completedTasks (w : SwarmCoordinator) : SwarmCoordinator :=
  on_metrics (fun m => mkMetrics (totalNodes m) (activeNodes m)
                                 (completedTasks m + 1) (averageLoadFactor m)
                                 (consensusSuccessRate m)
                                 (averageTaskCompletionTime m)) w.

(** updateConsensusMetrics *)
Definition updateConsensusMetrics (success : bool) (w : SwarmCoordinator)
  : SwarmCoordinator :=
  on_metrics (fun m =>
    mkMetrics (totalNodes m) (activeNodes m) (completedTasks m)
              (averageLoadFactor m)
              (consensusSuccessRate m * (9 # 10)
               + (if success then 1 # 10 else 0))%Q
              (averageTaskCompletionTime m)) w.

(** *** Assignment *)

(** The three updates directAssignTask makes to a node. *)
Definition nodeAssigned (n : SwarmNode) : SwarmNode :=
  set_loadFactor (Qmin 1 (loadFactor n + (1 # 10))) n.

Definition nodeSucceeded (n : SwarmNode) : SwarmNode :=
  set_reputation (Qmin 100 (reputation n + 2))
                 (set_loadFactor (Qmax 0 (loadFactor n - (1 # 10))) n).

Definition nodeFailed (n : SwarmNode) : SwarmNode :=
  set_reputation (Qmax 0 (reputation n - 5))
                 (set_loadFactor (Qmax 0 (loadFactor n - (1 # 10))) n).

(** [!task.assignedNodes || task.assignedNodes.length < this.maxTaskRetries] *)
Definition retriesAvailable (task : SwarmTask) : bool :=
  match assignedNodes task with
  | None => true
  | Some ns => (length ns <? maxTaskRetries)%nat
  end.

(** directAssignTask. The [catch] branch is the rejection of the agent's
    promise: nothing else inside the [try] fails. *)
Definition directAssignTask (t n : nat) : Async unit :=
  w ← get;
  match nodeObjects w !! n with
  | None => skip
  | Some node =>
      modify (updateTask t (fun x =>
                set_assignedNodes (Some [node_id node]) (set_status Assigned x)));;
      modify (updateNode n nodeAssigned);;
      modify (emit (taskAssigned t n));;
      modify (updateTask t (set_status Executing));;
      o ← await_executeTask n t;
      match o with
      | Resolved r =>
          modify (updateTask t (fun x =>
                    set_result (Some r) (set_status Completed x)));;
          modify (updateNode n nodeSucceeded);;
          modify incr_completedTasks;;
          modify (emit (taskCompleted t r))
      | Rejected error =>
          modify (updateTask t (set_status Failed));;
          modify (updateNode n nodeFailed);;
          modify (emit (taskFailed t error));;
          w' ← get;
          if default true (retriesAvailable <$> taskObjects w' !! t)
          then modify (setTimeout (RetryTask t) 5000)
          else skip
      end
  end.

(** retryTask *)
Definition retryTask (t : nat) : Async unit :=
  modify (updateTask t (set_status Pending));;
  w ← get;
  match taskObjects w !! t with
  | None => skip
  | Some task =>
      let previousNodes := default [] (assignedNodes task) in
      let suitableNodes :=
        List.filter
          (fun e : nat * SwarmNode =>
             negb (bool_decide (node_id e.2 ∈ previousNodes)))
          (findSuitableNodes task w) in
      match suitableNodes with
      | e :: _ => directAssignTask t e.1
      | [] => modify (emit (taskRetryFailed t "No alternative nodes available"))
      end
  end.

(** [Math.ceil(this.nodes.size * 0.6)] *)
Definition quorum (size : Z) : Z := (3 * size + 4) / 5.

(** assignTaskWithConsensus *)
Definition assignTaskWithConsensus (t : nat)
    (candidates : list (nat * SwarmNode)) : Async unit :=
  w ← get;
  match taskObjects w !! t with
  | None => skip
  | Some task =>
      let proposalId :=
        "proposal_" +:+ pretty (clock w) +:+ "_" +:+ randomId w (draws w) in
      let proposal :=
        mkProposal proposalId "coordinator" task_assignment
                   (mkPayload (task_id task)
                              ((fun e : nat * SwarmNode => node_id e.2)
                                 <$> candidates))
                   [] (quorum (map_size (nodes w)))
                   (clock w + consensusTimeout) in
      let p := length (proposalObjects w) in
      modify (set_draws (S (draws w)));;
      modify (on_proposalObjects (fun ps => ps ++ [proposal]));;
      modify (on_proposals (map_set proposalId p));;
      modify (emit (consensusStarted p));;
      modify (setTimeout (SimulateVoting p) 1000);;
      modify (setTimeout (ResolveConsensus proposalId) consensusTimeout)
  end.

(** assignTask *)
Definition assignTask (t : nat) : Async unit :=
  w ← get;
  match taskObjects w !! t with
  | None => skip
  | Some task =>
      let suitableNodes := findSuitableNodes task w in
      match suitableNodes with
      | [] => modify (emit (taskAssignmentFailed t "No suitable nodes available"))
      | bestNode :: _ =>
          if (8 <=? priority task)
             || bool_decide ("critical" ∈ requirements task)
          then assignTaskWithConsensus t suitableNodes
          else directAssignTask t bestNode.1
      end
  end.

(** simulateVoting: [Math.random()] is drawn for a node only when its load
    and reputation pass, as [&&] evaluates left to right. *)
Definition castVote (p : nat) (w : SwarmCoordinator) (e : string * nat)
  : SwarmCoordinator :=
  match nodeObjects w !! e.2 with
  | None => w
  | Some node =>
      if Qlt_bool (loadFactor node) (7 # 10) && Qlt_bool 60 (reputation node)
      then
        let vote := randomVote w (draws w) in
        updateProposal p (fun x => set_votes (map_set e.1 vote (votes x)) x)
                       (set_draws (S (draws w)) w)
      else
        updateProposal p (fun x => set_votes (map_set e.1 false (votes x)) x) w
  end.

Definition simulateVoting (p : nat) (w : SwarmCoordinator)
  : SwarmCoordinator :=
  foldl (castVote p) w (nodes w).

(** resolveConsensus *)
Definition resolveConsensus (proposalId : string) : Async unit :=
  w ← get;
  match map_get proposalId (proposals w) ≫= (fun p => proposalObjects w !! p)
  with
  | None => skip
  | Some proposal =>
      let yesVotes :=
        Z.of_nat (length (List.filter (fun v : string * bool => v.2)
                                      (votes proposal))) in
      let consensusReached := threshold proposal <=? yesVotes in
      modify (emit (consensusResolved proposalId consensusReached yesVotes
                                      (threshold proposal)));;
      (if consensusReached
          && bool_decide (proposalType proposal = task_assignment)
       then
         w1 ← get;
         let task := map_get (taskId (payload proposal)) (tasks w1) in
         let candidates :=
           omap (fun id => map_get id (nodes w1))
                (candidateNodes (payload proposal)) in
         match task, candidates with
         | Some t, n :: _ => directAssignTask t n
         | _, _ => skip
         end
       else skip);;
      modify (on_proposals (map_delete proposalId));;
      modify (updateConsensusMetrics consensusReached)
  end.

(** *** Node loss *)

(** The filter of reassignNodeTasks:
    [task.assignedNodes?.includes(nodeId) &&
     (task.status === 'assigned' || task.status === 'executing')] *)
Definition isNodeTask (nodeId : string) (task : SwarmTask) : bool :=
  match assignedNodes task with
  | None => false
  | Some ns => bool_decide (nodeId ∈ ns)
  end
  && (bool_decide (status task = Assigned)
      || bool_decide (status task = Executing)).

Definition nodeTasks (nodeId : string) (w : SwarmCoordinator) : list nat :=
  (List.filter (fun e : nat * SwarmTask => isNodeTask nodeId e.2)
               (taskEntries w)).*1.

(** The two assignments at the head of the loop of reassignNodeTasks. *)
Definition resetForReassign (nodeId : string) (task : SwarmTask)
  : SwarmTask :=
  set_assignedNodes
    (List.filter (fun id => negb (bool_decide (id = nodeId)))
       <$> assignedNodes task)
    (set_status Pending task).

(** reassignNodeTasks *)
Definition reassignNodeTasks (nodeId : string) : Async unit :=
  w ← get;
  forEach (nodeTasks nodeId w) (fun t =>
    modify (updateTask t (resetForReassign nodeId));;
    assignTask t).

(** The statements of unregisterNode that follow the reassignment. *)
Definition removeNode (nodeId : string) : Async unit :=
  modify (on_nodes (map_delete nodeId));;
  modify set_totalNodes;;
  modify updateMetrics;;
  modify (emit (nodeUnregistered nodeId)).

(** unregisterNode *)
Definition unregisterNode (nodeId : string) : Async unit :=
  w ← get;
  match map_get nodeId (nodes w) with
  | None => skip
  | Some _ => reassignNodeTasks nodeId;; removeNode nodeId
  end.

(** registerNode *)
Definition registerNode (agentId : string) (caps : list string)
  : Async unit :=
  w ← get;
  let nodeId := agentId in
  let node := mkNode nodeId agentId caps 0 100 (clock w) in
  let n := length (nodeObjects w) in
  modify (on_nodeObjects (fun ns => ns ++ [node]));;
  modify (on_nodes (map_set nodeId n));;
  modify set_totalNodes;;
  modify updateMetrics;;
  modify (emit (nodeRegistered n));;
  modify (on_listeners (fun ls => ls ++ [nodeId])).

(** handleAgentStateChange; the reassignment it starts is not awaited, and
    nothing follows it. *)
Definition handleAgentStateChange (nodeId : string) (state : string)
  : Async unit :=
  w ← get;
  match map_get nodeId (nodes w) with
  | None => skip
  | Some n =>
      modify (updateNode n (set_lastSeen (clock w)));;
      if String.eqb state "terminated" || String.eqb state "error"
      then reassignNodeTasks nodeId
      else skip
  end.

(** The listener registerNode subscribes for [nodeId]. *)
Definition onAgentStateChanged (nodeId : string) (agentId state : string)
  : Async unit :=
  if String.eqb agentId nodeId then handleAgentStateChange nodeId state
  else skip.

(** *** Submission and decomposition *)

(** shouldDecomposeTask *)
Definition shouldDecomposeTask (task : SwarmTask) : bool :=
  (2 <? length (requirements task))%nat
  || (7 <=? priority task)
  || (200 <? String.length (description task))%nat.

Definition dataSubtask (task : SwarmTask) (now : Z) : SwarmTask :=
  mkTask (task_id task +:+ "_data")
         ("Data processing for: " +:+ description task)
         ["data_processing"] (priority task) None None Pending None now None.

Definition analysisSubtask (task : SwarmTask) (now : Z) : SwarmTask :=
  mkTask (task_id task +:+ "_analysis")
         ("Analysis for: " +:+ description task)
         ["analysis"] (priority task) None None Pending None now None.

Definition requirementSubtask (task : SwarmTask) (now : Z) (i : nat)
    (req : string) : SwarmTask :=
  mkTask (task_id task +:+ "_sub_" +:+ pretty i)
         ("Subtask " +:+ pretty (i + 1)%nat +:+ ": " +:+ description task)
         [req] (priority task) None None Pending None now None.

(** The [subtasks] array decomposeTask builds. *)
Definition planSubtasks (task : SwarmTask) (now : Z) : list SwarmTask :=
  if bool_decide ("data_processing" ∈ requirements task)
     && bool_decide ("analysis" ∈ requirements task)
  then [dataSubtask task now; analysisSubtask task now]
  else if (2 <? length (requirements task))%nat
  then imap (requirementSubtask task now) (requirements task)
  else [].

(** decomposeTask *)
Definition decomposeTask (t : nat) : Async unit :=
  w ← get;
  match taskObjects w !! t with
  | None => skip
  | Some task =>
      let subtasks := planSubtasks task (clock w) in
      if (0 <? length subtasks)%nat then
        let refs := seq (length (taskObjects w)) (length subtasks) in
        modify (on_taskObjects (fun ts => ts ++ subtasks));;
        modify (updateTask t (set_subtasks (Some refs)));;
        forEach (zip refs subtasks) (fun e =>
          modify (on_tasks (map_set (task_id e.2) e.1));;
          assignTask e.1)
      else assignTask t
  end.

(** The object literal of submitTask:
    [{ ...task, id: taskId, status: 'pending', createdAt: new Date() }] *)
Definition stampTask (task : TaskSpec) (w : SwarmCoordinator) : SwarmTask :=
  let taskId := "task_" +:+ pretty (clock w) +:+ "_" +:+ randomId w (draws w) in
  mkTask taskId (sp_description task) (sp_requirements task)
         (sp_priority task) None (sp_assignedNodes task) Pending
         (sp_result task) (clock w) (sp_deadline task).

(** submitTask *)
Definition submitTask (task : TaskSpec) : Async string :=
  w ← get;
  let swarmTask := stampTask task w in
  let t := length (taskObjects w) in
  modify (set_draws (S (draws w)));;
  modify (on_taskObjects (fun ts => ts ++ [swarmTask]));;
  modify (on_tasks (map_set (task_id swarmTask) t));;
  modify (emit (taskSubmitted t));;
  (if shouldDecomposeTask swarmTask then decomposeTask t else assignTask t);;
  mret (task_id swarmTask).

(** *** Health sweep and shutdown *)

(** checkNodeHealth *)
Definition checkNodeHealth (w : SwarmCoordinator) : SwarmCoordinator :=
  foldl (fun acc (e : string * nat) =>
           match nodeObjects acc !! e.2 with
           | Some node =>
               if 60000 <? clock acc - lastSeen node
               then emit (nodeStale e.1) acc else acc
           | None => acc
           end) w (nodes w).

(** The [setInterval] callback of startHeartbeat. *)
Definition heartbeat (w : SwarmCoordinator) : SwarmCoordinator :=
  if heartbeatInterval w then updateMetrics (checkNodeHealth w) else w.

(** shutdown *)
Definition shutdown (w : SwarmCoordinator) : SwarmCoordinator :=
  let w1 := if heartbeatInterval w then set_heartbeatInterval false w else w in
  let activeTasks :=
    (List.filter (fun e : nat * SwarmTask =>
                    bool_decide (status e.2 = Executing)) (taskEntries w1)).*1 in
  let w2 :=
    foldl (fun acc t => emit (taskCancelled t)
                             (updateTask t (set_status Failed) acc))
          w1 activeTasks in
  emit swarmShutdown w2.

(** constructor *)
Definition new (ids : nat -> string) (coins : nat -> bool)
  : SwarmCoordinator :=
  mkCoordinator [] [] [] [] [] [] (mkMetrics 0 0 0 0 0 0) true [] [] [] 0
                0%nat ids coins.

(** *** The event loop

    The coordinator together with its asynchronous calls that wait for an
    agent. One step is one handler run to its next suspension: a call of a
    public method, a listener, a timer or interval callback, or the
    continuation of a call whose [executeTask] promise settled. *)
Record Suspended : Type := mkSuspended {
  waitingNode : nat;
  waitingTask : nat;
  resume : Outcome -> Async unit
}.

Definition System : Type := SwarmCoordinator * list Suspended.

Definition settle (r : Res unit) (pool : list Suspended) : System :=
  match r with
  | Done _ w => (w, pool)
  | Wait w n t k => (w, pool ++ [mkSuspended n t k])
  end.

Inductive Step : Type :=
| CallRegisterNode (agentId : string) (caps : list string)
| CallUnregisterNode (nodeId : string)
| CallSubmitTask (task : TaskSpec)
| CallShutdown
| AgentStateChanged (listener : nat) (agentId state : string)
| TimerFires (i : nat)
| HeartbeatFires
| Settles (i : nat) (o : Outcome).

Definition runCallback (cb : Callback) : Async unit :=
  match cb with
  | SimulateVoting p => modify (simulateVoting p)
  | ResolveConsensus proposalId => resolveConsensus proposalId
  | RetryTask t => retryTask t
  end.

Definition step (now : Z) (st : Step) (sys : System) : System :=
  let w := set_clock now sys.1 in
  let pool := sys.2 in
  match st with
  | CallRegisterNode agentId caps => settle (registerNode agentId caps w) pool
  | CallUnregisterNode nodeId => settle (unregisterNode nodeId w) pool
  | CallSubmitTask task => settle ((submitTask task;; skip) w) pool
  | CallShutdown => (shutdown w, pool)
  | AgentStateChanged i agentId state =>
      match listeners w !! i with
      | Some nodeId => settle (onAgentStateChanged nodeId agentId state w) pool
      | None => (w, pool)
      end
  | TimerFires i =>
      match timers w !! i with
      | Some timer =>
          settle (runCallback (callback timer) (on_timers (delete i) w)) pool
      | None => (w, pool)
      end
  | HeartbeatFires => (heartbeat w, pool)
  | Settles i o =>
      match pool !! i with
      | Some s => settle (resume s o w) (delete i pool)
      | None => (w, pool)
      end
  end.

Definition steps (l : list (Z * Step)) (sys : System) : System :=
  foldl (fun acc (e : Z * Step) => step e.1 e.2 acc) sys l.

Definition boot (ids : nat -> string) (coins : nat -> bool) : System :=
  (new ids coins, []).

(** *** Vocabulary of the properties *)

(** The state in which a call hands control back to the event loop. *)
Definition yielded {A : Type} (r : Res A) : SwarmCoordinator :=
  match r with
  | Done _ w => w
  | Wait w _ _ _ => w
  end.

(** A property of synchronous segments: [seg None] relates the states at
    the two ends of a segment started by a call or a callback, and
    [seg (Some o)] those of a segment resumed by the outcome [o]. *)
Definition Segment : Type :=
  option Outcome -> SwarmCoordinator -> SwarmCoordinator -> Prop.

(** Every segment of the remaining run of a call has the property,
    whatever the state in which the call is resumed. *)
Fixpoint obeys {A : Type} (seg : Segment) (x : option Outcome)
    (w0 : SwarmCoordinator) (r : Res A) : Prop :=
  match r with
  | Done _ w => seg x w0 w
  | Wait w _ _ k => seg x w0 w /\ forall o w1, obeys seg (Some o) w1 (k o w1)
  end.

Definition lawful {A : Type} (seg : Segment) (x : option Outcome)
    (m : Async A) : Prop :=
  forall w, obeys seg x w (m w).

(** [Q] holds when the call completes, however it was interleaved. *)
Fixpoint finally {A : Type} (Q : SwarmCoordinator -> Prop) (r : Res A)
  : Prop :=
  match r with
  | Done _ w => Q w
  | Wait _ _ _ k => forall o w1, finally Q (k o w1)
  end.

Definition sameObjects (w w' : SwarmCoordinator) : Prop :=
  nodeObjects w' = nodeObjects w /\ taskObjects w' = taskObjects w /\
  nodes w' = nodes w.

(** An update of a task that leaves the fields fixed at creation alone. *)
Definition coreSafe (f : SwarmTask -> SwarmTask) : Prop :=
  forall t, task_id (f t) = task_id t /\ description (f t) = description t /\
            requirements (f t) = requirements t /\ priority (f t) = priority t /\
            subtasks (f t) = subtasks t.

(** What the proofs about segments ask of a segment property: it is closed
    under sequencing with outcome-independent code, and the updates the
    coordinator makes comply ([touched] are the tasks a call may write and
    [splittable] those it may give subtasks). *)
Record SegmentLaws (seg : Segment) (touched splittable : nat -> Prop)
  : Prop := {
  law_refl : forall x w, seg x w w;
  law_then : forall x a b c, seg x a b -> seg None b c -> seg x a c;
  law_after : forall x a b c, seg None a b -> seg x b c -> seg x a c;
  law_same : forall w w', sameObjects w w' -> seg None w w';
  law_task : forall t f w,
    touched t -> coreSafe f -> seg None w (updateTask t f w);
  law_nodeAssigned : forall n w, seg None w (updateNode n nodeAssigned w);
  law_nodeSucceeded : forall r n w,
    seg (Some (Resolved r)) w (updateNode n nodeSucceeded w);
  law_nodeFailed : forall e n w,
    seg (Some (Rejected e)) w (updateNode n nodeFailed w);
  law_subtasks : forall t refs w,
    splittable t -> seg None w (updateTask t (set_subtasks refs) w);
  law_allocTask : forall ts w,
    seg None w (on_taskObjects (fun x => x ++ ts) w);
  law_register : forall id a caps t w,
    seg None w
      (on_nodes (map_set id (length (nodeObjects w)))
         (on_nodeObjects (fun x => x ++ [mkNode id a caps 0 100 t]) w));
  law_unregister : forall id w, seg None w (on_nodes (map_delete id) w);
  law_lastSeen : forall n t w, seg None w (updateNode n (set_lastSeen t) w)
}.

(** The outcome a step resumes with, if it resumes a call. *)
Definition settled (st : Step) : option Outcome :=
  match st with
  | Settles _ o => Some o
  | _ => None
  end.

Definition poolLawful (seg : Segment) (pool : list Suspended) : Prop :=
  Forall (fun s => forall o, lawful seg (Some o) (resume s o)) pool.

(** The bounds of the data model. *)
Definition inBounds (n : SwarmNode) : Prop :=
  (0 <= loadFactor n)%Q /\ (loadFactor n <= 1)%Q /\
  (0 <= reputation n)%Q /\ (reputation n <= 100)%Q.






(** *** Candidate search, in the words of the design document *)

(** [req] occurs in [cap]. *)
Definition isSubstring (req cap : string) : Prop :=
  exists pre post, cap = pre +:+ req +:+ post.

(** The eligibility condition in the words of the design document. *)
Definition suitableSpec (task : SwarmTask) (node : SwarmNode) : Prop :=
  (forall req, req ∈ requirements task ->
     exists cap, cap ∈ capabilities node /\ isSubstring req cap) /\
  (loadFactor node < 8 # 10)%Q /\ (50 < reputation node)%Q.

(** The share of the requirements the node can serve. *)
Definition capabilityMatchRatio (node : SwarmNode) (task : SwarmTask) : Q :=
  (inject_Z (Z.of_nat (length (List.filter (hasCapability node)
                                           (requirements task))))
   / inject_Z (Z.of_nat (length (requirements task))))%Q.

(** [40·capabilityMatchRatio + 30·(1−loadFactor) + 30·(reputation/100)] *)
Definition specScore (node : SwarmNode) (task : SwarmTask) : Q :=
  (40 * capabilityMatchRatio node task + 30 * (1 - loadFactor node)
   + 30 * (reputation node / 100))%Q.

(** [a] is not below [b]; a NaN score compares with nothing. *)
Definition notBelow (a b : option Q) : Prop :=
  match a, b with
  | Some x, Some y => (y <= x)%Q
  | _, _ => True
  end.

(** *** Decomposition, in the words of the design document *)

(** The requirement list and priority of each subtask a submission gets. *)
Definition expectedSubtasks (reqs : list string) (prio : Z) (desc : string)
  : list (list string * Z) :=
  if decide ((2 < length reqs)%nat \/ 7 <= prio
             \/ (200 < String.length desc)%nat)
  then
    if decide ("data_processing" ∈ reqs /\ "analysis" ∈ reqs)
    then [(["data_processing"], prio); (["analysis"], prio)]
    else if decide (2 < length reqs)%nat
    then (fun r => ([r], prio)) <$> reqs
    else []
  else [].

(** The coordinator after the bookkeeping of submitTask, when the task is
    about to be decomposed or assigned. *)
Definition submitted (task : TaskSpec) (w : SwarmCoordinator)
  : SwarmCoordinator :=
  emit (taskSubmitted (length (taskObjects w)))
    (on_tasks (map_set (task_id (stampTask task w)) (length (taskObjects w)))
       (on_taskObjects (fun ts => ts ++ [stampTask task w])
          (set_draws (S (draws w)) w))).

(** What the property says of a subtask. *)
Definition view (s : SwarmTask) : list string * Z :=
  (requirements s, priority s).

Definition sameCore (a b : SwarmTask) : Prop :=
  task_id a = task_id b /\ description a = description b /\
  requirements a = requirements b /\ priority a = priority b /\
  subtasks a = subtasks b.

(** Every task object stays, with the fields fixed at creation and its
    subtasks. *)
Definition coreSeg : Segment :=
  fun _ w w' => forall l x, taskObjects w !! l = Some x ->
    exists x', taskObjects w' !! l = Some x' /\ sameCore x x'.

(** *** Consensus, node loss *)

Definition yesVotes (proposal : ConsensusProposal) : Z :=
  Z.of_nat (length (List.filter (fun v : string * bool => v.2)
                                (votes proposal))).

(** [this.proposals.get(proposalId)] *)
Definition lookupProposal (proposalId : string) (w : SwarmCoordinator)
  : option ConsensusProposal :=
  map_get proposalId (proposals w) ≫= (fun p => proposalObjects w !! p).

(** Every entry of the node map leads to an object whose id is its key. *)
Definition keyed (w : SwarmCoordinator) : Prop :=
  forall k l, (k, l) ∈ nodes w ->
    exists n, nodeObjects w !! l = Some n /\ node_id n = k.

Definition keyedSeg : Segment := fun _ w w' => keyed w -> keyed w'.

(** The task object [t], if there is one, is left as it is. *)
Definition taskFrame (t : nat) : Segment :=
  fun _ w w' =>
    forall x, taskObjects w !! t = Some x -> taskObjects w' !! t = Some x.

(** *** Scenarios *)

Definition simpleTask : TaskSpec := mkSpec "x" ["a"] 1 None None None.

(** One node, on which the task fails. *)
Definition one_failure : list (Z * Step) :=
  [(0, CallRegisterNode "A" ["a"]);
   (2, CallSubmitTask simpleTask);
   (3, Settles 0 (Rejected "boom"))].

Definition okResult : TaskResult := mkResult "task_2_0" "A" true 100.


(** A node is unregistered after it completed a task. *)
Definition unregister_after_completion : list (Z * Step) :=
  [(0, CallRegisterNode "A" ["a"]);
   (2, CallSubmitTask simpleTask);
   (3, Settles 0 (Resolved okResult));
   (4, CallUnregisterNode "A")].

(** The (task id, node id) pairs of the 'taskAssigned' notifications. *)
Definition assignmentLog (w : SwarmCoordinator) : list (string * string) :=
  omap (fun e =>
          match e with
          | taskAssigned t n =>
              tid ← task_id <$> taskObjects w !! t;
              nid ← node_id <$> nodeObjects w !! n;
              Some (tid, nid)
          | _ => None
          end) (emitted w).

(** Two nodes can do the task and every execution of it fails; each retry
    timer fires after its five seconds. *)
Definition second_retry : list (Z * Step) :=
  [(0, CallRegisterNode "A" ["a"]); (1, CallRegisterNode "B" ["a"]);
   (2, CallSubmitTask simpleTask);
   (3, Settles 0 (Rejected "boom")); (5003, TimerFires 0);
   (5004, Settles 0 (Rejected "boom"))].

Definition third_attempt : list (Z * Step) :=
  second_retry ++ [(10004, TimerFires 0)].

Definition fourth_failure : list (Z * Step) :=
  third_attempt ++
  [(10005, Settles 0 (Rejected "boom")); (15005, TimerFires 0);
   (15006, Settles 0 (Rejected "boom"))].

(** Three registered nodes with the capability, the second one loaded to
    0.9. *)
Definition three_nodes : SwarmCoordinator :=
  mkCoordinator
    [mkNode "A" "A" ["alpha"] (1 # 10) 100 0;
     mkNode "B" "B" ["alpha"] (9 # 10) 100 0;
     mkNode "C" "C" ["alphabet"] 0 100 0]
    [] [] [("A", 0%nat); ("B", 1%nat); ("C", 2%nat)] [] []
    (mkMetrics 3 3 0 (1 # 3) 0 0) true [] ["A"; "B"; "C"] [] 0 0%nat
    pretty (fun _ => true).

Definition alphaTask : SwarmTask :=
  mkTask "task_0_0" "x" ["alpha"] 1 None None Pending None 0 None.

(** The score of the design document for a given capability match ratio. *)
Definition scoreWith (ratio : Q) (node : SwarmNode) : Q :=
  (40 * ratio + 30 * (1 - loadFactor node) + 30 * (reputation node / 100))%Q.

(** A task that asks for no capability. *)
Definition plainTask : TaskSpec := mkSpec "y" [] 1 None None None.

(** Two nodes, the first of which is executing a task. *)
Definition one_busy : list (Z * Step) :=
  [(0, CallRegisterNode "A" ["a"]); (1, CallRegisterNode "C" ["c"]);
   (2, CallSubmitTask simpleTask)].

(** The 'consensusResolved' notifications, in emission order. *)
Definition resolutions (w : SwarmCoordinator) : list (string * bool) :=
  omap (fun e => match e with
                 | consensusResolved proposalId reached _ _ =>
                     Some (proposalId, reached)
                 | _ => None
                 end) (emitted w).

(** A task that decomposes into two subtasks, each put to the vote. *)
Definition pipelineTask : TaskSpec :=
  mkSpec "x" ["data_processing"; "analysis"] 9 None None None.

(** [Math.random()] renders the same suffix for the two proposal ids. *)
Definition sameSuffix (n : nat) : string :=
  match n with 0%nat => "t" | _ => "p" end.

(** Both proposals are created in the same millisecond; the votes are cast
    and the first resolution timer fires. *)
Definition first_resolution : list (Z * Step) :=
  [(0, CallRegisterNode "A" ["data_processing"; "analysis"]);
   (1, CallSubmitTask pipelineTask);
   (1001, TimerFires 0); (1001, TimerFires 1);
   (30001, TimerFires 0)].

(** The second resolution timer fires while the assignment started by the
    first is executing; then both executions complete. *)
Definition second_resolution : list (Z * Step) :=
  first_resolution ++ [(30001, TimerFires 0)].

Definition analysisResult : TaskResult :=
  mkResult "task_1_t_analysis" "A" true 100.

Definition both_complete : list (Z * Step) :=
  second_resolution ++
  [(30002, Settles 0 (Resolved analysisResult));
   (30003, Settles 0 (Resolved analysisResult))].

End Swarm.

(** ** Vocabulary of further properties of the lifecycle manager *)

Module LifecycleTerms.
Import Lifecycle.

(** The timers left by [clearTimeout] of every handle of [ids]. *)
Definition clearAll (ids : list nat) (ts : list Timer) : list Timer :=
  foldl (fun acc id => filter (fun t => timerId t ≠ id) acc) ts ids.

(** The call goes through forceTransitionTo from outside the manager. *)
Definition forces (op : Op) : bool :=
  match op with
  | OpForceTransitionTo _ _ _ | OpRestoreFromCheckpoint _ => true
  | _ => false
  end.

Definition destroys (op : Op) : bool :=
  match op with
  | OpDestroy => true
  | _ => false
  end.

(** The test [shouldRetry] of handleError, before the counter is raised. *)
Definition willRetry (m : LifecycleManager) : bool :=
  (retryCount m + 1 <=? maxRetries (policy m))
  && autoRestart (policy m)
  && negb (bool_decide (currentState m = TERMINATED)).

(** The sum of the durations of a [stateDurations] map. *)
Definition total (d : list (AgentState * Z)) : Z := foldr Z.add 0 d.*2.

(** Every pending timer was handed out before [nextTimer]. *)
Definition timersFresh (m : LifecycleManager) : Prop :=
  Forall (fun t => (timerId t < nextTimer m)%nat) (timers m).

(** Every pending force timer is named by a [once('terminated')] handler. *)
Definition forceCovered (m : LifecycleManager) : Prop :=
  Forall (fun t => timerKind t = ForceTimer -> timerId t ∈ onceTerminated m)
         (timers m).

(** The entry that restoreFromCheckpoint records for the checkpoint [cp]
    when the manager is in state [s]. *)
Definition restoreEntry (now : Z) (s : AgentState) (cp : StateTransition)
  : StateTransition :=
  mkTransition s (to cp) now (Some ("FORCED: " +:+ "Restored from checkpoint"))
    (Some (<["forced" := MBool true]>
             (<["restoredFrom" := MDate (timestamp cp)]> ∅))).

(** The state the history leads to from [s] when every entry starts where
    the one before it ended; [None] when an entry does not. *)
Fixpoint replay (s : AgentState) (h : list StateTransition)
  : option AgentState :=
  match h with
  | [] => Some s
  | t :: rest => if decide (from t = s) then replay (to t) rest else None
  end.

(** The call is restoreFromCheckpoint without a checkpoint. *)
Definition restoresLast (op : Op) : bool :=
  match op with
  | OpRestoreFromCheckpoint None => true
  | _ => false
  end.

(** The timers are left without a force timer. *)
Definition unforced (m : LifecycleManager) : Prop :=
  Forall (fun t => timerKind t ≠ ForceTimer) (timers m).

(** What a synchronous stretch keeps: the force timers stay covered, and
    if it takes the manager into TERMINATED no force timer is left. *)
Definition settles (m m' : LifecycleManager) : Prop :=
  forceCovered m' /\
  (currentState m ≠ TERMINATED -> currentState m' = TERMINATED -> unforced m').

(** A graceful shutdown from RUNNING that is completed in time. *)
Definition shutdown_ops : list (Z * Op) :=
  [(1, OpTransitionTo INITIALIZING None None);
   (2, OpTransitionTo RUNNING None None);
   (3, OpGracefulShutdown None);
   (4, OpTransitionTo TERMINATED None None)].

Definition terminated : LifecycleManager := run shutdown_ops (new noOverrides).

End LifecycleTerms.

(** ** Subscribers that throw

    eventemitter3 calls the listeners of an event one after the other, in
    the order of registration, and does not catch: when a listener throws,
    the listeners registered after it are not called and the exception
    leaves [emit]. The listeners of an event are those registered from
    outside the manager and, for 'terminated', the [once] handlers of
    gracefulShutdown, which do not throw. *)

Module Subscribed.
Import Lifecycle.

(** What the outside listeners of an emission do: all return, or one
    throws, [handlersBefore] of the manager's own handlers for the event
    having been registered before it. *)
Inductive Delivery : Type :=
| Returns
| Throws (handlersBefore : nat).

#[global] Instance Delivery_eq_dec : EqDecision Delivery.
Proof. solve_decision. Defined.

Definition Subscribers : Type := Event -> Delivery.

(** No listener throws. *)
Definition quiet : Subscribers := fun _ => Returns.

(** The emissions under the event name 'terminated': [emit(transition.to,
    ...)] with target TERMINATED, and [emit('terminated', ...)]. *)
Definition namedTerminated (e : Event) : bool :=
  match e with
  | EvState TERMINATED _ | EvTerminated _ => true
  | _ => false
  end.

(** The first [n] [once('terminated')] handlers run: each is removed and
    clears its force timer. *)
Definition fireFirst (n : nat) (m : LifecycleManager) : LifecycleManager :=
  set_onceTerminated (drop n (onceTerminated m))
    (foldl (fun acc id => clearTimeout id acc) m (take n (onceTerminated m))).

(** [this.emit(...)]: the manager after the emission, and whether the
    emission threw. *)
Definition emit (sub : Subscribers) (e : Event) (m : LifecycleManager)
  : bool * LifecycleManager :=
  let m1 := Lifecycle.emit e m in
  match sub e with
  | Returns =>
      (false, if namedTerminated e then fireOnceTerminated m1 else m1)
  | Throws n =>
      (true, if namedTerminated e then fireFirst n m1 else m1)
  end.

(** executeTransition; [true] when it threw. *)
Definition executeTransition (sub : Subscribers) (tr : StateTransition)
    (m : LifecycleManager) : bool * LifecycleManager :=
  let oldState := currentState m in
  let m1 := set_state (to tr) m in
  let m2 := set_history (stateHistory m1 ++ [tr]) m1 in
  let m3 := if decide (to tr = RUNNING) then set_retryCount 0 m2 else m2 in
  let '(threw, m4) := emit sub (EvStateChanged (to tr) oldState tr) m3 in
  if threw then (true, m4) else
  let '(threw, m5) := emit sub (EvState (to tr) tr) m4 in
  if threw then (true, m5) else
  if decide (to tr = TERMINATED)
  then emit sub (EvTerminated tr) (stopCheckpointing m5)
  else (false, m5).

(** How the promise of an [async] method settles. *)
Inductive Settled (A : Type) : Type :=
| Fulfilled (a : A)
| Rejected.
Arguments Fulfilled {A} a.
Arguments Rejected {A}.

(** transitionTo, with its [catch] branch. An exception of the
    'transitionError' listeners themselves leaves the method: the promise is
    rejected. *)
Definition transitionTo (sub : Subscribers) (now : Z) (newState : AgentState)
    (rsn : option string) (md : option (gmap string MetaValue))
    (m : LifecycleManager) : Settled bool * LifecycleManager :=
  if negb (canTransitionTo m newState)
  then
    let '(threw, m1) :=
      emit sub (EvTransitionError (currentState m) newState) m in
    (if threw then Rejected else Fulfilled false, m1)
  else
    let transition := mkTransition (currentState m) newState now rsn md in
    let '(threw, m1) := executeTransition sub transition m in
    if threw then
      let '(threw', m2) := emit sub (EvTransitionFailed transition) m1 in
      (if threw' then Rejected else Fulfilled false, m2)
    else (Fulfilled true, m1).

(** The notifications of a transition, in emission order. *)
Definition notifications (old : AgentState) (tr : StateTransition)
  : list Event :=
  [EvStateChanged (to tr) old tr; EvState (to tr) tr]
  ++ (if decide (to tr = TERMINATED) then [EvTerminated tr] else []).

(** A subscriber to 'stateChanged' that throws. *)
Definition failingObserver : Subscribers :=
  fun e => match e with
           | EvStateChanged _ _ _ => Throws 0
           | _ => Returns
           end.

End Subscribed.

(** ** Calls of the lifecycle manager that overlap

    An [async] method runs synchronously up to its first [await] and the
    rest of it runs later, from the microtask queue: after the caller's
    synchronous code, which may call the manager again. Three methods do
    something after their [await]: handleError sets the retry timer,
    gracefulShutdown sets the force timer and registers its
    [once('terminated')] handler, restoreFromCheckpoint emits 'restored'.
    The functions of [Lifecycle] take such a call together with its
    continuation, as it runs when no other call comes in between. Here the
    two parts are separate steps, and the continuations that wait may run in
    any order and after any step: the event loop runs them in the order of
    the queue and before the next timer fires, so the runs of this model
    include every run of the manager. *)

Module Overlap.
Import Lifecycle.

(** What is left of a call after its [await]. *)
Inductive Continuation : Type :=
| ArmRetry                            (* handleError: [setTimeout] *)
| ArmForce                            (* gracefulShutdown: [setTimeout],
                                         [once('terminated', ...)] *)
| EmitRestored (cp : StateTransition) (* restoreFromCheckpoint:
                                         [emit('restored', ...)] *).

(** [d * Math.pow(2, e)], in whole milliseconds. *)
Definition scaled (d e : Z) : Z :=
  if 0 <=? e then d * 2 ^ e else Z.quot d (2 ^ (- e)).

(** The part of a call up to its first [await] with something after it;
    the other calls, and the timer callbacks, do nothing after an [await]. *)
Definition start (now : Z) (op : Op) (m : LifecycleManager)
  : LifecycleManager * option Continuation :=
  match op with
  | OpHandleError message =>
      let m1 := set_retryCount (retryCount m + 1) m in
      let shouldRetry :=
        (retryCount m1 <=? maxRetries (policy m1))
        && autoRestart (policy m1)
        && negb (bool_decide (currentState m1 = TERMINATED)) in
      if shouldRetry then
        ((transitionTo now ERROR (Some ("Error occurred: " +:+ message))
            (Some (<["willRetry" := MBool true]>
                     (<["retryCount" := MNum (retryCount m1)]>
                        (<["error" := MStr message]> ∅)))) m1).2,
         Some ArmRetry)
      else
        ((transitionTo now ERROR (Some ("Max retries exceeded: " +:+ message))
            (Some (<["willRetry" := MBool false]>
                     (<["retryCount" := MNum (retryCount m1)]>
                        (<["error" := MStr message]> ∅)))) m1).2,
         None)
  | OpGracefulShutdown rsn =>
      if bool_decide (currentState m = TERMINATED)
         || bool_decide (currentState m = TERMINATING)
      then (m, None)
      else
        let r := match rsn with
                 | Some s => if String.eqb s "" then "Graceful shutdown requested"
                             else s
                 | None => "Graceful shutdown requested"
                 end in
        ((transitionTo now TERMINATING (Some r) None m).2, Some ArmForce)
  | OpRestoreFromCheckpoint checkpoint =>
      let '(targetCheckpoint, m1) :=
        match checkpoint with
        | Some cp => (Some cp, m)
        | None => getLastCheckpoint m
        end in
      match targetCheckpoint with
      | None => (m1, None)
      | Some cp =>
          (forceTransitionTo now (to cp) "Restored from checkpoint"
             (Some (<["restoredFrom" := MDate (timestamp cp)]> ∅)) m1,
           Some (EmitRestored cp))
      end
  | _ => (exec now op m, None)
  end.

(** The part of a call after its [await]; the policy and the retry count
    are read when it runs. *)
Definition resume (c : Continuation) (m : LifecycleManager)
  : LifecycleManager :=
  match c with
  | ArmRetry =>
      (setTimeout RetryTimer
         (scaled (retryDelayMs (policy m)) (retryCount m - 1)) m).2
  | ArmForce =>
      let '(id, m2) := setTimeout ForceTimer (gracefulShutdownMs (policy m)) m in
      set_onceTerminated (onceTerminated m2 ++ [id]) m2
  | EmitRestored cp => emit (EvRestored cp) m
  end.

(** The manager with the continuations that wait in the microtask queue. *)
Definition System : Type := LifecycleManager * list Continuation.

Inductive Step : Type :=
| Calls (op : Op)
| Resumes (i : nat).

Definition step (now : Z) (st : Step) (sys : System) : System :=
  match st with
  | Calls op =>
      let '(m, c) := start now op sys.1 in (m, sys.2 ++ option_list c)
  | Resumes i =>
      match sys.2 !! i with
      | Some c => (resume c sys.1, delete i sys.2)
      | None => sys
      end
  end.

Definition steps (l : list (Z * Step)) (sys : System) : System :=
  foldl (fun acc (e : Z * Step) => step e.1 e.2 acc) sys l.

Definition boot (over : PartialPolicy) : System := (new over, []).

(** The run in which no call overlaps another: the continuation of each
    call, if it has one, runs before the next call. *)
Definition unoverlapped (ops : list (Z * Op)) : list (Z * Step) :=
  ops ≫= (fun e => [(e.1, Calls e.2); (e.1, Resumes 0)]).

Definition callsDestroy (st : Step) : bool :=
  match st with
  | Calls OpDestroy => true
  | _ => false
  end.

(** gracefulShutdown is called on a running manager and, before its
    continuation runs, the manager is told to terminate. *)
Definition overlapped_shutdown : list (Z * Step) :=
  [(1, Calls (OpTransitionTo INITIALIZING None None));
   (2, Calls (OpTransitionTo RUNNING None None));
   (3, Calls (OpGracefulShutdown None))].

End Overlap.

(** ** Vocabulary of further properties of the swarm coordinator *)

Module SwarmTerms.
Import Swarm.

(** The ids of the nodes the task was already given to. *)
Definition previousNodes (task : SwarmTask) : list string :=
  default [] (assignedNodes task).

(** The id of the proposal assignTaskWithConsensus creates in [w]. *)
Definition nextProposalId (w : SwarmCoordinator) : string :=
  "proposal_" +:+ pretty (clock w) +:+ "_" +:+ randomId w (draws w).

(** The 'nodeStale' notifications of one sweep of checkNodeHealth. *)
Definition staleEvent (w : SwarmCoordinator) (e : string * nat)
  : option Event :=
  match nodeObjects w !! e.2 with
  | Some node =>
      if 60000 <? clock w - lastSeen node then Some (nodeStale e.1) else None
  | None => None
  end.

Definition staleEvents (w : SwarmCoordinator) : list Event :=
  omap (staleEvent w) (nodes w).

(** The tasks shutdown cancels: the registered tasks that are executing. *)
Definition activeTasks (w : SwarmCoordinator) : list nat :=
  (List.filter (fun e : nat * SwarmTask => bool_decide (status e.2 = Executing))
               (taskEntries w)).*1.

(** The condition under which simulateVoting draws a node's vote. *)
Definition mayApprove (node : SwarmNode) : Prop :=
  (loadFactor node < 7 # 10)%Q /\ (60 < reputation node)%Q.

(** Every node and task object stays, and keeps what identifies it. *)
Definition identitySeg : Segment :=
  fun _ w w' =>
    (forall l n, nodeObjects w !! l = Some n ->
       exists n', nodeObjects w' !! l = Some n' /\ node_id n' = node_id n /\
                  agent n' = agent n /\ capabilities n' = capabilities n) /\
    (forall l x, taskObjects w !! l = Some x ->
       exists x', taskObjects w' !! l = Some x' /\ task_id x' = task_id x /\
                  description x' = description x /\
                  requirements x' = requirements x /\
                  priority x' = priority x).

(** Where the call hands control back [P] holds, if it held where the
    segment began: in the state of the call ([pre]), or in the state in
    which the call was resumed. *)
Fixpoint keeps {A : Type} (P : SwarmCoordinator -> Prop) (pre : Prop)
    (r : Res A) : Prop :=
  match r with
  | Done _ w => pre -> P w
  | Wait w _ _ k => (pre -> P w) /\ forall o w1, keeps P (P w1) (k o w1)
  end.

Definition invariant {A : Type} (P : SwarmCoordinator -> Prop) (m : Async A)
  : Prop :=
  forall w, keeps P (P w) (m w).

Definition poolKeeps (P : SwarmCoordinator -> Prop) (pool : list Suspended)
  : Prop :=
  Forall (fun s => forall o, invariant P (resume s o)) pool.

(** The second state differs from the first in nothing the books of the
    coordinator are kept in. *)
Definition sameBooks (w w' : SwarmCoordinator) : Prop :=
  nodeObjects w' = nodeObjects w /\ nodes w' = nodes w /\
  tasks w' = tasks w /\ metrics w' = metrics w /\ emitted w' = emitted w.

Definition isCompletion (e : Event) : bool :=
  match e with
  | taskCompleted _ _ => true
  | _ => false
  end.

(** What the proofs about invariants ask of one: the updates the
    coordinator makes, grouped as it makes them, keep it. *)
Record InvariantLaws (P : SwarmCoordinator -> Prop) : Prop := {
  inv_frame : forall w w', sameBooks w w' -> P w -> P w';
  inv_emit : forall e w, isCompletion e = false -> P w -> P (emit e w);
  inv_completed : forall t r w,
    P w -> P (emit (taskCompleted t r) (incr_completedTasks w));
  inv_node : forall n f w,
    (forall x, inBounds x -> inBounds (f x)) -> P w -> P (updateNode n f w);
  inv_register : forall id a caps t w,
    P w ->
    P (updateMetrics
         (set_totalNodes
            (on_nodes (map_set id (length (nodeObjects w)))
               (on_nodeObjects (fun x => x ++ [mkNode id a caps 0 100 t]) w))));
  inv_unregister : forall id w,
    P w -> P (updateMetrics (set_totalNodes (on_nodes (map_delete id) w)));
  inv_consensus : forall b w, P w -> P (updateConsensusMetrics b w);
  inv_task : forall k v w, P w -> P (on_tasks (map_set k v) w);
  inv_sweep : forall w, P w -> P (updateMetrics w)
}.

(** The books are consistent. *)
Definition metricsOK (w : SwarmCoordinator) : Prop :=
  totalNodes (metrics w) = map_size (nodes w)
  /\ completedTasks (metrics w)
     = Z.of_nat (length (List.filter isCompletion (emitted w)))
  /\ (0 <= consensusSuccessRate (metrics w))%Q
  /\ (consensusSuccessRate (metrics w) <= 1)%Q
  /\ 0 <= activeNodes (metrics w) <= totalNodes (metrics w)
  /\ (0 <= averageLoadFactor (metrics w))%Q
  /\ (averageLoadFactor (metrics w) <= 1)%Q
  /\ averageTaskCompletionTime (metrics w) = 0%Q
  /\ Forall inBounds (nodeObjects w).

(** The task map has an entry for the id. *)
Definition hasTask (k : string) (w : SwarmCoordinator) : Prop :=
  is_Some (map_get k (tasks w)).

(** *** Scenarios *)

(** The coordinator after the only capable node failed the task. *)
Definition after_failure : SwarmCoordinator :=
  (steps one_failure (boot pretty (fun _ => true))).1.

Definition failedTask : SwarmTask :=
  mkTask "task_2_0" "x" ["a"] 1 None (Some ["A"]) Failed None 2 None.

(** A task of priority 9. *)
Definition urgentTask : TaskSpec := mkSpec "x" ["a"] 9 None None None.

(** The task was submitted to an empty swarm; a capable node joined later. *)
Definition queued : SwarmCoordinator :=
  (steps [(0, CallSubmitTask urgentTask); (1, CallRegisterNode "A" ["a"])]
         (boot pretty (fun _ => true))).1.

Definition queuedTask : SwarmTask :=
  mkTask "task_0_0" "x" ["a"] 9 None None Pending None 0 None.

(** The task was submitted to a swarm of one capable node: a vote is open. *)
Definition voting : SwarmCoordinator :=
  (steps [(0, CallRegisterNode "A" ["a"]); (2, CallSubmitTask urgentTask)]
         (boot pretty (fun _ => true))).1.

Definition openProposal : ConsensusProposal :=
  mkProposal "proposal_2_1" "coordinator" task_assignment
             (mkPayload "task_2_0" ["A"]) [] 1 30002.

(** *** Node loss, segment by segment *)

(** The body of the loop of reassignNodeTasks. *)
Definition reassign (nodeId : string) (t : nat) : Async unit :=
  modify (updateTask t (resetForReassign nodeId));; assignTask t.

(** The task object [t] is pending and does not list [nodeId]. *)
Definition parked (nodeId : string) (t : nat) (w : SwarmCoordinator) : Prop :=
  exists x, taskObjects w !! t = Some x /\ status x = Pending /\
            nodeId ∉ default [] (assignedNodes x).

(** The task object [t] is executing on the node object [n] alone. *)
Definition startedOn (t n : nat) (w : SwarmCoordinator) : Prop :=
  exists x node, taskObjects w !! t = Some x /\
                 nodeObjects w !! n = Some node /\
                 status x = Executing /\
                 assignedNodes x = Some [node_id node].

(** The notification [e] is the answer of the assignment policy for the
    task object [t]: the task was assigned, no node was suitable, or a
    proposal about the task was put to the vote. *)
Definition decides (w : SwarmCoordinator) (t : nat) (e : Event) : Prop :=
  match e with
  | taskAssigned t' _ | taskAssignmentFailed t' _ => t' = t
  | consensusStarted p =>
      exists x proposal, taskObjects w !! t = Some x /\
                         proposalObjects w !! p = Some proposal /\
                         taskId (payload proposal) = task_id x
  | _ => False
  end.

(** The task object [t], if the segment found it, was given back in the
    segment that emitted [evs] and ended in [w]: it is pending without
    [nodeId] (unless it is the task [running] that the segment started), and
    the assignment policy answered for it. *)
Definition givenBack (nodeId : string) (running : option nat)
    (w0 w : SwarmCoordinator) (evs : list Event) (t : nat) : Prop :=
  is_Some (taskObjects w0 !! t) ->
  (running ≠ Some t -> parked nodeId t w) /\ Exists (decides w t) evs.

(** The remaining run of unregisterNode(nodeId), segment by segment, with
    the tasks [todo] still to reassign. A segment starts in [w0] (the state
    of the call, or the state in which the call is resumed, whatever the
    other handlers made of it) and ends where the call awaits an execution
    or returns. It gives back tasks of [todo], in order,
    until the policy assigns one: the call then waits for that execution,
    with the node map as the segment found it, and goes on with the rest
    when it is resumed. The segment in which no task is left, or none is
    assigned, deletes the node and ends the call. *)
Fixpoint handsOver (nodeId : string) (todo : list nat)
    (w0 : SwarmCoordinator) (r : Res unit) : Prop :=
  exists evs, emitted (yielded r) = emitted w0 ++ evs /\
  match r with
  | Done _ w =>
      Forall (givenBack nodeId None w0 w evs) todo /\
      map_get nodeId (nodes w) = None /\
      last evs = Some (nodeUnregistered nodeId)
  | Wait w n t k =>
      exists before after,
        todo = before ++ t :: after /\
        Forall (givenBack nodeId (Some t) w0 w evs) before /\
        startedOn t n w /\
        last evs = Some (taskAssigned t n) /\
        nodes w = nodes w0 /\
        forall o w1, handsOver nodeId after w1 (k o w1)
  end.

(** Two capable nodes; the task runs on the first. *)
Definition two_nodes_one_task : list (Z * Step) :=
  [(0, CallRegisterNode "A" ["a"]); (1, CallRegisterNode "B" ["a"]);
   (2, CallSubmitTask simpleTask)].

(** While unregisterNode("A") waits for the task it moved to B, another
    task is submitted and assigned to A; then the execution on B
    completes. *)
Definition assigned_meanwhile : list (Z * Step) :=
  two_nodes_one_task ++
  [(3, CallUnregisterNode "A"); (4, CallSubmitTask simpleTask);
   (5, Settles 1 (Resolved (mkResult "task_2_0" "B" true 100)))].

(** With a single node, the task unregisterNode gives back is assigned to
    the node that is being unregistered. *)
Definition back_to_the_node : list (Z * Step) :=
  [(0, CallRegisterNode "A" ["a"]); (2, CallSubmitTask simpleTask);
   (3, CallUnregisterNode "A");
   (4, Settles 1 (Resolved okResult)); (5, Settles 0 (Resolved okResult))].

End SwarmTerms.

(** ** The agent base class ([src/agents/BaseAgent.ts]) and [BasicAgent]

    The hooks a subclass supplies ([onInitialize], [onExecuteTask], ...) are
    asynchronous: a method of the base class runs up to the [await] of its
    hook and is resumed, in whatever state the agent then is, when the hook
    settles. Subscribers of the agent's events are outside the agent. *)
Module Agent.

(** [Task], as far as the agent reads it. *)
Record Task : Type := mkTask {
  task_id : string;
  task_type : string
}.

(** The string value of a state, as the error messages print it. *)
Definition stateName (s : AgentState) : string :=
  match s with
  | CREATED => "created"
  | INITIALIZING => "initializing"
  | RUNNING => "running"
  | SUSPENDED => "suspended"
  | TERMINATING => "terminating"
  | TERMINATED => "terminated"
  | ERROR => "error"
  end.

Inductive Event : Type :=
| stateChanged (newState oldState : AgentState)
| initialized
| terminated
| suspended
| resumed
| error (message : string)
| taskStarted (task : Task)
| taskCompleted (r : Swarm.TaskResult)
| taskFailed (task : Task) (message : string).

Record BaseAgent : Type := mkAgent {
  id : string;
  capabilities : list string;          (* config.capabilities *)
  maxConcurrentTasks : Z;              (* config.maxConcurrentTasks, a count *)
  state : AgentState;
  lastActiveAt : Z;
  assignedTasks : Z;
  completedTasks : Z;
  errorCount : Z;
  currentTasks : gset string;
  initializationPromise : bool;        (* the field is set *)
  emitted : list Event
}.

Definition set_state (s : AgentState) (a : BaseAgent) : BaseAgent :=
  mkAgent (id a) (capabilities a) (maxConcurrentTasks a) s (lastActiveAt a)
          (assignedTasks a) (completedTasks a) (errorCount a) (currentTasks a)
          (initializationPromise a) (emitted a).
Definition set_lastActiveAt (t : Z) (a : BaseAgent) : BaseAgent :=
  mkAgent (id a) (capabilities a) (maxConcurrentTasks a) (state a) t
          (assignedTasks a) (completedTasks a) (errorCount a) (currentTasks a)
          (initializationPromise a) (emitted a).
Definition incr_assignedTasks (a : BaseAgent) : BaseAgent :=
  mkAgent (id a) (capabilities a) (maxConcurrentTasks a) (state a)
          (lastActiveAt a) (assignedTasks a + 1) (completedTasks a)
          (errorCount a) (currentTasks a) (initializationPromise a)
          (emitted a).
Definition incr_completedTasks (a : BaseAgent) : BaseAgent :=
  mkAgent (id a) (capabilities a) (maxConcurrentTasks a) (state a)
          (lastActiveAt a) (assignedTasks a) (completedTasks a + 1)
          (errorCount a) (currentTasks a) (initializationPromise a)
          (emitted a).
Definition incr_errorCount (a : BaseAgent) : BaseAgent :=
  mkAgent (id a) (capabilities a) (maxConcurrentTasks a) (state a)
          (lastActiveAt a) (assignedTasks a) (completedTasks a)
          (errorCount a + 1) (currentTasks a) (initializationPromise a)
          (emitted a).
Definition set_currentTasks (s : gset string) (a : BaseAgent) : BaseAgent :=
  mkAgent (id a) (capabilities a) (maxConcurrentTasks a) (state a)
          (lastActiveAt a) (assignedTasks a) (completedTasks a)
          (errorCount a) s (initializationPromise a) (emitted a).
Definition set_initializationPromise (b : bool) (a : BaseAgent) : BaseAgent :=
  mkAgent (id a) (capabilities a) (maxConcurrentTasks a) (state a)
          (lastActiveAt a) (assignedTasks a) (completedTasks a)
          (errorCount a) (currentTasks a) b (emitted a).
Definition emit (e : Event) (a : BaseAgent) : BaseAgent :=
  mkAgent (id a) (capabilities a) (maxConcurrentTasks a) (state a)
          (lastActiveAt a) (assignedTasks a) (completedTasks a)
          (errorCount a) (currentTasks a) (initializationPromise a)
          (emitted a ++ [e]).

(** constructor *)
Definition new (agentId : string) (caps : list string) (maxTasks : Z)
    (now : Z) : BaseAgent :=
  mkAgent agentId caps maxTasks CREATED now 0 0 0 ∅ false [].

(** setState *)
Definition setState (newState : AgentState) (a : BaseAgent) : BaseAgent :=
  let oldState := state a in
  emit (stateChanged newState oldState) (set_state newState a).

(** How a hook of the subclass settles. *)
Inductive Hook : Type :=
| Fulfils
| Throws (message : string).

(** How the promise a method returns settles; [Shared] is the promise a
    previous call of initialize made. *)
Inductive Reply : Type :=
| Resolves
| ResolvesWith (r : Swarm.TaskResult)
| Rejects (message : string)
| Shared.

(** A call either settles at once or waits for its hook; the continuation
    reads the clock when it runs. *)
Inductive Started : Type :=
| Settled (reply : Reply) (a : BaseAgent)
| Awaiting (a : BaseAgent) (k : Z -> Hook -> BaseAgent -> Reply * BaseAgent).

(** initialize and _doInitialize *)
Definition initialize (a : BaseAgent) : Started :=
  if initializationPromise a then Settled Shared a
  else
    let a1 := setState INITIALIZING a in
    Awaiting (set_initializationPromise true a1)
      (fun _ h a' =>
         match h with
         | Fulfils => (Resolves, emit initialized (setState RUNNING a'))
         | Throws e =>
             (Rejects e, emit (error e) (incr_errorCount (setState ERROR a')))
         end).

(** terminate: the loop empties [currentTasks]; [removeAllListeners] drops
    the subscribers. *)
Definition terminate (a : BaseAgent) : Started :=
  let a1 := setState TERMINATING a in
  Awaiting (set_currentTasks ∅ a1)
    (fun _ h a' =>
       match h with
       | Fulfils => (Resolves, emit terminated (setState TERMINATED a'))
       | Throws e =>
           (Rejects e, emit (error e) (incr_errorCount (setState ERROR a')))
       end).

(** suspend *)
Definition suspend (a : BaseAgent) : Started :=
  if negb (bool_decide (state a = RUNNING))
  then Settled (Rejects ("Cannot suspend agent in state: "
                         +:+ stateName (state a))) a
  else
    Awaiting (setState SUSPENDED a)
      (fun _ h a' =>
         match h with
         | Fulfils => (Resolves, emit suspended a')
         | Throws e => (Rejects e, a')
         end).

(** resume *)
Definition resume (a : BaseAgent) : Started :=
  if negb (bool_decide (state a = SUSPENDED))
  then Settled (Rejects ("Cannot resume agent in state: "
                         +:+ stateName (state a))) a
  else
    Awaiting (setState RUNNING a)
      (fun _ h a' =>
         match h with
         | Fulfils => (Resolves, emit resumed a')
         | Throws e => (Rejects e, a')
         end).

(** getState, isHealthy *)
Definition getState (a : BaseAgent) : AgentState := state a.

Definition isHealthy (a : BaseAgent) : bool :=
  bool_decide (state a = RUNNING) && (errorCount a <? 5).

(** hasCapability: [capabilities.includes(capability)] *)
Definition hasCapability (a : BaseAgent) (capability : string) : bool :=
  bool_decide (capability ∈ capabilities a).

(** canHandleTask *)
Definition canHandleTask (a : BaseAgent) (task : Task) : bool :=
  hasCapability a (task_type task).

(** getCurrentLoad; the quotient of 0 by 0 is NaN: [None]. A positive size
    is never divided by 0 (see the capacity test of executeTask). *)
Definition getCurrentLoad (a : BaseAgent) : option Q :=
  if maxConcurrentTasks a =? 0 then None
  else Some (inject_Z (Z.of_nat (size (currentTasks a)))
             / inject_Z (maxConcurrentTasks a))%Q.

(** executeTask *)
Definition executeTask (now : Z) (task : Task) (a : BaseAgent) : Started :=
  if negb (bool_decide (state a = RUNNING))
  then Settled (Rejects ("Agent is not in running state: "
                         +:+ stateName (state a))) a
  else if maxConcurrentTasks a <=? Z.of_nat (size (currentTasks a))
  then Settled (Rejects "Agent at maximum task capacity") a
  else if negb (canHandleTask a task)
  then Settled (Rejects ("Agent cannot handle task type: "
                         +:+ task_type task)) a
  else
    let a1 := set_currentTasks ({[task_id task]} ∪ currentTasks a) a in
    let a2 := incr_assignedTasks a1 in
    let a3 := set_lastActiveAt now a2 in
    let a4 := emit (taskStarted task) a3 in
    let startTime := now in
    Awaiting a4
      (fun later h a' =>
         let '(result, a5) :=
           match h with
           | Fulfils =>
               let result :=
                 Swarm.mkResult (task_id task) (id a') true
                                (later - startTime) in
               (result, emit (taskCompleted result) (incr_completedTasks a'))
           | Throws e =>
               let a'' := incr_errorCount a' in
               let result :=
                 Swarm.mkResult (task_id task) (id a'') false
                                (later - startTime) in
               (result, emit (taskFailed task e) a'')
           end in
         (ResolvesWith result,
          set_currentTasks (currentTasks a5 ∖ {[task_id task]}) a5)).

(** *** [BasicAgent] *)

(** The constructor's choice of capabilities. *)
Definition basicCapabilities (configured : list string) : list string :=
  if (0 <? length configured)%nat then configured
  else ["basic"; "simple-tasks"].

(** onExecuteTask of [BasicAgent]: every type other than these two throws
    (for the two, the simulated work is taken to succeed). *)
Definition basicOnExecuteTask (task : Task) : Hook :=
  if String.eqb (task_type task) "basic"
     || String.eqb (task_type task) "simple-tasks"
  then Fulfils
  else Throws ("Unsupported task type: " +:+ task_type task).

(** *** Runs of an agent *)

Inductive Call : Type :=
| Initialize
| Terminate
| Suspend
| Resume
| ExecuteTask (task : Task).

Definition call (now : Z) (c : Call) (a : BaseAgent) : Started :=
  match c with
  | Initialize => initialize a
  | Terminate => terminate a
  | Suspend => suspend a
  | Resume => resume a
  | ExecuteTask task => executeTask now task a
  end.

(** The agent and the calls that wait for their hook. *)
Definition System : Type :=
  BaseAgent * list (Z -> Hook -> BaseAgent -> Reply * BaseAgent).

Inductive Step : Type :=
| Calls (c : Call)
| HookSettles (i : nat) (h : Hook).

Definition step (now : Z) (st : Step) (sys : System) : System :=
  match st with
  | Calls c =>
      match call now c sys.1 with
      | Settled _ a => (a, sys.2)
      | Awaiting a k => (a, sys.2 ++ [k])
      end
  | HookSettles i h =>
      match sys.2 !! i with
      | Some k => ((k now h sys.1).2, delete i sys.2)
      | None => sys
      end
  end.

Definition steps (l : list (Z * Step)) (sys : System) : System :=
  foldl (fun acc (e : Z * Step) => step e.1 e.2 acc) sys l.

Definition boot (agentId : string) (caps : list string) (maxTasks : Z)
    (now : Z) : System :=
  (new agentId caps maxTasks now, []).

(** *** The agent behind a swarm node *)

(** The [agentTask] literal of directAssignTask. *)
Definition agentTask (task : Swarm.SwarmTask) : Task :=
  mkTask (Swarm.task_id task) "swarm_task".

(** What the coordinator's [await] sees of a reply. *)
Definition outcome (reply : Reply) : option Swarm.Outcome :=
  match reply with
  | ResolvesWith r => Some (Swarm.Resolved r)
  | Rejects e => Some (Swarm.Rejected e)
  | _ => None
  end.

(** *** Vocabulary of the properties *)

(** The three tests at the head of executeTask pass. *)
Definition admits (a : BaseAgent) (task : Task) : bool :=
  bool_decide (state a = RUNNING)
  && (Z.of_nat (size (currentTasks a)) <? maxConcurrentTasks a)
  && canHandleTask a task.

Definition withinCapacity (a : BaseAgent) : Prop :=
  Z.of_nat (size (currentTasks a)) <= Z.max 0 (maxConcurrentTasks a).

(** What no call and no continuation undoes. *)
Definition later_than (a a' : BaseAgent) : Prop :=
  id a' = id a ∧ capabilities a' = capabilities a
  ∧ maxConcurrentTasks a' = maxConcurrentTasks a
  ∧ errorCount a <= errorCount a'
  ∧ assignedTasks a <= assignedTasks a'
  ∧ completedTasks a <= completedTasks a'
  ∧ (initializationPromise a = true -> initializationPromise a' = true)
  ∧ (exists more, emitted a' = emitted a ++ more).

(** A running agent that takes one task at a time. *)
Definition worker : BaseAgent :=
  (steps [(1, Calls Initialize); (2, HookSettles 0 Fulfils)]
         (boot "agent-1" ["swarm_task"] 1 0)).1.

End Agent.

(** * Properties of the lifecycle manager *)

Module LifecycleProofs.
Import Lifecycle.

Lemma fireOnceTerminated_frame m :
  currentState (fireOnceTerminated m) = currentState m /\
  stateHistory (fireOnceTerminated m) = stateHistory m.
Proof.
  unfold fireOnceTerminated. simpl.
  generalize (onceTerminated m) as l. intros l. revert m.
  induction l as [|i l IH]; intros m; simpl; [done|].
  destruct (IH (clearTimeout i m)) as [-> ->]. done.
Qed.

Lemma stopCheckpointing_frame m :
  currentState (stopCheckpointing m) = currentState m /\
  stateHistory (stopCheckpointing m) = stateHistory m.
Proof. unfold stopCheckpointing. by destruct (checkpointTimer m). Qed.

Lemma executeTransition_state tr m :
  currentState (executeTransition tr m) = to tr.
Proof.
  unfold executeTransition.
  destruct (decide (to tr = TERMINATED)) as [E|E].
  - change (currentState (emit ?e ?x)) with (currentState x).
    rewrite (proj1 (stopCheckpointing_frame _)).
    rewrite (proj1 (fireOnceTerminated_frame _)).
    by destruct (decide (to tr = RUNNING)).
  - by destruct (decide (to tr = RUNNING)).
Qed.

Lemma executeTransition_history tr m :
  stateHistory (executeTransition tr m) = stateHistory m ++ [tr].
Proof.
  unfold executeTransition.
  destruct (decide (to tr = TERMINATED)) as [E|E].
  - change (stateHistory (emit ?e ?x)) with (stateHistory x).
    rewrite (proj2 (stopCheckpointing_frame _)).
    rewrite (proj2 (fireOnceTerminated_frame _)).
    by destruct (decide (to tr = RUNNING)).
  - by destruct (decide (to tr = RUNNING)).
Qed.

Lemma VALID_TRANSITIONS_allowed s : VALID_TRANSITIONS s = allowed s.
Proof. by destruct s. Qed.

(** When no subscriber throws: from every current state and for every
    target, transitionTo returns true exactly when the target is in the
    allowed set of the current state. A successful call makes the target the
    current state and appends exactly one entry (from the old state to the
    target) to the history; a failed call leaves the current state and the
    history as they were. *)
Lemma transitionTo_allowed (now : Z) (m : LifecycleManager)
    (target : AgentState) (rsn : option string)
    (md : option (gmap string MetaValue)) :
  let r := transitionTo now target rsn md m in
  (r.1 = true <-> target ∈ allowed (currentState m)) /\
  if r.1
  then currentState r.2 = target /\
       stateHistory r.2 =
         stateHistory m ++ [mkTransition (currentState m) target now rsn md]
  else currentState r.2 = currentState m /\ stateHistory r.2 = stateHistory m.
Proof.
  intros r. subst r. unfold transitionTo, canTransitionTo.
  rewrite VALID_TRANSITIONS_allowed.
  destruct (decide (target ∈ allowed (currentState m))) as [Hin|Hnin].
  - rewrite bool_decide_eq_true_2 by done. simpl.
    rewrite executeTransition_state, executeTransition_history. simpl.
    split; [tauto|done].
  - rewrite bool_decide_eq_false_2 by done. simpl.
    split; [|done]. split; [discriminate|done].
Qed.

(** ** Subscribers that throw *)

Lemma fireFirst_frame n m :
  currentState (Subscribed.fireFirst n m) = currentState m /\
  stateHistory (Subscribed.fireFirst n m) = stateHistory m.
Proof.
  unfold Subscribed.fireFirst. simpl.
  generalize (take n (onceTerminated m)) as l. intros l. revert m.
  induction l as [|i l IH]; intros m; simpl; [done|].
  destruct (IH (clearTimeout i m)) as [-> ->]. done.
Qed.

Lemma emit_frame sub e m :
  currentState (Subscribed.emit sub e m).2 = currentState m /\
  stateHistory (Subscribed.emit sub e m).2 = stateHistory m /\
  ((Subscribed.emit sub e m).1 = false <-> sub e = Subscribed.Returns).
Proof.
  unfold Subscribed.emit.
  destruct (Subscribed.namedTerminated e), (sub e) as [|n]; cbn [fst snd].
  - destruct (fireOnceTerminated_frame (emit e m)) as [-> ->]. done.
  - destruct (fireFirst_frame n (emit e m)) as [-> ->]. done.
  - done.
  - done.
Qed.

Lemma fireOnceTerminated_none m :
  onceTerminated m = [] -> fireOnceTerminated m = m.
Proof.
  unfold fireOnceTerminated. intros H. destruct m. cbn in *. by subst.
Qed.

Lemma executeTransition_subscribed sub tr m :
  let r := Subscribed.executeTransition sub tr m in
  currentState r.2 = to tr /\
  stateHistory r.2 = stateHistory m ++ [tr] /\
  (r.1 = false <->
   Forall (fun e => sub e = Subscribed.Returns)
          (Subscribed.notifications (currentState m) tr)).
Proof.
  unfold Subscribed.executeTransition, Subscribed.notifications.
  cbv zeta.
  set (m3 := if decide (to tr = RUNNING) then _ else _).
  assert (H3 : currentState m3 = to tr /\
               stateHistory m3 = stateHistory m ++ [tr]).
  { unfold m3. by destruct (decide (to tr = RUNNING)). }
  destruct H3 as [Hs Hh].
  set (e1 := EvStateChanged (to tr) (currentState m) tr).
  destruct (emit_frame sub e1 m3) as (Hs1 & Hh1 & Ht1).
  destruct (Subscribed.emit sub e1 m3) as [t1 m4]. cbn [fst snd] in *.
  destruct t1.
  { cbn [fst snd]. rewrite Hs1, Hh1. split; [done|]. split; [done|].
    split; [done|]. intros H. apply Forall_cons in H as [H _].
    by apply Ht1 in H. }
  set (e2 := EvState (to tr) tr).
  destruct (emit_frame sub e2 m4) as (Hs2 & Hh2 & Ht2).
  destruct (Subscribed.emit sub e2 m4) as [t2 m5]. cbn [fst snd] in *.
  assert (E1 : sub e1 = Subscribed.Returns) by by apply Ht1.
  destruct t2.
  { cbn [fst snd]. rewrite Hs2, Hh2, Hs1, Hh1. split; [done|]. split; [done|].
    split; [done|]. intros H. apply Forall_cons in H as [_ H].
    apply Forall_cons in H as [H _]. by apply Ht2 in H. }
  assert (E2 : sub e2 = Subscribed.Returns) by by apply Ht2.
  destruct (decide (to tr = TERMINATED)) as [Et|Et].
  - set (e3 := EvTerminated tr).
    destruct (emit_frame sub e3 (stopCheckpointing m5)) as (Hs3 & Hh3 & Ht3).
    destruct (stopCheckpointing_frame m5) as [Hs4 Hh4].
    rewrite Hs3, Hh3, Hs4, Hh4, Hs2, Hh2, Hs1, Hh1.
    split; [done|]. split; [done|]. rewrite Ht3. split.
    + intros E3. by repeat constructor.
    + intros H. apply Forall_cons in H as [_ H].
      apply Forall_cons in H as [_ H]. by apply Forall_cons in H as [H _].
  - cbn [fst snd]. rewrite Hs2, Hh2, Hs1, Hh1.
    split; [done|]. split; [done|]. split; [|done].
    intros _. by repeat constructor.
Qed.

(** When no listener throws, the manager is left as [Lifecycle] has it. *)
Lemma executeTransition_quiet tr m :
  Subscribed.executeTransition Subscribed.quiet tr m
  = (false, executeTransition tr m).
Proof.
  unfold Subscribed.executeTransition, executeTransition, Subscribed.emit,
    Subscribed.quiet.
  cbn [Subscribed.namedTerminated].
  destruct (decide (to tr = TERMINATED)) as [Et|Et]; [|by destruct (to tr)].
  rewrite Et. cbn [Subscribed.namedTerminated].
  f_equal. apply fireOnceTerminated_none.
  unfold stopCheckpointing, fireOnceTerminated.
  by destruct (checkpointTimer _).
Qed.

Lemma transitionTo_quiet now target rsn md m :
  Subscribed.transitionTo Subscribed.quiet now target rsn md m
  = (Subscribed.Fulfilled (transitionTo now target rsn md m).1,
     (transitionTo now target rsn md m).2).
Proof.
  unfold Subscribed.transitionTo, transitionTo.
  destruct (negb (canTransitionTo m target)); [done|].
  cbv zeta. by rewrite executeTransition_quiet.
Qed.

(** C1, as amended. From every current state and for every target,
    transitionTo returns true exactly when the target is in the allowed set
    of the current state and no subscriber throws from the notifications of
    the transition. A successful call makes the target the current state and
    appends exactly one entry (from the old state to the target) to the
    history; a call whose target is not allowed does not return true and
    leaves the current state and the history as they were. When no
    subscriber throws at all, transitionTo returns true exactly for the
    allowed targets, and a call that returns false has changed neither the
    state nor the history. The last part records what the call does for an
    allowed target when a subscriber throws: the new state and the new entry
    are in place, and the call returns false, or rejects when a
    'transitionError' subscriber throws as well. *)
Theorem transitionTo_subscribers (sub : Subscribed.Subscribers) (now : Z)
    (m : LifecycleManager) (target : AgentState) (rsn : option string)
    (md : option (gmap string MetaValue)) :
  let r := Subscribed.transitionTo sub now target rsn md m in
  let tr := mkTransition (currentState m) target now rsn md in
  (r.1 = Subscribed.Fulfilled true <->
   target ∈ allowed (currentState m) /\
   Forall (fun e => sub e = Subscribed.Returns)
          (Subscribed.notifications (currentState m) tr)) /\
  (r.1 = Subscribed.Fulfilled true ->
   currentState r.2 = target /\ stateHistory r.2 = stateHistory m ++ [tr]) /\
  (target ∉ allowed (currentState m) ->
   currentState r.2 = currentState m /\ stateHistory r.2 = stateHistory m /\
   (r.1 = Subscribed.Fulfilled false <->
    sub (EvTransitionError (currentState m) target) = Subscribed.Returns)) /\
  ((forall e, sub e = Subscribed.Returns) ->
   (r.1 = Subscribed.Fulfilled true <-> target ∈ allowed (currentState m)) /\
   (r.1 = Subscribed.Fulfilled false ->
    currentState r.2 = currentState m /\ stateHistory r.2 = stateHistory m) /\
   r.1 ≠ Subscribed.Rejected) /\
  (target ∈ allowed (currentState m) ->
   currentState r.2 = target /\
   stateHistory r.2 = stateHistory m ++ [tr] /\
   (r.1 = Subscribed.Fulfilled false <->
    Exists (fun e => sub e ≠ Subscribed.Returns)
           (Subscribed.notifications (currentState m) tr) /\
    sub (EvTransitionFailed tr) = Subscribed.Returns)).
Proof.
  intros r tr.
  assert (Hout : target ∉ allowed (currentState m) ->
     r.1 ≠ Subscribed.Fulfilled true /\
     (r.1 = Subscribed.Fulfilled false <->
      sub (EvTransitionError (currentState m) target) = Subscribed.Returns) /\
     currentState r.2 = currentState m /\ stateHistory r.2 = stateHistory m).
  { intros Hnin. unfold r, Subscribed.transitionTo, canTransitionTo.
    rewrite VALID_TRANSITIONS_allowed, bool_decide_eq_false_2 by done.
    cbn [negb].
    destruct (emit_frame sub (EvTransitionError (currentState m) target) m)
      as (Hs & Hh & Ht).
    destruct (Subscribed.emit sub _ m) as [t m1]. cbn [fst snd] in *.
    split; [by destruct t|]. split; [|done]. rewrite <- Ht.
    by destruct t. }
  assert (Hin : target ∈ allowed (currentState m) ->
     currentState r.2 = target /\
     stateHistory r.2 = stateHistory m ++ [tr] /\
     (r.1 = Subscribed.Fulfilled true <->
      Forall (fun e => sub e = Subscribed.Returns)
             (Subscribed.notifications (currentState m) tr)) /\
     (r.1 = Subscribed.Fulfilled false <->
      Exists (fun e => sub e ≠ Subscribed.Returns)
             (Subscribed.notifications (currentState m) tr) /\
      sub (EvTransitionFailed tr) = Subscribed.Returns)).
  { intros Hin. unfold r, Subscribed.transitionTo, canTransitionTo.
    rewrite VALID_TRANSITIONS_allowed, bool_decide_eq_true_2 by done.
    cbn [negb]. cbv zeta. fold tr.
    destruct (executeTransition_subscribed sub tr m) as (Hs & Hh & Ht).
    cbn [to] in Hs.
    destruct (Subscribed.executeTransition sub tr m) as [t m1].
    cbn [fst snd] in *.
    destruct t.
    - destruct (emit_frame sub (EvTransitionFailed tr) m1) as (Hs' & Hh' & Ht').
      destruct (Subscribed.emit sub _ m1) as [t' m2]. cbn [fst snd] in *.
      rewrite Hs', Hh'. split; [done|]. split; [done|].
      assert (Hex : Exists (fun e => sub e ≠ Subscribed.Returns)
                           (Subscribed.notifications (currentState m) tr)).
      { apply not_Forall_Exists; [intros e; apply _|].
        intros HF. apply Ht in HF. discriminate HF. }
      split.
      + split; [by destruct t'|]. intros HF. apply Ht in HF. discriminate HF.
      + rewrite <- Ht'. split.
        * intros E. split; [done|]. by destruct t'.
        * intros [_ ->]. done.
    - split; [done|]. split; [done|].
      assert (HF : Forall (fun e => sub e = Subscribed.Returns)
                          (Subscribed.notifications (currentState m) tr))
        by by apply Ht.
      split; [done|]. split; [discriminate|].
      intros [Hex _]. apply Exists_exists in Hex as (e & He & Hne).
      rewrite Forall_forall in HF. exfalso. by apply Hne, HF. }
  destruct (decide (target ∈ allowed (currentState m))) as [Ha|Ha].
  - destruct (Hin Ha) as (Hs & Hh & Ht & Hf).
    split; [rewrite Ht; tauto|]. split; [done|]. split; [done|].
    split; [|done].
    intros Hq.
    assert (E : r.1 = Subscribed.Fulfilled true).
    { apply Ht. apply Forall_forall. intros e _. apply Hq. }
    rewrite E. split; [done|]. split; discriminate.
  - destruct (Hout Ha) as (Hn & Hf & Hs & Hh).
    split; [split; [done|tauto]|]. split; [done|]. split; [done|].
    split; [|done].
    intros Hq. split; [split; done|]. split; [done|].
    assert (E : r.1 = Subscribed.Fulfilled false) by apply Hf, Hq.
    rewrite E. discriminate.
Qed.

(** C1, as stated, fails: with a subscriber to 'stateChanged' that throws,
    transitionTo(INITIALIZING) on a new manager returns false although
    INITIALIZING is an allowed target of CREATED, and the failed call has
    changed the current state and appended an entry to the history. *)
Lemma failed_transition_changes_state :
  let m := new noOverrides in
  let r := Subscribed.transitionTo Subscribed.failingObserver 1 INITIALIZING
             None None m in
  INITIALIZING ∈ allowed (currentState m) /\
  r.1 = Subscribed.Fulfilled false /\
  currentState m = CREATED /\ currentState r.2 = INITIALIZING /\
  stateHistory m = [] /\
  stateHistory r.2 = [mkTransition CREATED INITIALIZING 1 None None] /\
  emitted r.2
  = [EvStateChanged INITIALIZING CREATED
       (mkTransition CREATED INITIALIZING 1 None None);
     EvTransitionFailed (mkTransition CREATED INITIALIZING 1 None None)].
Proof.
  cbv zeta. split; [vm_compute; left|]. vm_compute. done.
Qed.

(** C9, at a failing input. [restoreFromCheckpoint()] called without an
    argument on a manager whose history holds the entries stamped 1, 2, 3
    leaves a history stamped 3, 2, 1, 4: getLastCheckpoint reverses the
    stored array in place before it searches it, so the old history is not a
    prefix of the new one. *)
Theorem restoreFromCheckpoint_reverses_history :
  let before := stateHistory checkpointed in
  let after := stateHistory (restoreFromCheckpoint 4 None checkpointed).2 in
  timestamp <$> before = [1; 2; 3] /\
  timestamp <$> after = [3; 2; 1; 4] /\
  ¬ before `prefix_of` after.
Proof.
  split; [by vm_compute|]. split; [by vm_compute|].
  intros [k Hk]. apply (f_equal (fmap timestamp)) in Hk.
  rewrite fmap_app in Hk.
  vm_compute in Hk. discriminate.
Qed.

Lemma canTransitionTo_CREATED m : canTransitionTo m CREATED = false.
Proof. unfold canTransitionTo. by destruct (currentState m). Qed.

Lemma transitionTo_cases now target rsn md m :
  (canTransitionTo m target = false /\
   transitionTo now target rsn md m =
     (false, emit (EvTransitionError (currentState m) target) m)) \/
  (canTransitionTo m target = true /\
   transitionTo now target rsn md m =
     (true, executeTransition
              (mkTransition (currentState m) target now rsn md) m)).
Proof.
  unfold transitionTo. destruct (canTransitionTo m target); simpl; auto.
Qed.

Lemma transitionTo_noCreated now target rsn md m :
  noCreated m -> noCreated (transitionTo now target rsn md m).2.
Proof.
  unfold noCreated. intros H.
  destruct (transitionTo_cases now target rsn md m) as [[_ ->]|[Hc ->]];
    [done|]. simpl.
  rewrite executeTransition_history.
  apply Forall_app. split; [done|]. constructor; [|done]. simpl.
  intros ->. by rewrite canTransitionTo_CREATED in Hc.
Qed.

Lemma forceTransitionTo_noCreated now target rsn md m :
  target ≠ CREATED -> noCreated m -> noCreated (forceTransitionTo now target rsn md m).
Proof.
  unfold noCreated, forceTransitionTo. intros Hne H.
  rewrite executeTransition_history.
  apply Forall_app. split; [done|]. by constructor.
Qed.

Lemma createCheckpoint_noCreated now m :
  currentState m ≠ CREATED -> noCreated m -> noCreated (createCheckpoint now m).2.
Proof.
  unfold noCreated, createCheckpoint. simpl. intros Hne H.
  apply Forall_app. split; [done|]. by constructor.
Qed.

Lemma exec_noCreated now op m :
  forcesCreated op m = false -> checkpointsCreated op m = false ->
  noCreated m -> noCreated (exec now op m).
Proof.
  intros Hf Hc Hinv. destruct op; cbn [exec forcesCreated checkpointsCreated] in *; try done.
  - by apply transitionTo_noCreated.
  - apply forceTransitionTo_noCreated; [|done]. by apply bool_decide_eq_false in Hf.
  - unfold handleError.
    match goal with |- context [if ?b then _ else _] => destruct b end.
    + unfold setTimeout; simpl.
      by apply (transitionTo_noCreated now ERROR _ _ (set_retryCount (retryCount m + 1) m)).
    + by apply (transitionTo_noCreated now ERROR _ _ (set_retryCount (retryCount m + 1) m)).
  - unfold gracefulShutdown.
    match goal with |- context [if ?b then _ else _] => destruct b end; [done|].
    unfold setTimeout; simpl. by apply transitionTo_noCreated.
  - apply createCheckpoint_noCreated; [|done]. by apply bool_decide_eq_false in Hc.
  - unfold restoreFromCheckpoint. destruct checkpoint as [cp|].
    + apply bool_decide_eq_false in Hf.
      by apply (forceTransitionTo_noCreated now (to cp)).
    + unfold getLastCheckpoint in *. simpl in *.
      assert (Hrev : Forall (fun t => to t ≠ CREATED) (rev (stateHistory m))).
      { unfold noCreated in Hinv. apply Forall_forall. intros x Hx. rewrite Forall_forall in Hinv.
        apply Hinv. apply list_elem_of_In, in_rev, list_elem_of_In. done. }
      destruct (List.find isCheckpoint (rev (stateHistory m))) as [cp|] eqn:E.
      * apply bool_decide_eq_false in Hf.
        by apply (forceTransitionTo_noCreated now (to cp)).
      * done.
  - unfold destroy, stopCheckpointing. by destruct (checkpointTimer m).
  - unfold fireTimer. destruct (List.find _ (timers m)) as [t|]; [|done].
    destruct (timerKind t).
    + by apply transitionTo_noCreated.
    + by apply forceTransitionTo_noCreated.
  - unfold checkpointTick. destruct (checkpointTimer m); [|done].
    case_bool_decide as E; [|done].
    apply createCheckpoint_noCreated; [|done]. by rewrite E.
Qed.

Lemma run_noCreated ops m :
  never forcesCreated ops m = true -> never checkpointsCreated ops m = true ->
  noCreated m -> noCreated (run ops m).
Proof.
  revert m. induction ops as [|[now op] ops IH]; intros m Hf Hc Hinv; [done|].
  simpl in *. apply andb_true_iff in Hf as [Hf1 Hf2].
  apply andb_true_iff in Hc as [Hc1 Hc2].
  apply negb_true_iff in Hf1, Hc1.
  apply IH; [done|done|]. by apply exec_noCreated.
Qed.

Lemma noCreated_uptime now m : noCreated m -> getUptime now m = 0.
Proof.
  unfold noCreated, getUptime. intros H.
  destruct (List.find _ (stateHistory m)) as [t|] eqn:E; [|done].
  apply find_some in E as [Hin Hto]. apply bool_decide_eq_true in Hto.
  rewrite Forall_forall in H. apply list_elem_of_In in Hin. by apply H in Hin.
Qed.

Lemma new_noCreated p : noCreated (new p).
Proof. unfold new, startCheckpointing, noCreated. destruct (_ <? _); constructor. Qed.

Lemma transitionTo_appends now target rsn md m :
  stateHistory m `prefix_of` stateHistory (transitionTo now target rsn md m).2.
Proof.
  destruct (transitionTo_cases now target rsn md m) as [[_ ->]|[_ ->]]; simpl.
  - done.
  - rewrite executeTransition_history. by apply prefix_app_r.
Qed.

Lemma forceTransitionTo_appends now target rsn md m :
  stateHistory m `prefix_of` stateHistory (forceTransitionTo now target rsn md m).
Proof.
  unfold forceTransitionTo. rewrite executeTransition_history.
  by apply prefix_app_r.
Qed.

(** Every operation but the argument-less restoreFromCheckpoint only appends
    to the history. *)
Lemma exec_appends now op m :
  op ≠ OpRestoreFromCheckpoint None ->
  stateHistory m `prefix_of` stateHistory (exec now op m).
Proof.
  intros Hop. destruct op; cbn [exec]; try done.
  - apply transitionTo_appends.
  - apply forceTransitionTo_appends.
  - unfold handleError.
    match goal with |- context [if ?b then _ else _] => destruct b end.
    + unfold setTimeout; simpl.
      apply (transitionTo_appends now ERROR _ _
               (set_retryCount (retryCount m + 1) m)).
    + apply (transitionTo_appends now ERROR _ _
               (set_retryCount (retryCount m + 1) m)).
  - unfold gracefulShutdown.
    match goal with |- context [if ?b then _ else _] => destruct b end; [done|].
    unfold setTimeout; simpl. apply transitionTo_appends.
  - unfold createCheckpoint. simpl. by apply prefix_app_r.
  - destruct checkpoint as [cp|]; [|done].
    unfold restoreFromCheckpoint. simpl.
    apply (forceTransitionTo_appends now (to cp)).
  - unfold destroy, stopCheckpointing. by destruct (checkpointTimer m).
  - unfold fireTimer. destruct (List.find _ (timers m)) as [t|]; [|done].
    destruct (timerKind t).
    + apply (transitionTo_appends now INITIALIZING _ _ (clearTimeout id m)).
    + apply (forceTransitionTo_appends now TERMINATED _ _ (clearTimeout id m)).
  - unfold checkpointTick. destruct (checkpointTimer m); [|done].
    case_bool_decide; [|done]. unfold createCheckpoint. simpl.
    by apply prefix_app_r.
Qed.

(** C10, as amended. In every run of a fresh manager in which
    forceTransitionTo is never called with target CREATED (neither directly
    nor by restoreFromCheckpoint) and createCheckpoint is never called while
    the current state is CREATED, no history entry has CREATED as its target,
    and getUptime() and getStatistics().uptime return 0. *)
Theorem uptime_zero (p : PartialPolicy) (ops : list (Z * Op)) (now : Z) :
  never forcesCreated ops (new p) = true ->
  never checkpointsCreated ops (new p) = true ->
  Forall (fun t => to t ≠ CREATED) (stateHistory (run ops (new p))) /\
  getUptime now (run ops (new p)) = 0 /\
  st_uptime (getStatistics now (run ops (new p))) = 0.
Proof.
  intros Hf Hc.
  pose proof (run_noCreated ops (new p) Hf Hc (new_noCreated p)) as H.
  split; [exact H|]. split; by apply noCreated_uptime.
Qed.

Lemma uptime_zero_witness :
  never forcesCreated quiet_ops (new noOverrides) = true /\
  never checkpointsCreated quiet_ops (new noOverrides) = true /\
  getUptime 9 (run quiet_ops (new noOverrides)) = 0.
Proof.
  assert (H1 : never forcesCreated quiet_ops (new noOverrides) = true)
    by (vm_compute; reflexivity).
  assert (H2 : never checkpointsCreated quiet_ops (new noOverrides) = true)
    by (vm_compute; reflexivity).
  split; [exact H1|]. split; [exact H2|].
  exact (proj1 (proj2 (uptime_zero noOverrides quiet_ops 9 H1 H2))).
Defined.

(** C10, as stated, fails: a checkpoint taken in the initial state records
    an entry whose target is CREATED, although forceTransitionTo is never
    called, and the uptime read three milliseconds later is 3. *)
Lemma uptime_nonzero_after_early_checkpoint :
  never forcesCreated early_checkpoint (new noOverrides) = true /\
  getUptime 5 (run early_checkpoint (new noOverrides)) = 3 /\
  st_uptime (getStatistics 5 (run early_checkpoint (new noOverrides))) = 3 /\
  getUptime 5 (run early_checkpoint (new noOverrides)) ≠ 0.
Proof. by vm_compute. Qed.

End LifecycleProofs.

(** * Properties of the swarm coordinator *)

Module SwarmProofs.
Import Swarm.

(** ** Running the monad *)

Lemma run_get {A} (f : SwarmCoordinator -> Async A) w :
  (get ≫= f) w = f w w.
Proof. reflexivity. Qed.

Lemma run_modify {A} g (k : Async A) w : (modify g;; k) w = k (g w).
Proof. reflexivity. Qed.

(** ** Reasoning about segments *)

Section Obeys.
Variable seg : Segment.
Variables touched splittable : nat -> Prop.
Hypothesis laws : SegmentLaws seg touched splittable.

Let seg_refl := law_refl _ _ _ laws.
Let seg_then := law_then _ _ _ laws.
Let seg_after := law_after _ _ _ laws.
Let H_same := law_same _ _ _ laws.
Let H_task := law_task _ _ _ laws.
Let H_nodeAssigned := law_nodeAssigned _ _ _ laws.
Let H_succeeded := law_nodeSucceeded _ _ _ laws.
Let H_failed := law_nodeFailed _ _ _ laws.
Let H_subtasks := law_subtasks _ _ _ laws.
Let H_allocTask := law_allocTask _ _ _ laws.
Let H_register := law_register _ _ _ laws.
Let H_unregister := law_unregister _ _ _ laws.
Let H_lastSeen := law_lastSeen _ _ _ laws.

Lemma seg_weaken x a b : seg None a b -> seg x a b.
Proof. intros H. eapply seg_after; [exact H|apply seg_refl]. Qed.

Lemma obeys_weaken {A} x w (r : Res A) : obeys seg None w r -> obeys seg x w r.
Proof. destruct r; simpl; [apply seg_weaken|]. intros [H1 H2]. split; [by apply seg_weaken|done]. Qed.

Lemma obeys_post {A} x w0 w (r : Res A) :
  seg x w0 w -> obeys seg None w r -> obeys seg x w0 r.
Proof.
  destruct r; simpl.
  - intros. eapply seg_then; eauto.
  - intros H [H1 H2]. split; [eapply seg_then; eauto|done].
Qed.

Lemma obeys_bindRes {A B} x w0 (r : Res A) (f : A -> Async B) :
  obeys seg x w0 r -> (forall a, lawful seg None (f a)) ->
  obeys seg x w0 (bindRes r f).
Proof.
  intros Hr Hf. revert x w0 Hr.
  induction r as [a w|w n t k IH]; intros x w0 Hr; simpl in *.
  - eapply obeys_post; [exact Hr|apply Hf].
  - destruct Hr as [H1 H2]. split; [done|]. intros o w1. apply IH, H2.
Qed.

Lemma obeys_pre {A} x w0 w (r : Res A) :
  seg None w0 w -> obeys seg x w r -> obeys seg x w0 r.
Proof.
  destruct r; simpl.
  - intros. eapply seg_after; eauto.
  - intros H [H1 H2]. split; [eapply seg_after; eauto|done].
Qed.

Lemma lawful_bind {A B} x (m : Async A) (f : A -> Async B) :
  lawful seg x m -> (forall a, lawful seg None (f a)) -> lawful seg x (m ≫= f).
Proof. intros Hm Hf w. by apply obeys_bindRes. Qed.

Lemma lawful_ret {A} x (a : A) : lawful seg x (mret a).
Proof. intros w. apply seg_refl. Qed.

Lemma lawful_skip x : lawful seg x skip.
Proof. intros w. apply seg_refl. Qed.

Lemma lawful_get {A} x (f : SwarmCoordinator -> Async A) :
  (forall w, lawful seg x (f w)) -> lawful seg x (get ≫= f).
Proof. intros H w. apply (H w w). Qed.

(** a synchronous update, then the rest of the segment *)
Lemma lawful_modify {A} x (g : SwarmCoordinator -> SwarmCoordinator) (k : Async A) :
  (forall w, seg None w (g w)) -> lawful seg x k -> lawful seg x (modify g;; k).
Proof.
  intros Hg Hk w. change (obeys seg x w (k (g w))).
  eapply obeys_pre; [apply Hg|apply Hk].
Qed.

(** the update that reacts to the outcome, then the rest *)
Lemma lawful_react {A} x (g : SwarmCoordinator -> SwarmCoordinator) (k : Async A) :
  (forall w, seg x w (g w)) -> lawful seg None k -> lawful seg x (modify g;; k).
Proof.
  intros Hg Hk w. change (obeys seg x w (k (g w))).
  eapply obeys_post; [apply Hg|apply Hk].
Qed.

Lemma lawful_modify_end x (g : SwarmCoordinator -> SwarmCoordinator) :
  (forall w, seg None w (g w)) -> lawful seg x (modify g).
Proof. intros Hg w. simpl. apply seg_weaken, Hg. Qed.

Lemma lawful_await {A} x n t (f : Outcome -> Async A) :
  (forall o, lawful seg (Some o) (f o)) -> lawful seg x (await_executeTask n t ≫= f).
Proof.
  intros H w.
  change (seg x w w /\ forall o w1, obeys seg (Some o) w1 (f o w1)).
  split; [apply seg_refl|]. intros o w1. apply H.
Qed.

Lemma lawful_forEach {X} (l : list X) (body : X -> Async unit) :
  (forall x, lawful seg None (body x)) -> lawful seg None (forEach l body).
Proof.
  intros H. induction l as [|a l IH]; simpl.
  - apply lawful_skip.
  - apply lawful_bind; [apply H|]. intros _. apply IH.
Qed.


Lemma lawful_forEach_in {X} (l : list X) (body : X -> Async unit) :
  (forall x, x ∈ l -> lawful seg None (body x)) -> lawful seg None (forEach l body).
Proof.
  intros H. induction l as [|a l IH]; simpl.
  - apply lawful_skip.
  - apply lawful_bind; [apply H; left|]. intros _. apply IH.
    intros x Hx. apply H. by right.
Qed.

Hypothesis all_touched : forall t, touched t.
Hypothesis all_splittable : forall t, splittable t.

Ltac prim :=
  first
    [ apply H_nodeAssigned
    | apply H_subtasks; apply all_splittable
    | apply H_allocTask
    | apply H_unregister
    | apply H_lastSeen
    | apply H_task; [first [assumption | apply all_touched] | by intros []]
    | apply H_same; split; [|split]; reflexivity ].

Ltac lawful_step :=
  lazymatch goal with
  | |- lawful _ _ (get ≫= _) => apply lawful_get; intros ?
  | |- lawful _ _ skip => apply lawful_skip
  | |- lawful _ _ (mret _) => apply lawful_ret
  | |- lawful _ _ (await_executeTask _ _ ≫= _) => apply lawful_await; intros ?
  | |- lawful _ _ (modify _ ≫= _) =>
      first [ apply lawful_modify; [intros ?; prim|]
            | apply lawful_react;
              [intros ?; first [apply H_succeeded | apply H_failed]|] ]
  | |- lawful _ _ (modify _) => apply lawful_modify_end; intros ?; prim
  | |- lawful _ _ (match ?e with _ => _ end) => destruct e
  | |- lawful _ _ (if ?e then _ else _) => destruct e
  end.

Lemma lawful_directAssignTask t n :
  touched t -> lawful seg None (directAssignTask t n).
Proof. intros Ht. unfold directAssignTask. repeat lawful_step. Qed.

Lemma lawful_retryTask t :
  touched t -> lawful seg None (retryTask t).
Proof.
  intros Ht. unfold retryTask. repeat lawful_step.
  by apply lawful_directAssignTask.
Qed.

Lemma lawful_assignTaskWithConsensus t c :
  lawful seg None (assignTaskWithConsensus t c).
Proof. unfold assignTaskWithConsensus. repeat lawful_step. Qed.

Lemma lawful_assignTask t :
  touched t -> lawful seg None (assignTask t).
Proof.
  intros Ht. unfold assignTask. repeat lawful_step.
  - apply lawful_assignTaskWithConsensus.
  - by apply lawful_directAssignTask.
Qed.



Lemma lawful_resolveConsensus proposalId :
  lawful seg None (resolveConsensus proposalId).
Proof.
  unfold resolveConsensus. repeat lawful_step.
  all: try (apply lawful_bind; [|intros; repeat lawful_step]).
  all: repeat lawful_step.
  all: by apply lawful_directAssignTask.
Qed.

Lemma obeys_reassignNodeTasks nodeId w :
  (forall t, t ∈ nodeTasks nodeId w -> touched t) ->
  obeys seg None w (reassignNodeTasks nodeId w).
Proof.
  intros Ht. unfold reassignNodeTasks.
  change (obeys seg None w
            (forEach (nodeTasks nodeId w) (fun t =>
               modify (updateTask t (resetForReassign nodeId));;
               assignTask t) w)).
  apply lawful_forEach_in. intros t Hin. specialize (Ht t Hin).
  lawful_step. by apply lawful_assignTask.
Qed.

Lemma lawful_removeNode nodeId : lawful seg None (removeNode nodeId).
Proof. unfold removeNode. repeat lawful_step. Qed.

Lemma obeys_unregisterNode nodeId w :
  (forall t, t ∈ nodeTasks nodeId w -> touched t) ->
  obeys seg None w (unregisterNode nodeId w).
Proof.
  intros Ht. unfold unregisterNode.
  change (obeys seg None w
            (match map_get nodeId (nodes w) with
             | Some _ => reassignNodeTasks nodeId;; removeNode nodeId
             | None => skip
             end w)).
  destruct (map_get nodeId (nodes w)); [|apply seg_refl].
  apply obeys_bindRes; [by apply obeys_reassignNodeTasks|].
  intros _. apply lawful_removeNode.
Qed.

Lemma lawful_reassignNodeTasks nodeId :
  lawful seg None (reassignNodeTasks nodeId).
Proof. intros w. apply obeys_reassignNodeTasks. intros; apply all_touched. Qed.

Lemma lawful_unregisterNode nodeId :
  lawful seg None (unregisterNode nodeId).
Proof. intros w. apply obeys_unregisterNode. intros; apply all_touched. Qed.

Lemma lawful_registerNode a caps : lawful seg None (registerNode a caps).
Proof.
  intros w. unfold registerNode. rewrite run_get. cbv zeta.
  rewrite !run_modify.
  change (seg None w
            (on_listeners (fun ls => ls ++ [a])
               (emit (nodeRegistered (length (nodeObjects w)))
                  (updateMetrics
                     (set_totalNodes
                        (on_nodes (map_set a (length (nodeObjects w)))
                           (on_nodeObjects
                              (fun ns =>
                                 ns ++ [mkNode a a caps 0 100 (clock w)])
                              w))))))).
  eapply seg_then; [apply H_register|].
  apply H_same; repeat split.
Qed.

Lemma lawful_onAgentStateChanged nodeId a st :
  lawful seg None (onAgentStateChanged nodeId a st).
Proof.
  unfold onAgentStateChanged, handleAgentStateChange. repeat lawful_step.
  apply lawful_reassignNodeTasks.
Qed.

Lemma lawful_decomposeTask t : lawful seg None (decomposeTask t).
Proof.
  unfold decomposeTask. repeat lawful_step.
  - apply lawful_forEach. intros e. lawful_step. by apply lawful_assignTask.
  - by apply lawful_assignTask.
Qed.

Lemma lawful_submitTask spec : lawful seg None (submitTask spec;; skip).
Proof.
  unfold submitTask. apply lawful_bind; [|intros; apply lawful_skip].
  repeat lawful_step.
  apply lawful_bind; [|intros; apply lawful_ret].
  lawful_step.
  - apply lawful_decomposeTask.
  - by apply lawful_assignTask.
Qed.

Lemma castVote_same p w e : sameObjects w (castVote p w e).
Proof.
  unfold castVote. destruct (nodeObjects w !! e.2); [|done].
  by destruct (_ && _).
Qed.

Lemma sameObjects_trans a b c :
  sameObjects a b -> sameObjects b c -> sameObjects a c.
Proof.
  intros (H1 & H2 & H3) (H4 & H5 & H6). repeat split; congruence.
Qed.

Lemma simulateVoting_same p w : sameObjects w (simulateVoting p w).
Proof.
  unfold simulateVoting. generalize (nodes w) as l. intros l. revert w.
  induction l as [|e l IH]; intros w; simpl; [done|].
  eapply sameObjects_trans; [apply castVote_same|apply IH].
Qed.

Lemma lawful_runCallback cb : lawful seg None (runCallback cb).
Proof.
  destruct cb; simpl.
  - apply lawful_modify_end. intros w. apply H_same, simulateVoting_same.
  - apply lawful_resolveConsensus.
  - by apply lawful_retryTask.
Qed.

Lemma checkNodeHealth_same w : sameObjects w (checkNodeHealth w).
Proof.
  unfold checkNodeHealth. generalize (nodes w) as l. intros l. revert w.
  induction l as [|e l IH]; intros w; simpl; [done|].
  eapply sameObjects_trans; [|apply IH].
  destruct (nodeObjects w !! e.2); [|done]. by destruct (_ <? _).
Qed.

Lemma heartbeat_seg w : seg None w (heartbeat w).
Proof.
  unfold heartbeat. destruct (heartbeatInterval w); [|apply seg_refl].
  apply H_same. eapply sameObjects_trans; [apply checkNodeHealth_same|done].
Qed.

Lemma shutdown_seg w : seg None w (shutdown w).
Proof.
  unfold shutdown.
  set (w1 := if heartbeatInterval w then _ else _).
  assert (H1 : seg None w w1).
  { subst w1. destruct (heartbeatInterval w); [|apply seg_refl].
    apply H_same; repeat split. }
  generalize ((List.filter (fun e : nat * SwarmTask =>
                 bool_decide (status e.2 = Executing)) (taskEntries w1)).*1).
  intros l. revert H1. generalize w1. clear w1.
  induction l as [|t l IH]; intros w1 H1; simpl.
  - eapply seg_then; [exact H1|]. (apply H_same; repeat split).
  - apply IH. eapply seg_then; [exact H1|].
    apply (seg_then _ _ (updateTask t (set_status Failed) w1)).
    + apply H_task; [apply all_touched|by intros []].
    + apply H_same; repeat split.
Qed.

Lemma settle_obeys x w0 (r : Res unit) pool :
  obeys seg x w0 r -> poolLawful seg pool ->
  seg x w0 (settle r pool).1 /\ poolLawful seg (settle r pool).2.
Proof.
  destruct r as [[] w|w n t k]; simpl; [done|].
  intros [H1 H2] Hp. split; [done|].
  apply Forall_app. split; [done|]. constructor; [|constructor].
  intros o w1. apply H2.
Qed.

Lemma step_obeys now st sys :
  poolLawful seg sys.2 ->
  seg (settled st) sys.1 (step now st sys).1 /\
  poolLawful seg (step now st sys).2.
Proof.
  destruct sys as [w pool]. intros Hp.
  change (poolLawful seg pool) in Hp.
  assert (Hc : seg None w (set_clock now w))
    by (apply H_same; repeat split).
  assert (Hgo : forall (m : Async unit) x,
             lawful seg x m ->
             seg x w (settle (m (set_clock now w)) pool).1 /\
             poolLawful seg (settle (m (set_clock now w)) pool).2).
  { intros m x Hm. apply settle_obeys; [|done].
    eapply obeys_pre; [exact Hc|apply Hm]. }
  unfold step. cbn [fst snd].
  destruct st; cbn [settled].
  - apply (Hgo (registerNode agentId caps)), lawful_registerNode.
  - apply (Hgo (unregisterNode nodeId)), lawful_unregisterNode.
  - apply (Hgo (submitTask task;; skip)), lawful_submitTask.
  - split; [|done]. cbn [fst]. eapply seg_then; [exact Hc|apply shutdown_seg].
  - change (listeners (set_clock now w)) with (listeners w).
    destruct (listeners w !! listener) as [nodeId|].
    + apply (Hgo (onAgentStateChanged nodeId agentId state)),
        lawful_onAgentStateChanged.
    + done.
  - change (timers (set_clock now w)) with (timers w).
    destruct (timers w !! i) as [timer|]; [|done].
    apply (Hgo (fun w' => runCallback (callback timer)
                            (on_timers (delete i) w'))).
    intros w'. eapply obeys_pre; [|apply lawful_runCallback].
    apply H_same; repeat split.
  - split; [|done]. cbn [fst]. eapply seg_then; [exact Hc|apply heartbeat_seg].
  - destruct (pool !! i) as [s|] eqn:E.
    + assert (Hs : forall o, lawful seg (Some o) (resume s o)).
      { unfold poolLawful in Hp. rewrite Forall_forall in Hp. apply Hp.
        by eapply list_elem_of_lookup_2. }
      destruct (settle_obeys (Some o) w (resume s o (set_clock now w))
                  (delete i pool)) as [H1 H2].
      * eapply obeys_pre; [exact Hc|apply Hs].
      * unfold poolLawful in *. by apply Forall_delete.
      * done.
    + split; [by apply seg_weaken|done].
Qed.

Lemma steps_pool l sys :
  poolLawful seg sys.2 -> poolLawful seg (steps l sys).2.
Proof.
  revert sys. induction l as [|[now st] l IH]; intros sys Hp; [done|].
  simpl. apply IH. by apply step_obeys.
Qed.

End Obeys.

(** ** Bounds and reputation *)

Lemma nodeAssigned_inBounds n : inBounds n -> inBounds (nodeAssigned n).
Proof.
  intros (H1 & H2 & H3 & H4). unfold inBounds, nodeAssigned. simpl.
  repeat split; try done.
  - apply Q.min_glb; lra.
  - apply Q.le_min_l.
Qed.

Lemma nodeSucceeded_inBounds n : inBounds n -> inBounds (nodeSucceeded n).
Proof.
  intros (H1 & H2 & H3 & H4). unfold inBounds, nodeSucceeded. simpl.
  repeat split.
  - apply Q.le_max_l.
  - apply Q.max_lub; lra.
  - apply Q.min_glb; lra.
  - apply Q.le_min_l.
Qed.

Lemma nodeFailed_inBounds n : inBounds n -> inBounds (nodeFailed n).
Proof.
  intros (H1 & H2 & H3 & H4). unfold inBounds, nodeFailed. simpl.
  repeat split.
  - apply Q.le_max_l.
  - apply Q.max_lub; lra.
  - apply Q.le_max_l.
  - apply Q.max_lub; lra.
Qed.







Lemma steps_app l1 l2 sys : steps (l1 ++ l2) sys = steps l2 (steps l1 sys).
Proof. unfold steps. by rewrite foldl_app. Qed.






(** ** Candidate search *)

Lemma prefix_spec req cap :
  String.prefix req cap = true <-> exists post, cap = req +:+ post.
Proof.
  revert cap. induction req as [|c req IH]; intros cap.
  - split; [intros _; by exists cap|by destruct cap].
  - destruct cap as [|c' cap]; simpl.
    + split; [done|]. intros [post H]. discriminate.
    + destruct (Ascii.ascii_dec c c') as [->|Hne].
      * rewrite IH. split; intros [post H]; exists post; [by rewrite H|].
        by injection H.
      * split; [done|]. intros [post H]. injection H. congruence.
Qed.

Lemma includes_spec cap req : includes cap req = true <-> isSubstring req cap.
Proof.
  unfold isSubstring. induction cap as [|c cap IH]; cbn [includes].
  - rewrite orb_false_r, prefix_spec. split.
    + intros [post H]. by exists "", post.
    + intros (pre & post & H). destruct pre; simpl in H; [by exists post|done].
  - rewrite orb_true_iff, prefix_spec, IH. split.
    + intros [[post H]|(pre & post & H)].
      * by exists "", post.
      * exists (String c pre), post. simpl. by rewrite H.
    + intros (pre & post & H). destruct pre as [|c' pre]; simpl in H.
      * left. by exists post.
      * right. injection H as -> H. by exists pre, post.
Qed.

Lemma Qlt_bool_iff a b : Qlt_bool a b = true <-> (a < b)%Q.
Proof.
  unfold Qlt_bool. rewrite negb_true_iff. split.
  - intros H. apply Qnot_le_lt. intros Hle. apply Qle_bool_iff in Hle. congruence.
  - intros H. destruct (Qle_bool b a) eqn:E; [|done].
    apply Qle_bool_iff in E. lra.
Qed.

Lemma hasCapability_spec node req :
  hasCapability node req = true <->
  exists cap, cap ∈ capabilities node /\ isSubstring req cap.
Proof.
  unfold hasCapability. rewrite existsb_exists. split.
  - intros (cap & Hin & H). exists cap. split; [by apply list_elem_of_In|].
    by apply includes_spec.
  - intros (cap & Hin & H). exists cap. split; [by apply list_elem_of_In|].
    by apply includes_spec.
Qed.

Lemma isSuitable_spec task node :
  isSuitable task node = true <-> suitableSpec task node.
Proof.
  unfold isSuitable, suitableSpec.
  rewrite !andb_true_iff, forallb_forall, !Qlt_bool_iff.
  split; intros [[H1 H2] H3] || intros (H1 & H2 & H3); repeat split; try done.
  - intros req Hin. apply hasCapability_spec, H1. by apply list_elem_of_In.
  - intros req Hin. apply hasCapability_spec, H1. by apply list_elem_of_In.
Qed.

Lemma insertSorted_perm {A} (cmp : A -> A -> option Q) x l :
  insertSorted cmp x l ≡ₚ x :: l.
Proof.
  induction l as [|y l IH]; simpl; [done|].
  destruct (comesFirst cmp x y); [done|]. rewrite IH. apply Permutation_swap.
Qed.

Lemma sortWith_perm {A} (cmp : A -> A -> option Q) l : sortWith cmp l ≡ₚ l.
Proof.
  induction l as [|x l IH]; simpl; [done|].
  rewrite insertSorted_perm. by rewrite IH.
Qed.

Section Sorting.
Context {A : Type} (cmp : A -> A -> option Q) (R : A -> A -> Prop).
Hypothesis first_R : forall a b, comesFirst cmp a b = true -> R a b.
Hypothesis later_R : forall a b, comesFirst cmp a b = false -> R b a.
Hypothesis R_trans : forall a b c, R a b -> R b c -> R a c.

Lemma insertSorted_sorted x l :
  StronglySorted R l -> StronglySorted R (insertSorted cmp x l).
Proof.
  induction 1 as [|y l Hs IH Hy]; simpl.
  - repeat constructor.
  - destruct (comesFirst cmp x y) eqn:E.
    + constructor; [by constructor|]. constructor; [by apply first_R|].
      eapply Forall_impl; [exact Hy|]. intros z Hz.
      eapply R_trans; [|exact Hz]. by apply first_R.
    + constructor; [done|].
      eapply Permutation_Forall; [symmetry; apply insertSorted_perm|].
      constructor; [by apply later_R|done].
Qed.

Lemma sortWith_sorted l : StronglySorted R (sortWith cmp l).
Proof.
  induction l as [|x l IH]; simpl; [constructor|].
  by apply insertSorted_sorted.
Qed.
End Sorting.

Lemma count_matched node reqs acc :
  fold_left (fun acc req => acc + (if hasCapability node req then 1 else 0))
            reqs acc
  = acc + Z.of_nat (length (List.filter (hasCapability node) reqs)).
Proof.
  revert acc. induction reqs as [|r reqs IH]; intros acc; simpl; [lia|].
  rewrite IH. destruct (hasCapability node r); simpl; lia.
Qed.

Lemma calculateNodeScore_spec node task :
  match requirements task with
  | [] => calculateNodeScore node task = None
  | _ :: _ => exists q, calculateNodeScore node task = Some q /\
                        (q == specScore node task)%Q
  end.
Proof.
  unfold calculateNodeScore, specScore, capabilityMatchRatio.
  destruct (requirements task) as [|r reqs] eqn:E; [done|].
  eexists. split; [reflexivity|]. rewrite count_matched. 
  rewrite Z.add_0_l. ring.
Qed.

Lemma findSuitableNodes_sorted task w :
  StronglySorted
    (fun a b => notBelow (calculateNodeScore a.2 task)
                         (calculateNodeScore b.2 task))
    (findSuitableNodes task w).
Proof.
  unfold findSuitableNodes. apply sortWith_sorted.
  - intros a b. unfold comesFirst, compareNodes, notBelow.
    destruct (calculateNodeScore a.2 task), (calculateNodeScore b.2 task);
      try done.
    intros H. apply Qle_bool_iff in H. lra.
  - intros a b. unfold comesFirst, compareNodes, notBelow.
    destruct (calculateNodeScore a.2 task) eqn:Ea,
             (calculateNodeScore b.2 task) eqn:Eb; try done.
    intros H. destruct (Qle_bool (q0 - q) 0) eqn:E; [done|].
    assert (~ (q0 - q <= 0)%Q) by (intros Hle; apply Qle_bool_iff in Hle; congruence).
    lra.
  - intros a b c. unfold notBelow.
    pose proof (calculateNodeScore_spec a.2 task) as Ha.
    pose proof (calculateNodeScore_spec b.2 task) as Hb.
    pose proof (calculateNodeScore_spec c.2 task) as Hc.
    destruct (requirements task).
    + by rewrite Ha, Hc.
    + destruct Ha as (qa & -> & _), Hb as (qb & -> & _), Hc as (qc & -> & _).
      intros; lra.
Qed.

(** For every task and every node set, findSuitableNodes returns exactly
    the nodes (each once) for which every requirement is a substring of some
    capability, the load factor is below 0.8 and the reputation above 50; a
    node with load factor at least 0.8 or reputation at most 50 is left out.
    For a task with a requirement the result is in descending order of the
    score, which is
    [40·capabilityMatchRatio + 30·(1−loadFactor) + 30·(reputation/100)];
    for a task without one the source computes NaN, which orders
    nothing. *)
Lemma findSuitableNodes_spec (task : SwarmTask) (w : SwarmCoordinator) :
  let found := findSuitableNodes task w in
  (forall e, e ∈ found <-> e ∈ nodeEntries w /\ suitableSpec task e.2) /\
  found ≡ₚ List.filter (fun e => isSuitable task e.2) (nodeEntries w) /\
  (forall e, e ∈ nodeEntries w ->
     (8 # 10 <= loadFactor e.2 \/ reputation e.2 <= 50)%Q -> e ∉ found) /\
  StronglySorted
    (fun a b => notBelow (calculateNodeScore a.2 task)
                         (calculateNodeScore b.2 task)) found /\
  (forall node,
     match requirements task with
     | [] => calculateNodeScore node task = None
     | _ :: _ => exists q, calculateNodeScore node task = Some q /\
                           (q == specScore node task)%Q
     end).
Proof.
  intros found.
  assert (Hperm : found ≡ₚ List.filter (fun e => isSuitable task e.2)
                                        (nodeEntries w))
    by apply sortWith_perm.
  assert (Hiff : forall e, e ∈ found <->
                           e ∈ nodeEntries w /\ suitableSpec task e.2).
  { intros e. rewrite Hperm, list_elem_of_In, filter_In, <- list_elem_of_In.
    by rewrite isSuitable_spec. }
  split; [exact Hiff|]. split; [exact Hperm|]. split; [|split].
  - intros e Hin Hbad Hfound. apply Hiff in Hfound as [_ (_ & H1 & H2)].
    destruct Hbad; lra.
  - apply findSuitableNodes_sorted.
  - intros node. apply calculateNodeScore_spec.
Qed.

Lemma findSuitableNodes_spec_witness :
  (node_id <$> (findSuitableNodes alphaTask three_nodes).*2) = ["C"; "A"] /\
  (1%nat, mkNode "B" "B" ["alpha"] (9 # 10) 100 0)
    ∉ findSuitableNodes alphaTask three_nodes.
Proof.
  split; [vm_compute; reflexivity|].
  destruct (findSuitableNodes_spec alphaTask three_nodes)
    as (_ & _ & Hout & _).
  apply Hout.
  - vm_compute. right. left.
  - left. simpl. lra.
Defined.

(** C7, at a failing input. Node A is executing a task (load 0.1) and node
    C is idle (load 0), both with reputation 100. For a task without
    requirements both are eligible and findSuitableNodes returns them as
    [A; C], the order of registration: calculateNodeScore divides by the
    number of requirements, its result is NaN for both, and the sort moves
    nothing. Whatever value the capability match ratio is given, the score
    of the design document is higher for C than for A; the task submitted
    next is nevertheless assigned to A. *)
Theorem no_requirement_ranking :
  let w := (steps one_busy (boot pretty (fun _ => true))).1 in
  let task := stampTask plainTask (set_clock 3 w) in
  exists a c,
    requirements task = [] /\
    findSuitableNodes task w = [a; c] /\
    node_id a.2 = "A" /\ node_id c.2 = "C" /\
    suitableSpec task a.2 /\ suitableSpec task c.2 /\
    calculateNodeScore a.2 task = None /\
    calculateNodeScore c.2 task = None /\
    (forall ratio, (scoreWith ratio a.2 < scoreWith ratio c.2)%Q) /\
    (specScore a.2 task < specScore c.2 task)%Q /\
    assignmentLog
      (steps (one_busy ++ [(3, CallSubmitTask plainTask)])
             (boot pretty (fun _ => true))).1
    = [("task_2_0", "A"); ("task_3_1", "A")].
Proof.
  intros w task.
  exists (0%nat, mkNode "A" "A" ["a"] (1 # 10) 100 0),
         (1%nat, mkNode "C" "C" ["c"] 0 100 1).
  split; [reflexivity|].
  split; [vm_compute; reflexivity|].
  split; [reflexivity|]. split; [reflexivity|].
  split; [apply isSuitable_spec; vm_compute; reflexivity|].
  split; [apply isSuitable_spec; vm_compute; reflexivity|].
  split; [reflexivity|]. split; [reflexivity|].
  split; [intros ratio; unfold scoreWith; cbn; lra|].
  split; [vm_compute; reflexivity|].
  vm_compute. reflexivity.
Qed.

(** ** Consensus *)

Lemma map_get_delete {V} (k : string) (m : list (string * V)) :
  map_get k (map_delete k m) = None.
Proof.
  induction m as [|[k' v] m IH]; simpl; [done|].
  destruct (decide (k' = k)) as [->|Hne]; [done|]. simpl.
  by destruct (decide (k' = k)).
Qed.

Lemma finally_bindRes {A B} (Q : SwarmCoordinator -> Prop) (r : Res A)
    (f : A -> Async B) :
  (forall a w, finally Q (f a w)) -> finally Q (bindRes r f).
Proof.
  intros Hf. induction r as [a w|w n t k IH]; simpl; [apply Hf|].
  intros o w1. apply IH.
Qed.

Lemma finally_bind {A B} (Q : SwarmCoordinator -> Prop) (m : Async A)
    (f : A -> Async B) w :
  (forall a w, finally Q (f a w)) -> finally Q ((m ≫= f) w).
Proof. intros Hf. by apply finally_bindRes. Qed.

Lemma resolveConsensus_absent proposalId w :
  lookupProposal proposalId w = None ->
  resolveConsensus proposalId w = Done tt w.
Proof.
  unfold lookupProposal, resolveConsensus. intros H.
  rewrite run_get. by rewrite H.
Qed.

Lemma resolveConsensus_discards proposalId w :
  finally (fun w' => lookupProposal proposalId w' = None)
          (resolveConsensus proposalId w).
Proof.
  unfold resolveConsensus. rewrite run_get.
  destruct (map_get proposalId (proposals w) ≫= _) as [proposal|] eqn:E.
  - apply finally_bind. intros _ w1. apply finally_bind. intros _ w2.
    simpl. unfold lookupProposal. simpl. by rewrite map_get_delete.
  - exact E.
Qed.

Lemma directAssignTask_emits t n w :
  exists more, emitted (yielded (directAssignTask t n w)) = emitted w ++ more.
Proof.
  unfold directAssignTask. rewrite run_get.
  destruct (nodeObjects w !! n) as [node|].
  - eexists. reflexivity.
  - exists []. simpl. by rewrite app_nil_r.
Qed.

Lemma yielded_bindRes_emits {A B} (r : Res A) (f : A -> Async B) base :
  (exists more, emitted (yielded r) = base ++ more) ->
  (forall a w, exists more, emitted (yielded (f a w)) = emitted w ++ more) ->
  exists more, emitted (yielded (bindRes r f)) = base ++ more.
Proof.
  intros [m1 H1] Hf. destruct r as [a w|w n t k]; simpl in *.
  - destruct (Hf a w) as [m2 H2]. exists (m1 ++ m2).
    by rewrite H2, H1, app_assoc.
  - by exists m1.
Qed.

Lemma resolveConsensus_announces proposalId w proposal :
  lookupProposal proposalId w = Some proposal ->
  exists more,
    emitted (yielded (resolveConsensus proposalId w)) =
    emitted w ++
    consensusResolved proposalId (threshold proposal <=? yesVotes proposal)
                      (yesVotes proposal) (threshold proposal) :: more.
Proof.
  unfold lookupProposal, resolveConsensus. intros H.
  rewrite run_get, H, run_modify.
  change (Z.of_nat (length (List.filter (fun v : string * bool => v.2)
                                        (votes proposal))))
    with (yesVotes proposal).
  set (ev := consensusResolved _ _ _ _).
  set (w1 := emit ev w).
  assert (Hgoal : forall r : Res unit,
            (exists more, emitted (yielded r) = emitted w1 ++ more) ->
            exists more, emitted (yielded r) = emitted w ++ ev :: more).
  { intros r [more Hr]. exists more. rewrite Hr. subst w1. simpl.
    by rewrite <- app_assoc. }
  apply Hgoal.
  apply yielded_bindRes_emits.
  - destruct (_ && _).
    + rewrite run_get.
      destruct (map_get _ (tasks w1)) as [t|]; [|exists []; simpl; by rewrite app_nil_r].
      destruct (omap _ _) as [|n ?]; [exists []; simpl; by rewrite app_nil_r|].
      apply directAssignTask_emits.
    + exists []. simpl. by rewrite app_nil_r.
  - intros _ w2. exists []. simpl. by rewrite app_nil_r.
Qed.

(** When the proposal exists, resolveConsensus announces
    [reached = yesVotes >= threshold]; when the call has completed, however
    it was interleaved, the proposal is gone from the proposal map, and a
    call for the same id made after that, like a call for an id that never
    existed, returns at once: it changes no state and emits nothing. A call
    made while the first one waits finds the proposal. *)
Lemma resolveConsensus_once (proposalId : string) (w : SwarmCoordinator) :
  match lookupProposal proposalId w with
  | None => resolveConsensus proposalId w = Done tt w
  | Some proposal =>
      exists more,
        emitted (yielded (resolveConsensus proposalId w)) =
        emitted w ++
        consensusResolved proposalId
          (threshold proposal <=? yesVotes proposal)
          (yesVotes proposal) (threshold proposal) :: more
  end /\
  finally (fun w' => lookupProposal proposalId w' = None /\
                     resolveConsensus proposalId w' = Done tt w')
          (resolveConsensus proposalId w).
Proof.
  split.
  - destruct (lookupProposal proposalId w) as [proposal|] eqn:E.
    + by apply resolveConsensus_announces.
    + by apply resolveConsensus_absent.
  - assert (H : forall (r : Res unit),
               finally (fun w' => lookupProposal proposalId w' = None) r ->
               finally (fun w' => lookupProposal proposalId w' = None /\
                          resolveConsensus proposalId w' = Done tt w') r).
    { induction r as [a w'|w' n t k IH]; simpl.
      - intros H. split; [done|]. by apply resolveConsensus_absent.
      - intros H o w1. apply IH, H. }
    apply H, resolveConsensus_discards.
Qed.

(** C8, at a failing input. A task is decomposed into two subtasks that
    are put to the vote in the same millisecond, and the two proposal ids get
    the same random suffix: both resolution timers carry one id. When the
    first fires, the proposal is resolved and its task starts executing;
    the proposal is still in the map (it is deleted after the awaited
    assignment), so the second timer resolves the same proposal once more:
    'consensusResolved' is emitted twice for the id, the task is assigned
    twice, and it is counted twice as completed. *)
Theorem proposal_resolved_twice :
  let first := steps first_resolution (boot sameSuffix (fun _ => true)) in
  let second := steps second_resolution (boot sameSuffix (fun _ => true)) in
  let final := steps both_complete (boot sameSuffix (fun _ => true)) in
  resolutions first.1 = [("proposal_1_p", true)] /\
  length first.2 = 1%nat /\
  (exists proposal, lookupProposal "proposal_1_p" first.1 = Some proposal) /\
  callback <$> timers first.1 = [ResolveConsensus "proposal_1_p"] /\
  resolveConsensus "proposal_1_p" first.1 ≠ Done tt first.1 /\
  resolutions second.1 = [("proposal_1_p", true); ("proposal_1_p", true)] /\
  assignmentLog second.1
  = [("task_1_t_analysis", "A"); ("task_1_t_analysis", "A")] /\
  length second.2 = 2%nat /\
  ((fun t => (task_id t, status t)) <$> getTasks final.1)
  = [("task_1_t", Pending); ("task_1_t_data", Pending);
     ("task_1_t_analysis", Completed)] /\
  completedTasks (metrics final.1) = 2 /\
  final.2 = [] /\ timers final.1 = [].
Proof.
  cbv zeta.
  split; [vm_compute; reflexivity|].
  split; [vm_compute; reflexivity|].
  split; [eexists; vm_compute; reflexivity|].
  split; [vm_compute; reflexivity|].
  split.
  { intros H.
    assert (E : yielded (resolveConsensus "proposal_1_p"
                 (steps first_resolution (boot sameSuffix (fun _ => true))).1)
                = (steps first_resolution (boot sameSuffix (fun _ => true))).1)
      by (by rewrite H).
    apply (f_equal (fun w => length (emitted w))) in E.
    vm_compute in E. discriminate E. }
  split; [vm_compute; reflexivity|].
  split; [vm_compute; reflexivity|].
  split; [vm_compute; reflexivity|].
  split; [vm_compute; reflexivity|].
  split; [vm_compute; reflexivity|].
  split; vm_compute; reflexivity.
Qed.

(** ** Node loss *)

Lemma taskFrame_laws t0 :
  SegmentLaws (taskFrame t0) (fun t => t ≠ t0) (fun t => t ≠ t0).
Proof.
  split; unfold taskFrame; try (simpl; intros; auto; fail).
  - intros w w' (_ & E & _) x. by rewrite E.
  - intros t f w Ht _ x Hx. simpl. by rewrite list_lookup_alter_ne.
  - intros t refs w Ht x Hx. simpl. by rewrite list_lookup_alter_ne.
  - intros ts w x Hx. simpl. by apply lookup_app_l_Some.
Qed.

Lemma resetForReassign_spec nodeId task :
  status (resetForReassign nodeId task) = Pending /\
  nodeId ∉ default [] (assignedNodes (resetForReassign nodeId task)).
Proof.
  split; [done|]. unfold resetForReassign. simpl.
  destruct (assignedNodes task) as [ns|]; simpl; [|apply not_elem_of_nil].
  rewrite list_elem_of_In, filter_In. intros [_ H].
  by rewrite bool_decide_eq_true_2 in H.
Qed.

Lemma nodeTasks_spec nodeId w t :
  t ∈ nodeTasks nodeId w <->
  exists task, (t, task) ∈ taskEntries w /\
               (exists ns, assignedNodes task = Some ns /\ nodeId ∈ ns) /\
               (status task = Assigned \/ status task = Executing).
Proof.
  unfold nodeTasks. rewrite list_elem_of_fmap. split.
  - intros ([t' task] & -> & Hin). exists task. simpl.
    rewrite list_elem_of_In, filter_In in Hin. destruct Hin as [Hin Hsel].
    split; [by apply list_elem_of_In|].
    unfold isNodeTask in Hsel. simpl in Hsel.
    apply andb_true_iff in Hsel as [H1 H2]. split.
    + destruct (assignedNodes task) as [ns|]; [|done].
      exists ns. split; [done|]. by apply bool_decide_eq_true in H1.
    + apply orb_true_iff in H2 as [H2|H2]; apply bool_decide_eq_true in H2; auto.
  - intros (task & Hin & (ns & Hns & Hmem) & Hst). exists (t, task).
    split; [done|]. rewrite list_elem_of_In, filter_In.
    split; [by apply list_elem_of_In|].
    unfold isNodeTask. simpl. rewrite Hns.
    rewrite bool_decide_eq_true_2 by done. simpl.
    destruct Hst as [-> | ->]; done.
Qed.

Lemma elem_of_map_set {V} (k : string) (v : V) m e :
  e ∈ map_set k v m -> e = (k, v) \/ e ∈ m.
Proof.
  induction m as [|[k' v'] m IH]; simpl.
  - intros H. apply list_elem_of_singleton in H. by left.
  - destruct (decide (k' = k)) as [->|Hne]; intros H.
    + apply elem_of_cons in H as [->|H]; [by left|]. right. by right.
    + apply elem_of_cons in H as [->|H]; [right; by left|].
      destruct (IH H); [by left|]. right. by right.
Qed.

Lemma elem_of_map_delete {V} (k : string) (m : list (string * V)) e :
  e ∈ map_delete k m -> e ∈ m.
Proof.
  induction m as [|[k' v'] m IH]; simpl; [done|].
  destruct (decide (k' = k)) as [->|Hne]; intros H.
  - right. by apply IH.
  - apply elem_of_cons in H as [->|H]; [by left|]. right. by apply IH.
Qed.

Lemma map_get_None {V} (k : string) (m : list (string * V)) v :
  map_get k m = None -> (k, v) ∉ m.
Proof.
  induction m as [|[k' v'] m IH]; simpl; [intros _; apply not_elem_of_nil|].
  destruct (decide (k' = k)) as [->|Hne]; [done|].
  intros H Hin. apply elem_of_cons in Hin as [Heq|Hin].
  - congruence.
  - by apply (IH H).
Qed.

Lemma updateNode_keyed f n w :
  (forall x, node_id (f x) = node_id x) -> keyedSeg None w (updateNode n f w).
Proof.
  intros Hf Hk k l Hin. destruct (Hk k l Hin) as (x & Hx & Hid).
  simpl. rewrite list_lookup_alter.
  destruct (decide (n = l)) as [->|Hne]; rewrite Hx; simpl.
  - eexists. split; [done|]. by rewrite Hf.
  - by exists x.
Qed.

Lemma keyedSeg_laws : SegmentLaws keyedSeg (fun _ => True) (fun _ => True).
Proof.
  split; unfold keyedSeg; try (simpl; intros; auto; fail).
  - intros w w' (E1 & _ & E2) Hk k l. unfold keyed in *. rewrite E1, E2. apply Hk.
  - intros n w. by apply updateNode_keyed.
  - intros r n w. by apply updateNode_keyed.
  - intros e n w. by apply updateNode_keyed.
  - intros id a caps t w Hk k l Hin. simpl in *.
    apply elem_of_map_set in Hin as [Heq|Hin].
    + injection Heq as -> ->. eexists. split; [apply list_lookup_middle; done|done].
    + destruct (Hk k l Hin) as (x & Hx & Hid). exists x. split; [|done].
      by apply lookup_app_l_Some.
  - intros id w Hk k l Hin. simpl in *. apply elem_of_map_delete in Hin.
    by apply Hk.
  - intros n t w. by apply updateNode_keyed.
Qed.

Lemma steps_keyed ids coins l : keyed (steps l (boot ids coins)).1.
Proof.
  assert (H : forall l sys, poolLawful keyedSeg sys.2 -> keyed sys.1 ->
                            keyed (steps l sys).1).
  { clear l. induction l as [|[now st] l IH]; intros sys Hp Hk; [done|].
    simpl.
    destruct (step_obeys _ _ _ keyedSeg_laws (fun _ => I) (fun _ => I)
                now st sys Hp) as [H1 H2].
    apply IH; [done|]. by apply H1. }
  apply H; [constructor|]. intros k l' Hin. simpl in Hin. by apply elem_of_nil in Hin.
Qed.

Lemma keyed_getNodes nodeId w :
  keyed w -> map_get nodeId (nodes w) = None ->
  nodeId ∉ node_id <$> getNodes w.
Proof.
  intros Hk Hget Hin. apply list_elem_of_fmap in Hin as (n & -> & Hn).
  unfold getNodes in Hn. apply list_elem_of_fmap in Hn as ([l n'] & -> & He).
  unfold nodeEntries in He. apply list_elem_of_omap in He as ([k l'] & Hin & Hl).
  simpl in Hl. destruct (nodeObjects w !! l') as [x|] eqn:Ex; [|done].
  simpl in Hl. injection Hl as <- <-.
  destruct (Hk k l' Hin) as (y & Hy & Hid). simpl in *.
  assert (y = x) as -> by congruence. subst k.
  by apply (map_get_None _ _ l' Hget).
Qed.

Lemma finally_impl {A} (P Q : SwarmCoordinator -> Prop) (r : Res A) :
  (forall w, P w -> Q w) -> finally P r -> finally Q r.
Proof.
  intros HPQ. induction r as [a w|w n t k IH]; simpl; [apply HPQ|].
  intros H o w1. apply IH, H.
Qed.

(** C5, as stated, fails: a task that completed on the node still lists
    the node in its assignedNodes after the node was unregistered. *)
Lemma completed_task_keeps_unregistered_node :
  let sys := steps unregister_after_completion (boot pretty (fun _ => true)) in
  sys.2 = [] /\
  (node_id <$> getNodes sys.1) = [] /\
  (assignedNodes <$> getTasks sys.1) = [Some ["A"]] /\
  (status <$> getTasks sys.1) = [Completed].
Proof. vm_compute. done. Qed.

(** ** Submission and decomposition *)

Lemma sameCore_refl a : sameCore a a.
Proof. by repeat split. Qed.

Lemma sameCore_trans a b c : sameCore a b -> sameCore b c -> sameCore a c.
Proof.
  intros (?&?&?&?&?) (?&?&?&?&?). repeat split; congruence.
Qed.

Lemma coreSeg_laws : SegmentLaws coreSeg (fun _ => True) (fun _ => False).
Proof.
  split; unfold coreSeg.
  - intros x w l y Hl. exists y. split; [done|apply sameCore_refl].
  - intros x a b c Hab Hbc l y Hl.
    destruct (Hab l y Hl) as (y1 & H1 & S1).
    destruct (Hbc l y1 H1) as (y2 & H2 & S2).
    exists y2. split; [done|]. by eapply sameCore_trans.
  - intros x a b c Hab Hbc l y Hl.
    destruct (Hab l y Hl) as (y1 & H1 & S1).
    destruct (Hbc l y1 H1) as (y2 & H2 & S2).
    exists y2. split; [done|]. by eapply sameCore_trans.
  - intros w w' (_ & E & _) l y Hl. exists y. rewrite E.
    split; [done|apply sameCore_refl].
  - intros t f w _ Hf l y Hl. simpl. rewrite list_lookup_alter.
    destruct (decide (t = l)) as [->|Hne]; rewrite Hl; simpl.
    + eexists. split; [done|]. destruct (Hf y) as (?&?&?&?&?).
      by repeat split.
    + exists y. split; [done|apply sameCore_refl].
  - intros n w l y Hl. exists y. split; [done|apply sameCore_refl].
  - intros r n w l y Hl. exists y. split; [done|apply sameCore_refl].
  - intros r n w l y Hl. exists y. split; [done|apply sameCore_refl].
  - intros t refs w [].
  - intros ts w l y Hl. exists y. split; [|apply sameCore_refl].
    simpl. by apply lookup_app_l_Some.
  - intros id a caps t w l y Hl. exists y. split; [done|apply sameCore_refl].
  - intros id w l y Hl. exists y. split; [done|apply sameCore_refl].
  - intros n t w l y Hl. exists y. split; [done|apply sameCore_refl].
Qed.

Lemma obeys_yielded {A} seg x w0 (r : Res A) :
  obeys seg x w0 r -> seg x w0 (yielded r).
Proof. destruct r; simpl; tauto. Qed.

Lemma yielded_then_ret {A B} (r : Res A) (b : B) :
  yielded (bindRes r (fun _ => mret b)) = yielded r.
Proof. by destruct r. Qed.

Lemma shouldDecomposeTask_spec task :
  shouldDecomposeTask task = true <->
  (2 < length (requirements task))%nat \/ 7 <= priority task
  \/ (200 < String.length (description task))%nat.
Proof.
  unfold shouldDecomposeTask.
  rewrite !orb_true_iff, !Nat.ltb_lt, Z.leb_le. tauto.
Qed.

Lemma planSubtasks_view task now :
  view <$> planSubtasks task now =
  if decide ("data_processing" ∈ requirements task
             /\ "analysis" ∈ requirements task)
  then [(["data_processing"], priority task); (["analysis"], priority task)]
  else if decide (2 < length (requirements task))%nat
  then (fun r => ([r], priority task)) <$> requirements task
  else [].
Proof.
  unfold planSubtasks.
  destruct (decide (_ /\ _)) as [[H1 H2]|Hn].
  - by rewrite !bool_decide_eq_true_2.
  - assert (bool_decide ("data_processing" ∈ requirements task)
            && bool_decide ("analysis" ∈ requirements task) = false) as ->.
    { apply andb_false_iff.
      destruct (decide ("data_processing" ∈ requirements task));
        [right|left]; apply bool_decide_eq_false; tauto. }
    destruct (decide (2 < length (requirements task))%nat) as [Hl|Hl].
    + apply Nat.ltb_lt in Hl. rewrite Hl.
      rewrite fmap_imap.
      apply (imap_const (fun r => ([r], priority task))).
    + apply Nat.ltb_nlt in Hl. by rewrite Hl.
Qed.

Lemma views_kept plan w' b :
  (forall i x, plan !! i = Some x ->
     exists x', taskObjects w' !! (b + i)%nat = Some x' /\ sameCore x x') ->
  view <$> omap (fun r => taskObjects w' !! r) (seq b (length plan))
  = view <$> plan.
Proof.
  revert b. induction plan as [|p plan IH]; intros b H; [done|].
  simpl. destruct (H 0%nat p eq_refl) as (x' & Hx' & Hs).
  rewrite Nat.add_0_r in Hx'. rewrite Hx'. simpl. f_equal.
  - destruct Hs as (_ & _ & Hr & Hp & _). unfold view. by rewrite Hr, Hp.
  - apply IH. intros i x Hi. destruct (H (S i) x Hi) as (y & Hy & Hsy).
    exists y. split; [|done].
    by replace (S b + i)%nat with (b + S i)%nat by lia.
Qed.

Lemma planSubtasks_flat task now x :
  x ∈ planSubtasks task now -> subtasks x = None.
Proof.
  unfold planSubtasks. destruct (_ && _).
  - intros H. apply elem_of_cons in H as [->|H]; [done|].
    apply list_elem_of_singleton in H. by subst.
  - destruct (2 <? _)%nat; [|by intros H; apply elem_of_nil in H].
    intros H. apply list_elem_of_lookup in H as [i Hi].
    apply list_lookup_imap_Some in Hi as (r & _ & ->). done.
Qed.

Lemma subtasks_flat plan w' b :
  (forall i x, plan !! i = Some x ->
     subtasks x = None /\
     exists x', taskObjects w' !! (b + i)%nat = Some x' /\ sameCore x x') ->
  Forall (fun s => subtasks s = None)
         (omap (fun r => taskObjects w' !! r) (seq b (length plan))).
Proof.
  revert b. induction plan as [|p plan IH]; intros b H; [constructor|].
  simpl. destruct (H 0%nat p eq_refl) as (Hnone & x' & Hx' & Hs).
  rewrite Nat.add_0_r in Hx'. rewrite Hx'. constructor.
  - destruct Hs as (_ & _ & _ & _ & Hsub). by rewrite <- Hsub.
  - apply IH. intros i x Hi. destruct (H (S i) x Hi) as (Hn & y & Hy & Hsy).
    split; [done|]. exists y. split; [|done].
    by replace (S b + i)%nat with (b + S i)%nat by lia.
Qed.

Lemma submitted_lookup spec w :
  taskObjects (submitted spec w) !! length (taskObjects w)
  = Some (stampTask spec w).
Proof. simpl. by rewrite list_lookup_middle. Qed.

Lemma assignTask_keeps t w0 x :
  taskObjects w0 !! t = Some x ->
  exists x', taskObjects (yielded (assignTask t w0)) !! t = Some x' /\
             sameCore x x'.
Proof.
  intros Hx.
  pose proof (lawful_assignTask _ _ _ coreSeg_laws t I w0) as H.
  apply obeys_yielded in H. by apply H.
Qed.

(** C6. submitTask decomposes the task exactly when it has more than two
    requirements, or priority at least 7, or a description longer than 200.
    A decomposed task whose requirements contain both data_processing and
    analysis gets exactly two subtasks, with requirement lists
    [data_processing] and [analysis] and the parent's priority; otherwise,
    with more than two requirements, it gets one subtask per requirement,
    each with that single requirement and the parent's priority; in every
    other case the task records no subtasks and is itself handed to
    assignTask. The subtasks have no subtasks of their own. *)
Theorem submitTask_decomposes (spec : TaskSpec) (w : SwarmCoordinator) :
  let t := length (taskObjects w) in
  let w' := yielded (submitTask spec w) in
  let expected :=
    expectedSubtasks (sp_requirements spec) (sp_priority spec)
                     (sp_description spec) in
  (shouldDecomposeTask (stampTask spec w) = true <->
   (2 < length (sp_requirements spec))%nat \/ 7 <= sp_priority spec
   \/ (200 < String.length (sp_description spec))%nat) /\
  exists parent,
    taskObjects w' !! t = Some parent /\
    requirements parent = sp_requirements spec /\
    priority parent = sp_priority spec /\
    (fun s => (requirements s, priority s))
      <$> omap (fun r => taskObjects w' !! r) (default [] (subtasks parent))
    = expected /\
    Forall (fun s => subtasks s = None)
           (omap (fun r => taskObjects w' !! r)
                 (default [] (subtasks parent))) /\
    match expected with
    | [] =>
        subtasks parent = None /\
        submitTask spec w =
        bindRes (assignTask t (submitted spec w))
                (fun _ => mret (task_id (stampTask spec w)))
    | _ :: _ => subtasks parent = Some (seq (S t) (length expected))
    end.
Proof.
  intros t w' expected.
  split; [apply (shouldDecomposeTask_spec (stampTask spec w))|].
  set (w0 := submitted spec w).
  set (stamp := stampTask spec w).
  assert (Hrun : submitTask spec w =
                 bindRes ((if shouldDecomposeTask stamp
                           then decomposeTask t else assignTask t) w0)
                         (fun _ => mret (task_id stamp))) by reflexivity.
  pose proof (submitted_lookup spec w) as Hl. fold t w0 stamp in Hl.
  assert (Hlen0 : length (taskObjects w0) = S t).
  { subst w0 t. simpl. rewrite length_app. simpl. lia. }
  clearbody w0.
  assert (Hdirect :
            submitTask spec w =
              bindRes (assignTask t w0) (fun _ => mret (task_id stamp)) ->
            expected = [] ->
            exists parent,
              taskObjects w' !! t = Some parent /\
              requirements parent = sp_requirements spec /\
              priority parent = sp_priority spec /\
              (fun s => (requirements s, priority s))
                <$> omap (fun r => taskObjects w' !! r)
                         (default [] (subtasks parent)) = expected /\
              Forall (fun s => subtasks s = None)
                     (omap (fun r => taskObjects w' !! r)
                           (default [] (subtasks parent))) /\
              match expected with
              | [] =>
                  subtasks parent = None /\
                  submitTask spec w =
                  bindRes (assignTask t w0) (fun _ => mret (task_id stamp))
              | _ :: _ => subtasks parent = Some (seq (S t) (length expected))
              end).
  { intros Heq Hexp. subst w'. rewrite Heq, yielded_then_ret.
    destruct (assignTask_keeps t w0 stamp Hl) as (parent & Hp & Hs).
    destruct Hs as (_ & _ & Hr & Hpr & Hsub).
    exists parent. rewrite Hexp. rewrite <- Hr, <- Hpr, <- Hsub.
    repeat split; first [done | constructor]. }
  destruct (shouldDecomposeTask stamp) eqn:Esd.
  - (* decomposeTask *)
    pose proof (proj1 (shouldDecomposeTask_spec stamp) Esd) as Hcomplex.
    assert (Hexp : expected = view <$> planSubtasks stamp (clock w0)).
    { rewrite planSubtasks_view. subst expected. unfold expectedSubtasks.
      by rewrite decide_True. }
    assert (Hdec : decomposeTask t w0 =
              let subtasks := planSubtasks stamp (clock w0) in
              if (0 <? length subtasks)%nat then
                (let refs := seq (length (taskObjects w0)) (length subtasks) in
                 modify (on_taskObjects (fun ts => ts ++ subtasks));;
                 modify (updateTask t (set_subtasks (Some refs)));;
                 forEach (zip refs subtasks) (fun e =>
                   modify (on_tasks (map_set (task_id e.2) e.1));;
                   assignTask e.1)) w0
              else assignTask t w0).
    { unfold decomposeTask. rewrite run_get, Hl. cbv zeta.
      by destruct (0 <? _)%nat. }
    cbv zeta in Hdec.
    destruct (planSubtasks stamp (clock w0)) as [|p plan] eqn:Eplan.
    + simpl in Hdec. rewrite Hdec in Hrun. by apply Hdirect.
    + set (full := p :: plan) in *.
      assert (Hlen : (0 <? length full)%nat = true) by done.
      rewrite Hlen in Hdec. rewrite !run_modify in Hdec.
      set (refs := seq (length (taskObjects w0)) (length full)) in *.
      set (w2 := updateTask t (set_subtasks (Some refs))
                   (on_taskObjects (fun ts => ts ++ full) w0)) in *.
      assert (Hob : coreSeg None w2 (yielded (decomposeTask t w0))).
      { rewrite Hdec. apply obeys_yielded.
        apply (lawful_forEach _ _ _ coreSeg_laws). intros e.
        apply (lawful_modify _ _ _ coreSeg_laws).
        - intros w3. apply (law_same _ _ _ coreSeg_laws). by split.
        - by apply (lawful_assignTask _ _ _ coreSeg_laws). }
      assert (Hw' : w' = yielded (decomposeTask t w0)).
      { subst w'. by rewrite Hrun, yielded_then_ret. }
      rewrite <- Hw' in Hob.
      assert (Hpar : taskObjects w2 !! t
                     = Some (set_subtasks (Some refs) stamp)).
      { subst w2. simpl. rewrite list_lookup_alter.
        rewrite decide_True by done.
        rewrite lookup_app_l by (rewrite Hlen0; lia). by rewrite Hl. }
      destruct (Hob t _ Hpar) as (parent & Hp & Hs).
      destruct Hs as (_ & _ & Hr & Hpr & Hsub).
      cbn [set_subtasks subtasks requirements priority] in Hr, Hpr, Hsub.
      exists parent. rewrite <- Hr, <- Hpr, <- Hsub.
      split; [done|]. split; [done|]. split; [done|].
      assert (Hviews : view <$> omap (fun r => taskObjects w' !! r) refs
                       = view <$> full).
      { subst refs. apply views_kept. intros i x Hi.
        apply Hob. subst w2. simpl. rewrite list_lookup_alter_ne by lia.
        rewrite lookup_app_r by lia.
        by replace (length (taskObjects w0) + i - length (taskObjects w0))%nat
          with i by lia. }
      split; [|split].
      * rewrite Hexp. exact Hviews.
      * subst refs. apply subtasks_flat. intros i x Hi. split.
        -- apply (planSubtasks_flat stamp (clock w0)). rewrite Eplan.
           by eapply list_elem_of_lookup_2.
        -- apply Hob. subst w2. simpl. rewrite list_lookup_alter_ne by lia.
           rewrite lookup_app_r by lia.
           by replace (length (taskObjects w0) + i
                       - length (taskObjects w0))%nat with i by lia.
      * rewrite Hexp. subst refs. rewrite Hlen0. subst full.
        change (view <$> p :: plan) with (view p :: (view <$> plan)).
        cbn [length]. by rewrite length_fmap.
  - (* assignTask *)
    apply Hdirect; [exact Hrun|].
    subst expected. unfold expectedSubtasks. rewrite decide_False; [done|].
    intros H. apply (shouldDecomposeTask_spec stamp) in H. congruence.
Qed.


(** ** Retry *)

(** C3, at a failing input. Nodes A and B can both do the task. It fails on
    A, the retry excludes A and assigns it to B, and it fails on B. By then
    the task's assignedNodes is [B] alone, because directAssignTask
    overwrites the list, so the second retry excludes only B and assigns the
    task to A, where it had already been tried. *)
Theorem retry_returns_to_tried_node :
  let before := (steps second_retry (boot pretty (fun _ => true))).1 in
  let after := (steps third_attempt (boot pretty (fun _ => true))).1 in
  assignmentLog before = [("task_2_0", "A"); ("task_2_0", "B")] /\
  assignedNodes <$> getTasks before = [Some ["B"]] /\
  assignmentLog after =
    [("task_2_0", "A"); ("task_2_0", "B"); ("task_2_0", "A")].
Proof. vm_compute. done. Qed.

(** C4, at a failing input. In the same run the task is assigned a fourth
    time, one more than maxTaskRetries, and after its fourth failure a
    further retry is scheduled: the length of assignedNodes, which the
    source compares with the budget, is 1 after every assignment. *)
Theorem retries_exceed_budget :
  let w := (steps fourth_failure (boot pretty (fun _ => true))).1 in
  assignmentLog w =
    [("task_2_0", "A"); ("task_2_0", "B");
     ("task_2_0", "A"); ("task_2_0", "B")] /\
  (maxTaskRetries < length (assignmentLog w))%nat /\
  status <$> getTasks w = [Failed] /\
  assignedNodes <$> getTasks w = [Some ["B"]] /\
  timers w = [mkTimer (RetryTask 0) 5000].
Proof. vm_compute. repeat split; lia. Qed.

End SwarmProofs.

(** * Further properties of the lifecycle manager *)

Module LifecycleExtras.
Import Lifecycle LifecycleTerms.

Lemma set_timers_id m : set_timers (timers m) m = m.
Proof. by destruct m. Qed.

Lemma clearTimeouts_spec ids m :
  foldl (fun acc id => clearTimeout id acc) m ids
  = set_timers (clearAll ids (timers m)) m.
Proof.
  revert m. induction ids as [|a ids IH]; intros m.
  - simpl. symmetry. apply set_timers_id.
  - simpl. rewrite IH. reflexivity.
Qed.

Lemma executeTransition_fields tr m :
  let m' := executeTransition tr m in
  currentState m' = to tr
  ∧ stateHistory m' = stateHistory m ++ [tr]
  ∧ policy m' = policy m
  ∧ retryCount m' = (if decide (to tr = RUNNING) then 0 else retryCount m)
  ∧ checkpointTimer m'
    = (if decide (to tr = TERMINATED) then false else checkpointTimer m)
  ∧ timers m'
    = (if decide (to tr = TERMINATED)
       then clearAll (onceTerminated m) (timers m) else timers m)
  ∧ nextTimer m' = nextTimer m
  ∧ onceTerminated m'
    = (if decide (to tr = TERMINATED) then [] else onceTerminated m).
Proof.
  unfold executeTransition.
  destruct (decide (to tr = TERMINATED)) as [Ht|Ht].
  - destruct (decide (to tr = RUNNING)) as [Hr|Hr]; [congruence|].
    unfold fireOnceTerminated. rewrite clearTimeouts_spec.
    unfold stopCheckpointing.
    destruct (checkpointTimer _) eqn:Hc; cbn; repeat split; try done.
  - destruct (decide (to tr = RUNNING)) as [Hr|Hr]; cbn; repeat split.
Qed.

Lemma canTransitionTo_TERMINATED m s :
  currentState m = TERMINATED -> canTransitionTo m s = false.
Proof. intros H. unfold canTransitionTo. rewrite H. by destruct s. Qed.

Lemma transitionTo_fields now target rsn md m :
  let r := transitionTo now target rsn md m in
  r.1 = canTransitionTo m target
  ∧ currentState r.2 = (if r.1 then target else currentState m)
  ∧ policy r.2 = policy m
  ∧ retryCount r.2
    = (if r.1 && bool_decide (target = RUNNING) then 0 else retryCount m)
  ∧ checkpointTimer r.2
    = (if r.1 && bool_decide (target = TERMINATED) then false
       else checkpointTimer m)
  ∧ timers r.2
    = (if r.1 && bool_decide (target = TERMINATED)
       then clearAll (onceTerminated m) (timers m) else timers m)
  ∧ nextTimer r.2 = nextTimer m
  ∧ onceTerminated r.2
    = (if r.1 && bool_decide (target = TERMINATED) then []
       else onceTerminated m).
Proof.
  unfold transitionTo.
  destruct (canTransitionTo m target) eqn:Hc; cbn [negb fst snd andb].
  - pose proof (executeTransition_fields
                  (mkTransition (currentState m) target now rsn md) m) as H.
    cbn [to] in H. destruct H as (H1 & _ & H3 & H4 & H5 & H6 & H7 & H8).
    repeat split; try done.
    + rewrite H4. by repeat case_decide; case_bool_decide.
    + rewrite H5. by repeat case_decide; case_bool_decide.
    + rewrite H6. by repeat case_decide; case_bool_decide.
    + rewrite H8. by repeat case_decide; case_bool_decide.
  - repeat split.
Qed.

Lemma forceTransitionTo_fields now target rsn md m :
  let m' := forceTransitionTo now target rsn md m in
  currentState m' = target
  ∧ policy m' = policy m
  ∧ retryCount m' = (if decide (target = RUNNING) then 0 else retryCount m)
  ∧ checkpointTimer m'
    = (if decide (target = TERMINATED) then false else checkpointTimer m)
  ∧ timers m'
    = (if decide (target = TERMINATED)
       then clearAll (onceTerminated m) (timers m) else timers m)
  ∧ nextTimer m' = nextTimer m
  ∧ onceTerminated m'
    = (if decide (target = TERMINATED) then [] else onceTerminated m).
Proof.
  unfold forceTransitionTo.
  match goal with |- context [executeTransition ?tr m] =>
    pose proof (executeTransition_fields tr m) as H end.
  cbn [to] in H. destruct H as (H1 & _ & H3 & H4 & H5 & H6 & H7 & H8).
  repeat split; done.
Qed.

(** X1. TERMINATED is final for the validated interface: in that state
    transitionTo returns false for every target, and no call other than
    forceTransitionTo and restoreFromCheckpoint (handleError,
    gracefulShutdown, createCheckpoint, updatePolicy, destroy, a retry or
    force timer, a checkpoint tick) changes the state. *)
Theorem terminated_is_final now op m :
  currentState m = TERMINATED ->
  forces op = false ->
  currentState (exec now op m) = TERMINATED
  ∧ (forall target rsn md, (transitionTo now target rsn md m).1 = false).
Proof.
  intros Hs Hf. split.
  2:{ intros target rsn md.
      destruct (transitionTo_fields now target rsn md m) as (H1 & _).
      rewrite H1. by apply canTransitionTo_TERMINATED. }
  assert (Hno : forall now' target rsn md m',
             currentState m' = TERMINATED ->
             currentState (transitionTo now' target rsn md m').2 = TERMINATED).
  { intros now' target rsn md m' Hm'.
    destruct (transitionTo_fields now' target rsn md m') as (H1 & H2 & _).
    rewrite H2, H1, canTransitionTo_TERMINATED by done. done. }
  destruct op; try discriminate Hf; cbn [exec].
  - by apply Hno.
  - unfold handleError. cbn [currentState set_retryCount].
    rewrite Hs. rewrite bool_decide_eq_true_2 by done.
    rewrite andb_false_r. by apply Hno.
  - unfold gracefulShutdown. rewrite Hs. done.
  - done.
  - done.
  - done.
  - done.
  - unfold destroy, stopCheckpointing. by destruct (checkpointTimer m).
  - unfold fireTimer. destruct (List.find _ _) as [t|]; [|done].
    destruct (timerKind t).
    + by apply Hno.
    + by destruct (forceTransitionTo_fields now TERMINATED
        "Forceful termination after graceful shutdown timeout" None
        (clearTimeout id m)) as (H1 & _).
  - unfold checkpointTick. rewrite Hs.
    by destruct (checkpointTimer m).
Qed.

Lemma terminated_is_final_witness :
  currentState terminated = TERMINATED
  ∧ currentState (exec 9 (OpHandleError "late") terminated) = TERMINATED.
Proof.
  split; [reflexivity|].
  exact (proj1 (terminated_is_final 9 (OpHandleError "late") terminated
                  eq_refl eq_refl)).
Defined.

Lemma handleError_timers now message m :
  timers (handleError now message m)
  = (if willRetry m
     then timers m ++ [mkTimer (nextTimer m) RetryTimer
                         (retryDelayMs (policy m) * 2 ^ retryCount m)]
     else timers m).
Proof.
  unfold handleError, willRetry.
  set (m1 := set_retryCount (retryCount m + 1) m).
  change (retryCount m1) with (retryCount m + 1).
  change (policy m1) with (policy m).
  change (currentState m1) with (currentState m).
  destruct ((retryCount m + 1 <=? maxRetries (policy m))
            && autoRestart (policy m)
            && negb (bool_decide (currentState m = TERMINATED))).
  - match goal with |- context [transitionTo now ERROR ?r ?md m1] =>
      destruct (transitionTo_fields now ERROR r md m1)
        as (_ & _ & H3 & H4 & _ & H6 & H7 & _);
      set (m2 := (transitionTo now ERROR r md m1).2) in * end.
    rewrite andb_false_r in H4, H6.
    cbn [setTimeout snd timers]. rewrite H3, H4, H6, H7. cbn.
    by rewrite Z.add_simpl_r.
  - match goal with |- context [transitionTo now ERROR ?r ?md m1] =>
      destruct (transitionTo_fields now ERROR r md m1)
        as (_ & _ & _ & _ & _ & H6 & _) end.
    rewrite andb_false_r in H6. by rewrite H6.
Qed.

(** X2. handleError always raises the retry counter by one. It moves to
    ERROR exactly when ERROR is allowed from the current state and,
    independently of that, schedules one retry timer exactly when the raised
    counter is within maxRetries, autoRestart is set and the state is not
    TERMINATED; the delay is retryDelayMs times 2 to the number of earlier
    errors. *)
Theorem handleError_backoff now message m :
  let m' := handleError now message m in
  retryCount m' = retryCount m + 1
  ∧ currentState m'
    = (if canTransitionTo m ERROR then ERROR else currentState m)
  ∧ timers m'
    = (if willRetry m
       then timers m ++ [mkTimer (nextTimer m) RetryTimer
                           (retryDelayMs (policy m) * 2 ^ retryCount m)]
       else timers m).
Proof.
  unfold handleError, willRetry.
  set (m1 := set_retryCount (retryCount m + 1) m).
  change (retryCount m1) with (retryCount m + 1).
  change (policy m1) with (policy m).
  change (currentState m1) with (currentState m).
  destruct ((retryCount m + 1 <=? maxRetries (policy m))
            && autoRestart (policy m)
            && negb (bool_decide (currentState m = TERMINATED))).
  - match goal with |- context [transitionTo now ERROR ?r ?md m1] =>
      destruct (transitionTo_fields now ERROR r md m1)
        as (H1 & H2 & H3 & H4 & _ & H6 & H7 & _);
      set (m2 := (transitionTo now ERROR r md m1).2) in * end.
    rewrite andb_false_r in H4, H6.
    cbn [setTimeout snd retryCount currentState timers].
    rewrite H2, H1, H3, H4, H6, H7. cbn.
    by rewrite Z.add_simpl_r.
  - match goal with |- context [transitionTo now ERROR ?r ?md m1] =>
      destruct (transitionTo_fields now ERROR r md m1)
        as (H1 & H2 & H3 & H4 & _ & H6 & H7 & _) end.
    rewrite andb_false_r in H4, H6.
    by rewrite H2, H1, H4, H6.
Qed.

(** X3. A successful transition to RUNNING resets the retry counter, so
    the next error counts as the first: its retry (scheduled when maxRetries
    is at least 1 and autoRestart is set) has the base delay retryDelayMs. *)
Theorem retry_budget_restored now rsn md later message m :
  (transitionTo now RUNNING rsn md m).1 = true ->
  let m1 := (transitionTo now RUNNING rsn md m).2 in
  retryCount m1 = 0
  ∧ timers (handleError later message m1)
    = (if (1 <=? maxRetries (policy m)) && autoRestart (policy m)
       then timers m ++ [mkTimer (nextTimer m) RetryTimer
                           (retryDelayMs (policy m))]
       else timers m).
Proof.
  intros Hok m1.
  destruct (transitionTo_fields now RUNNING rsn md m)
    as (_ & H2 & H3 & H4 & _ & H6 & H7 & _).
  fold m1 in H2, H3, H4, H6, H7. rewrite Hok in *.
  cbn in H2, H4, H6. split; [exact H4|].
  rewrite (handleError_timers later message m1).
  unfold willRetry. rewrite H2, H3, H4, H6, H7.
  rewrite (bool_decide_eq_false_2 (RUNNING = TERMINATED)) by done.
  cbn [negb]. rewrite andb_true_r. change (0 + 1) with 1.
  change (2 ^ 0) with 1. by rewrite Z.mul_1_r.
Qed.

Lemma retry_budget_restored_witness :
  (transitionTo 5 RUNNING None None
     (run [(1, OpTransitionTo INITIALIZING None None)] (new noOverrides))).1
  = true
  ∧ retryCount
      (transitionTo 5 RUNNING None None
         (run [(1, OpTransitionTo INITIALIZING None None)] (new noOverrides))).2
    = 0.
Proof.
  assert (H : (transitionTo 5 RUNNING None None
                 (run [(1, OpTransitionTo INITIALIZING None None)]
                      (new noOverrides))).1 = true)
    by (vm_compute; reflexivity).
  split; [exact H|].
  exact (proj1 (retry_budget_restored 5 None None 6 "boom" _ H)).
Defined.


Lemma gracefulShutdown_fields now rsn m :
  let m' := gracefulShutdown now rsn m in
  currentState m'
  = (if canTransitionTo m TERMINATING then TERMINATING else currentState m)
  ∧ checkpointTimer m' = checkpointTimer m
  ∧ policy m' = policy m.
Proof.
  unfold gracefulShutdown.
  destruct (bool_decide (currentState m = TERMINATED)
            || bool_decide (currentState m = TERMINATING)) eqn:Hs.
  - unfold canTransitionTo.
    apply orb_true_iff in Hs as [Hs|Hs]; apply bool_decide_eq_true in Hs;
      by rewrite Hs.
  - match goal with |- context [transitionTo now TERMINATING ?r ?md m] =>
      destruct (transitionTo_fields now TERMINATING r md m)
        as (H1 & H2 & H3 & _ & H5 & _ & _ & _);
      set (m1 := (transitionTo now TERMINATING r md m).2) in * end.
    rewrite andb_false_r in H5.
    cbn [setTimeout currentState checkpointTimer policy set_onceTerminated].
    by rewrite H2, H1, H3, H5.
Qed.


Lemma run_snoc ops now op m :
  run (ops ++ [(now, op)]) m = exec now op (run ops m).
Proof. unfold run. by rewrite foldl_app. Qed.



(** X5. createCheckpoint leaves the state and the retry counter as they
    are and adds one record to the history: getStatistics then counts one
    more state change and one more checkpoint, and one more error exactly
    when the checkpoint is taken in ERROR. *)
Theorem createCheckpoint_statistics now later m :
  let s := getStatistics later m in
  let s' := getStatistics later (createCheckpoint now m).2 in
  st_currentState s' = st_currentState s
  ∧ st_retryCount s' = st_retryCount s
  ∧ st_stateChanges s' = S (st_stateChanges s)
  ∧ st_checkpointCount s' = S (st_checkpointCount s)
  ∧ st_errorCount s'
    = (if bool_decide (currentState m = ERROR) then S (st_errorCount s)
       else st_errorCount s).
Proof.
  cbn [getStatistics createCheckpoint snd emit set_history stateHistory
       currentState retryCount st_currentState st_retryCount st_stateChanges
       st_checkpointCount st_errorCount].
  repeat split.
  - rewrite length_app. cbn. lia.
  - rewrite List.filter_app, length_app.
    cbn [List.filter]. unfold hasCheckpointMark at 2. cbn [metadata].
    unfold mbind, option_bind.
    rewrite lookup_insert_ne by done. rewrite lookup_insert_ne by done.
    rewrite lookup_insert_eq. cbn. lia.
  - rewrite List.filter_app, length_app. cbn [List.filter to].
    case_bool_decide; cbn; lia.
Qed.

Lemma total_map_set k d (acc : list (AgentState * Z)) :
  total (map_set k (default 0 (map_get k acc) + d) acc) = total acc + d.
Proof.
  unfold total. induction acc as [|[k' v] acc IH]; cbn.
  - lia.
  - case_decide; cbn; [lia|]. rewrite IH. lia.
Qed.

Lemma stateDurations_total h acc :
  total (stateDurations h acc)
  = total acc + (default 0 (timestamp <$> last h)
                 - default 0 (timestamp <$> head h)).
Proof.
  revert acc. induction h as [|c h IH]; intros acc.
  - change (total acc = total acc + (0 - 0)). lia.
  - destruct h as [|n h].
    + change (total acc = total acc + (timestamp c - timestamp c)). lia.
    + change (stateDurations (c :: n :: h) acc)
        with (stateDurations (n :: h)
                (map_set (to c)
                   (default 0 (map_get (to c) acc)
                    + (timestamp n - timestamp c)) acc)).
      rewrite IH, total_map_set. rewrite last_cons_cons. cbn [head fmap
        option_fmap option_map default id]. lia.
Qed.

(** X6. The durations getStatistics reports per state add up to the time
    between the first and the last record of the history (0 for an empty
    history): the time since the last record is in none of them. *)
Theorem stateDurations_span now m :
  total (st_stateDurations (getStatistics now m))
  = default 0 (timestamp <$> last (stateHistory m))
    - default 0 (timestamp <$> head (stateHistory m)).
Proof.
  cbn [getStatistics st_stateDurations]. rewrite stateDurations_total.
  reflexivity.
Qed.

Lemma find_app_none {A} (p : A -> bool) (l1 l2 : list A) :
  Forall (fun x => p x = false) l1 ->
  List.find p (l1 ++ l2) = List.find p l2.
Proof.
  induction 1 as [|x l1 Hx _ IH]; [done|]. cbn. by rewrite Hx.
Qed.

Lemma find_none_Forall {A} (p : A -> bool) (l : list A) :
  Forall (fun x => p x = false) l -> List.find p l = None.
Proof. induction 1 as [|x l Hx _ IH]; [done|]. cbn. by rewrite Hx. Qed.

(** X7. restoreFromCheckpoint without an argument restores the last
    record of the history that is marked as a checkpoint: it returns, the
    state becomes that record's target, and one forced record is appended
    (to the history as getLastCheckpoint left it, reversed). *)
Theorem restore_latest_checkpoint now m h cp rest :
  stateHistory m = h ++ cp :: rest ->
  isCheckpoint cp = true ->
  Forall (fun t => isCheckpoint t = false) rest ->
  let r := restoreFromCheckpoint now None m in
  r.1 = Returned
  ∧ currentState r.2 = to cp
  ∧ stateHistory r.2
    = rev (stateHistory m) ++ [restoreEntry now (currentState m) cp].
Proof.
  intros Hh Hcp Hrest.
  assert (Hfind : List.find isCheckpoint (rev (stateHistory m)) = Some cp).
  { rewrite Hh, rev_app_distr. cbn [rev]. rewrite <- app_assoc.
    rewrite find_app_none by (by apply List.Forall_rev).
    cbn [List.find app]. by rewrite Hcp. }
  unfold restoreFromCheckpoint, getLastCheckpoint.
  cbn [stateHistory set_history]. rewrite Hfind. cbn [fst snd].
  match goal with |- context [forceTransitionTo now ?t ?r ?md ?m0] =>
    destruct (forceTransitionTo_fields now t r md m0) as (H1 & _);
    pose proof (executeTransition_fields
      (mkTransition (currentState m0) t now (Some ("FORCED: " +:+ r))
         (Some (<["forced" := MBool true]> (default ∅ md)))) m0)
      as (_ & H2 & _) end.
  repeat split; [exact H1|]. exact H2.
Qed.

Lemma restore_latest_checkpoint_witness :
  isCheckpoint (createCheckpoint 3 checkpointed).1 = true
  ∧ currentState (restoreFromCheckpoint 9 None checkpointed).2 = RUNNING.
Proof.
  assert (H1 : stateHistory checkpointed
               = [mkTransition CREATED INITIALIZING 1 None None;
                  mkTransition INITIALIZING RUNNING 2 None None]
                 ++ (mkTransition RUNNING RUNNING 3 (Some "Checkpoint")
                       (Some (<["uptime" := MNum 0]>
                                (<["retryCount" := MNum 0]>
                                   (<["checkpoint" := MBool true]> ∅)))))
                 :: []) by (vm_compute; reflexivity).
  assert (H2 : isCheckpoint
                 (mkTransition RUNNING RUNNING 3 (Some "Checkpoint")
                    (Some (<["uptime" := MNum 0]>
                             (<["retryCount" := MNum 0]>
                                (<["checkpoint" := MBool true]> ∅)))))
               = true) by (vm_compute; reflexivity).
  split; [vm_compute; reflexivity|].
  exact (proj1 (proj2 (restore_latest_checkpoint 9 checkpointed _ _ _
                         H1 H2 (List.Forall_nil _)))).
Defined.

(** X8. Without a checkpoint in the history restoreFromCheckpoint
    throws; the state is unchanged, the history is left reversed, and a
    second failing call puts it back in order. *)
Theorem restore_without_checkpoint now later m :
  Forall (fun t => isCheckpoint t = false) (stateHistory m) ->
  let r := restoreFromCheckpoint now None m in
  r.1 = Threw "No checkpoint available for restoration"
  ∧ currentState r.2 = currentState m
  ∧ stateHistory r.2 = rev (stateHistory m)
  ∧ (restoreFromCheckpoint later None r.2).2 = m.
Proof.
  intros Hno.
  assert (Hrev : forall m', Forall (fun t => isCheckpoint t = false)
                              (stateHistory m') ->
            restoreFromCheckpoint now None m'
            = (Threw "No checkpoint available for restoration",
               set_history (rev (stateHistory m')) m')
            ∧ restoreFromCheckpoint later None m'
            = (Threw "No checkpoint available for restoration",
               set_history (rev (stateHistory m')) m')).
  { intros m' Hm'. unfold restoreFromCheckpoint, getLastCheckpoint.
    cbn [stateHistory set_history].
    rewrite find_none_Forall; [done|]. by apply List.Forall_rev. }
  destruct (Hrev m Hno) as [-> _]. cbn [fst snd].
  repeat split.
  destruct (Hrev (set_history (rev (stateHistory m)) m)) as [_ ->].
  - cbn [stateHistory set_history]. by apply List.Forall_rev.
  - cbn [snd stateHistory set_history]. rewrite rev_involutive.
    by destruct m.
Qed.

Lemma restore_without_checkpoint_witness :
  Forall (fun t => isCheckpoint t = false) (stateHistory (new noOverrides))
  ∧ (restoreFromCheckpoint 9 None (new noOverrides)).1
    = Threw "No checkpoint available for restoration".
Proof.
  assert (H : Forall (fun t => isCheckpoint t = false)
                     (stateHistory (new noOverrides)))
    by apply List.Forall_nil.
  split; [exact H|].
  exact (proj1 (restore_without_checkpoint 9 10 (new noOverrides) H)).
Defined.

Lemma clearAll_sub ids ts t :
  t ∈ clearAll ids ts -> t ∈ ts ∧ timerId t ∉ ids.
Proof.
  revert ts. induction ids as [|a ids IH]; intros ts; cbn.
  - intros H. split; [done|]. apply not_elem_of_nil.
  - intros H. apply IH in H as [H1 H2].
    apply list_elem_of_filter in H1 as [H1 H3].
    split; [done|]. apply not_elem_of_cons. done.
Qed.

Lemma clearAll_Forall (P : Timer -> Prop) ids ts :
  Forall P ts -> Forall P (clearAll ids ts).
Proof.
  rewrite !Forall_forall. intros H t Ht. apply clearAll_sub in Ht as [Ht _].
  by apply H.
Qed.

Lemma transitionTo_timersFresh now target rsn md m :
  timersFresh m -> timersFresh (transitionTo now target rsn md m).2.
Proof.
  unfold timersFresh.
  destruct (transitionTo_fields now target rsn md m)
    as (_ & _ & _ & _ & _ & H6 & H7 & _). rewrite H6, H7.
  destruct (_ && _); [|done]. apply clearAll_Forall.
Qed.

Lemma forceTransitionTo_timersFresh now target rsn md m :
  timersFresh m -> timersFresh (forceTransitionTo now target rsn md m).
Proof.
  unfold timersFresh.
  destruct (forceTransitionTo_fields now target rsn md m)
    as (_ & _ & _ & _ & H6 & H7 & _). rewrite H6, H7.
  case_decide; [|done]. apply clearAll_Forall.
Qed.

Lemma setTimeout_timersFresh k d m :
  timersFresh m -> timersFresh (setTimeout k d m).2.
Proof.
  unfold timersFresh. cbn. intros H. apply Forall_app. split.
  - eapply Forall_impl; [exact H|]. cbn. lia.
  - repeat constructor.
Qed.

Lemma clearTimeout_timersFresh id m :
  timersFresh m -> timersFresh (clearTimeout id m).
Proof.
  unfold timersFresh. cbn. intros H.
  apply Forall_forall. intros t Ht.
  apply list_elem_of_filter in Ht as [_ Ht].
  revert t Ht. by apply Forall_forall.
Qed.

Lemma exec_timersFresh now op m :
  timersFresh m -> timersFresh (exec now op m).
Proof.
  intros H. destruct op; cbn [exec]; try done.
  - by apply transitionTo_timersFresh.
  - by apply forceTransitionTo_timersFresh.
  - unfold handleError. destruct (_ && _ && _).
    + apply setTimeout_timersFresh. by apply transitionTo_timersFresh.
    + by apply transitionTo_timersFresh.
  - unfold gracefulShutdown. destruct (_ || _); [done|].
    match goal with |- context [setTimeout ?k ?d ?m1] =>
      change (timersFresh (setTimeout k d m1).2) end.
    apply setTimeout_timersFresh. by apply transitionTo_timersFresh.
  - unfold restoreFromCheckpoint.
    destruct checkpoint as [cp|]; cbn [getLastCheckpoint].
    + by apply forceTransitionTo_timersFresh.
    + destruct (List.find _ _) as [cp|]; [|done].
      by apply forceTransitionTo_timersFresh.
  - unfold destroy, stopCheckpointing. by destruct (checkpointTimer m).
  - unfold fireTimer. destruct (List.find _ _) as [t|]; [|done].
    destruct (timerKind t).
    + apply transitionTo_timersFresh. by apply clearTimeout_timersFresh.
    + apply forceTransitionTo_timersFresh. by apply clearTimeout_timersFresh.
  - unfold checkpointTick. destruct (checkpointTimer m); [|done].
    by case_bool_decide.
Qed.

Lemma new_fields over :
  timers (new over) = [] ∧ onceTerminated (new over) = []
  ∧ currentState (new over) = CREATED ∧ retryCount (new over) = 0.
Proof. unfold new, startCheckpointing. by destruct (_ <? _). Qed.

Lemma run_timersFresh over ops : timersFresh (run ops (new over)).
Proof.
  induction ops as [|[t o] ops IH] using rev_ind.
  - change (timersFresh (new over)). unfold timersFresh.
    destruct (new_fields over) as (-> & _). constructor.
  - rewrite run_snoc. by apply exec_timersFresh.
Qed.

Lemma find_fresh id k d ts :
  Forall (fun t => (timerId t < id)%nat) ts ->
  List.find (fun t => bool_decide (timerId t = id)) (ts ++ [mkTimer id k d])
  = Some (mkTimer id k d).
Proof.
  intros H. rewrite find_app_none.
  - cbn. by rewrite bool_decide_eq_true_2.
  - eapply Forall_impl; [exact H|]. cbn. intros t Ht.
    apply bool_decide_eq_false. lia.
Qed.

(** X9. In a state a manager reaches, other than TERMINATED and
    TERMINATING, gracefulShutdown moves to TERMINATING when that is allowed
    (it is not from CREATED and INITIALIZING, where the state stays) and in
    either case arms one force timer of gracefulShutdownMs; when that timer
    fires the manager is TERMINATED. *)
Theorem gracefulShutdown_enforced over ops now rsn later :
  let m := run ops (new over) in
  let m' := gracefulShutdown now rsn m in
  currentState m ≠ TERMINATED ->
  currentState m ≠ TERMINATING ->
  currentState m'
  = (if canTransitionTo m TERMINATING then TERMINATING else currentState m)
  ∧ timers m'
    = timers m ++ [mkTimer (nextTimer m) ForceTimer
                     (gracefulShutdownMs (policy m))]
  ∧ currentState (fireTimer later (nextTimer m) m') = TERMINATED.
Proof.
  intros m m' H1 H2.
  destruct (gracefulShutdown_fields now rsn m) as (Hs & _).
  split; [exact Hs|].
  assert (Ht : timers m'
               = timers m ++ [mkTimer (nextTimer m) ForceTimer
                                (gracefulShutdownMs (policy m))]).
  { unfold m', gracefulShutdown.
    rewrite bool_decide_eq_false_2 by done.
    rewrite bool_decide_eq_false_2 by done. cbn [orb].
    match goal with |- context [transitionTo now TERMINATING ?r ?md m] =>
      destruct (transitionTo_fields now TERMINATING r md m)
        as (_ & _ & H3 & _ & _ & H6 & H7 & _);
      set (m1 := (transitionTo now TERMINATING r md m).2) in * end.
    rewrite andb_false_r in H6.
    cbn [setTimeout timers set_onceTerminated]. by rewrite H3, H6, H7. }
  split; [exact Ht|].
  unfold fireTimer. rewrite Ht.
  rewrite find_fresh by apply run_timersFresh. cbn [timerKind].
  by destruct (forceTransitionTo_fields later TERMINATED
       "Forceful termination after graceful shutdown timeout" None
       (clearTimeout (nextTimer m) m')) as (-> & _).
Qed.

Lemma gracefulShutdown_enforced_witness :
  currentState (run [] (new noOverrides)) ≠ TERMINATED
  ∧ currentState (run [] (new noOverrides)) ≠ TERMINATING
  ∧ currentState (fireTimer 9 0 (gracefulShutdown 1 None (new noOverrides)))
    = TERMINATED.
Proof.
  assert (H1 : currentState (run [] (new noOverrides)) ≠ TERMINATED)
    by (by vm_compute).
  assert (H2 : currentState (run [] (new noOverrides)) ≠ TERMINATING)
    by (by vm_compute).
  split; [exact H1|]. split; [exact H2|].
  exact (proj2 (proj2 (gracefulShutdown_enforced noOverrides [] 1 None 9
                         H1 H2))).
Defined.

Lemma forceCovered_clearTimeout id m :
  forceCovered m -> forceCovered (clearTimeout id m).
Proof.
  unfold forceCovered. cbn [clearTimeout set_timers timers onceTerminated].
  intros H. rewrite Forall_forall in H. apply Forall_forall. intros t Ht Hk.
  apply list_elem_of_filter in Ht as [_ Ht]. by apply H.
Qed.

Lemma clearAll_uncovered ids ts :
  Forall (fun t => timerKind t = ForceTimer -> timerId t ∈ ids) ts ->
  Forall (fun t => timerKind t ≠ ForceTimer) (clearAll ids ts).
Proof.
  rewrite !Forall_forall. intros H t Ht Hk.
  apply clearAll_sub in Ht as [Ht Hn]. apply Hn. by apply H.
Qed.

(** The invariant of runs without destroy. *)
Lemma settledForce_exec now op m :
  destroys op = false ->
  forceCovered m
  ∧ (currentState m = TERMINATED ->
     Forall (fun t => timerKind t ≠ ForceTimer) (timers m)) ->
  forceCovered (exec now op m)
  ∧ (currentState (exec now op m) = TERMINATED ->
     Forall (fun t => timerKind t ≠ ForceTimer) (timers (exec now op m))).
Proof.
  intros Hd [Hc Ht].
  assert (Htr : forall now' target rsn md m0,
    forceCovered m0
    ∧ (currentState m0 = TERMINATED ->
       Forall (fun t => timerKind t ≠ ForceTimer) (timers m0)) ->
    forceCovered (transitionTo now' target rsn md m0).2
    ∧ (currentState (transitionTo now' target rsn md m0).2 = TERMINATED ->
       Forall (fun t => timerKind t ≠ ForceTimer)
              (timers (transitionTo now' target rsn md m0).2))).
  { intros now' target rsn md m0 [Hc0 Ht0]. unfold forceCovered.
    destruct (transitionTo_fields now' target rsn md m0)
      as (_ & H2 & _ & _ & _ & H6 & _ & H8). rewrite H2, H6, H8.
    destruct (transitionTo now' target rsn md m0).1; cbn [andb].
    - case_bool_decide as Hx.
      + split; [|intros _]; [|by apply clearAll_uncovered].
        eapply Forall_impl; [by apply clearAll_uncovered|].
        cbn. intros t Hn Hk. done.
      + split; [done|]. intros ->. done.
    - done. }
  assert (Hfo : forall now' target rsn md m0,
    forceCovered m0 ->
    forceCovered (forceTransitionTo now' target rsn md m0)
    ∧ (currentState (forceTransitionTo now' target rsn md m0) = TERMINATED ->
       Forall (fun t => timerKind t ≠ ForceTimer)
              (timers (forceTransitionTo now' target rsn md m0)))).
  { intros now' target rsn md m0 Hc0. unfold forceCovered.
    destruct (forceTransitionTo_fields now' target rsn md m0)
      as (H1 & _ & _ & _ & H6 & _ & H8). rewrite H1, H6, H8.
    case_decide as Hx.
    - split; [|intros _]; [|by apply clearAll_uncovered].
      eapply Forall_impl; [by apply clearAll_uncovered|].
      cbn. intros t Hn Hk. done.
    - done. }
  assert (Hcl : forall id m0,
    forceCovered m0
    ∧ (currentState m0 = TERMINATED ->
       Forall (fun t => timerKind t ≠ ForceTimer) (timers m0)) ->
    forceCovered (clearTimeout id m0)
    ∧ (currentState (clearTimeout id m0) = TERMINATED ->
       Forall (fun t => timerKind t ≠ ForceTimer)
              (timers (clearTimeout id m0)))).
  { intros id m0 [Hc0 Ht0]. split; [by apply forceCovered_clearTimeout|].
    cbn. intros Hs. apply Forall_forall.
    intros t Hin. apply list_elem_of_filter in Hin as [_ Hin]. revert t Hin.
    apply Forall_forall. by apply Ht0. }
  destruct op as [target rsn md|target rsn md|message|rsn| |checkpoint|
                  pol| | | |id| ];
    try discriminate Hd; cbn [exec];
    [| | | |exact (conj Hc Ht)| |exact (conj Hc Ht)|exact (conj Hc Ht)
     |exact (conj Hc Ht)| |].
  - by apply Htr.
  - by apply Hfo.
  - unfold handleError.
    set (m1 := set_retryCount (retryCount m + 1) m).
    assert (H1 : forceCovered m1
                 ∧ (currentState m1 = TERMINATED ->
                    Forall (fun t => timerKind t ≠ ForceTimer) (timers m1)))
      by done.
    destruct (_ && _ && _) eqn:Hsr.
    + match goal with |- context [transitionTo now ERROR ?r ?md m1] =>
        destruct (Htr now ERROR r md m1 H1) as [Hc2 Ht2];
        destruct (transitionTo_fields now ERROR r md m1) as (_ & Hs2 & _);
        set (m2 := (transitionTo now ERROR r md m1).2) in * end.
      unfold forceCovered. cbn [setTimeout snd timers onceTerminated
                                 currentState].
      split.
      * apply Forall_app. split; [done|]. by repeat constructor.
      * intros Hs. apply Forall_app. split; [by apply Ht2|].
        by repeat constructor.
    + by apply Htr.
  - unfold gracefulShutdown.
    destruct (_ || _) eqn:Hg; [done|].
    apply orb_false_iff in Hg as [Hg1 Hg2].
    apply bool_decide_eq_false in Hg1, Hg2.
    match goal with |- context [transitionTo now TERMINATING ?r ?md m] =>
      destruct (Htr now TERMINATING r md m (conj Hc Ht)) as [Hc2 Ht2];
      destruct (transitionTo_fields now TERMINATING r md m) as (_ & Hs2 & _);
      set (m1 := (transitionTo now TERMINATING r md m).2) in * end.
    unfold forceCovered.
    cbn [setTimeout timers onceTerminated currentState set_onceTerminated].
    split.
    + apply Forall_app. split.
      * eapply Forall_impl; [exact Hc2|]. cbn. intros t Hi Hk.
        apply elem_of_app. left. by apply Hi.
      * repeat constructor. cbn. intros _. apply elem_of_app. right.
        apply list_elem_of_singleton. done.
    + rewrite Hs2. destruct (transitionTo _ _ _ _ _).1; done.
  - unfold restoreFromCheckpoint.
    destruct checkpoint as [cp|]; cbn [getLastCheckpoint].
    + by apply Hfo.
    + destruct (List.find _ _) as [cp|]; [|exact (conj Hc Ht)]. by apply Hfo.
  - unfold fireTimer. destruct (List.find _ _) as [t|]; [|done].
    destruct (timerKind t).
    + apply Htr. by apply Hcl.
    + apply Hfo. by apply Hcl.
  - unfold checkpointTick. destruct (checkpointTimer m); [|done].
    by case_bool_decide.
Qed.

(** When no call overlaps another: in a run without destroy, a manager
    that is TERMINATED has no force timer pending. *)
Lemma run_terminated_unforced over ops :
  forallb (fun o => negb (destroys o.2)) ops = true ->
  currentState (run ops (new over)) = TERMINATED ->
  Forall (fun t => timerKind t ≠ ForceTimer) (timers (run ops (new over))).
Proof.
  intros Hd.
  enough (forceCovered (run ops (new over))
          ∧ (currentState (run ops (new over)) = TERMINATED ->
             Forall (fun t => timerKind t ≠ ForceTimer)
                    (timers (run ops (new over))))) as [_ H] by exact H.
  induction ops as [|[t o] ops IH] using rev_ind.
  - change (run [] (new over)) with (new over). unfold forceCovered.
    destruct (new_fields over) as (-> & _ & -> & _).
    split; [constructor|done].
  - rewrite forallb_app in Hd. apply andb_true_iff in Hd as [Hd1 Hd2].
    cbn in Hd2. rewrite andb_true_r in Hd2. apply negb_true_iff in Hd2.
    rewrite run_snoc. apply settledForce_exec; [done|]. by apply IH.
Qed.

(** ** Calls that overlap *)

Lemma settles_same m m' :
  timers m' = timers m -> onceTerminated m' = onceTerminated m ->
  currentState m' = currentState m ->
  forceCovered m -> settles m m'.
Proof.
  intros Ht Ho Hs H. unfold settles, forceCovered. rewrite Ht, Ho, Hs.
  split; [done|]. by intros Hne He.
Qed.

Lemma settles_refl m : forceCovered m -> settles m m.
Proof. by apply settles_same. Qed.

Lemma transitionTo_settles now target rsn md m :
  forceCovered m -> settles m (transitionTo now target rsn md m).2.
Proof.
  intros Hc. unfold settles, forceCovered, unforced.
  destruct (transitionTo_fields now target rsn md m)
    as (_ & H2 & _ & _ & _ & H6 & _ & H8). rewrite H2, H6, H8.
  destruct (transitionTo now target rsn md m).1; cbn [andb].
  - case_bool_decide as Hx.
    + split; [|intros _ _]; [|by apply clearAll_uncovered].
      eapply Forall_impl; [by apply clearAll_uncovered|].
      cbn. intros t Hn Hk. done.
    + split; [done|]. intros _ ->. done.
  - split; [done|]. intros Hne He. done.
Qed.

Lemma forceTransitionTo_settles now target rsn md m :
  forceCovered m -> settles m (forceTransitionTo now target rsn md m).
Proof.
  intros Hc. unfold settles, forceCovered, unforced.
  destruct (forceTransitionTo_fields now target rsn md m)
    as (H1 & _ & _ & _ & H6 & _ & H8). rewrite H1, H6, H8.
  case_decide as Hx.
  - split; [|intros _ _]; [|by apply clearAll_uncovered].
    eapply Forall_impl; [by apply clearAll_uncovered|].
    cbn. intros t Hn Hk. done.
  - split; [done|]. intros _ ->. done.
Qed.

Lemma start_settles now op m :
  Overlap.callsDestroy (Overlap.Calls op) = false ->
  forceCovered m -> settles m (Overlap.start now op m).1.
Proof.
  intros Hd Hc.
  destruct op as [target rsn md|target rsn md|message|rsn| |checkpoint|
                  pol| | | |id| ];
    try discriminate Hd; cbn [Overlap.start exec fst].
  - by apply transitionTo_settles.
  - by apply forceTransitionTo_settles.
  - set (m1 := set_retryCount (retryCount m + 1) m).
    assert (H1 : forceCovered m1) by done.
    destruct (_ && _ && _); cbn [fst];
      apply (transitionTo_settles _ _ _ _ m1 H1).
  - destruct (_ || _); cbn [fst]; [by apply settles_refl|].
    by apply transitionTo_settles.
  - by apply settles_same.
  - destruct checkpoint as [cp|]; cbn [getLastCheckpoint].
    + by apply forceTransitionTo_settles.
    + destruct (List.find _ _) as [cp|]; cbn [fst].
      * destruct (forceTransitionTo_settles now (to cp)
                    "Restored from checkpoint"
                    (Some (<["restoredFrom" := MDate (timestamp cp)]> ∅))
                    (set_history (rev (stateHistory m)) m) Hc) as [H1 H2].
        split; [exact H1|exact H2].
      * by apply settles_same.
  - by apply settles_same.
  - by apply settles_refl.
  - by apply settles_refl.
  - unfold fireTimer. destruct (List.find _ _) as [t|]; [|by apply settles_refl].
    assert (H1 : forceCovered (clearTimeout id m))
      by by apply forceCovered_clearTimeout.
    destruct (timerKind t).
    + destruct (transitionTo_settles now INITIALIZING
                  (Some "Retry after error") None (clearTimeout id m) H1)
        as [H2 H3].
      split; [exact H2|exact H3].
    + destruct (forceTransitionTo_settles now TERMINATED
                  "Forceful termination after graceful shutdown timeout" None
                  (clearTimeout id m) H1) as [H2 H3].
      split; [exact H2|exact H3].
  - unfold checkpointTick. destruct (checkpointTimer m); [|by apply settles_refl].
    case_bool_decide; [by apply settles_same|by apply settles_refl].
Qed.

Lemma resume_covered c m :
  forceCovered m ->
  forceCovered (Overlap.resume c m) /\
  currentState (Overlap.resume c m) = currentState m.
Proof.
  intros Hc. destruct c as [| |cp]; cbn [Overlap.resume].
  - split; [|done]. unfold forceCovered. cbn.
    apply Forall_app. split; [done|]. by repeat constructor.
  - split; [|done]. unfold forceCovered. cbn.
    apply Forall_app. split.
    + eapply Forall_impl; [exact Hc|]. cbn. intros t Hi Hk.
      apply elem_of_app. left. by apply Hi.
    + repeat constructor. cbn. intros _. apply elem_of_app. right.
      by apply list_elem_of_singleton.
  - done.
Qed.

Lemma step_settles now st sys :
  Overlap.callsDestroy st = false ->
  forceCovered sys.1 -> settles sys.1 (Overlap.step now st sys).1.
Proof.
  intros Hd Hc. destruct st as [op|i]; cbn [Overlap.step].
  - pose proof (start_settles now op sys.1 Hd Hc) as H.
    by destruct (Overlap.start now op sys.1).
  - destruct (sys.2 !! i) as [c|]; [|by apply settles_refl].
    destruct (resume_covered c sys.1 Hc) as [H1 H2]. cbn [fst].
    split; [done|]. rewrite H2. by intros Hne He.
Qed.

Lemma overlap_steps_snoc l now st sys :
  Overlap.steps (l ++ [(now, st)]) sys
  = Overlap.step now st (Overlap.steps l sys).
Proof. unfold Overlap.steps. by rewrite foldl_app. Qed.

Lemma steps_covered over l :
  forallb (fun e : Z * Overlap.Step => negb (Overlap.callsDestroy e.2)) l = true ->
  forceCovered (Overlap.steps l (Overlap.boot over)).1.
Proof.
  induction l as [|[now st] l IH] using rev_ind; intros Hd.
  - change (forceCovered (new over)). unfold forceCovered.
    destruct (new_fields over) as (-> & _). constructor.
  - rewrite forallb_app in Hd. apply andb_true_iff in Hd as [Hd1 Hd2].
    cbn in Hd2. rewrite andb_true_r in Hd2. apply negb_true_iff in Hd2.
    rewrite overlap_steps_snoc. by apply step_settles, IH.
Qed.

Lemma transitionTo_retryCount now target rsn md m :
  0 <= retryCount m -> 0 <= retryCount (transitionTo now target rsn md m).2.
Proof.
  intros H. destruct (transitionTo_fields now target rsn md m)
    as (_ & _ & _ & -> & _). by destruct (_ && _).
Qed.

Lemma forceTransitionTo_retryCount now target rsn md m :
  0 <= retryCount m -> 0 <= retryCount (forceTransitionTo now target rsn md m).
Proof.
  intros H. destruct (forceTransitionTo_fields now target rsn md m)
    as (_ & _ & -> & _). by case_decide.
Qed.

Lemma start_retryCount now op m :
  0 <= retryCount m -> 0 <= retryCount (Overlap.start now op m).1.
Proof.
  intros H.
  destruct op as [target rsn md|target rsn md|message|rsn| |checkpoint|
                  pol| | | |id| ]; cbn [Overlap.start exec fst]; try done.
  - by apply transitionTo_retryCount.
  - by apply forceTransitionTo_retryCount.
  - destruct (_ && _ && _); cbn [fst]; apply transitionTo_retryCount;
      cbn; lia.
  - destruct (_ || _); cbn [fst]; [done|]. by apply transitionTo_retryCount.
  - destruct checkpoint as [cp|]; cbn [getLastCheckpoint].
    + by apply forceTransitionTo_retryCount.
    + destruct (List.find _ _) as [cp|]; cbn [fst]; [|done].
      by apply forceTransitionTo_retryCount.
  - unfold destroy, stopCheckpointing. by destruct (checkpointTimer m).
  - unfold fireTimer. destruct (List.find _ _) as [t|]; [|done].
    destruct (timerKind t).
    + by apply transitionTo_retryCount.
    + by apply forceTransitionTo_retryCount.
  - unfold checkpointTick. destruct (checkpointTimer m); [|done].
    by case_bool_decide.
Qed.

(** A call of [Lifecycle] is the call that no other call overlaps. *)
Lemma exec_unoverlapped now op m :
  0 <= retryCount m ->
  exec now op m
  = match Overlap.start now op m with
    | (m1, Some c) => Overlap.resume c m1
    | (m1, None) => m1
    end.
Proof.
  intros H.
  destruct op as [target rsn md|target rsn md|message|rsn| |checkpoint|
                  pol| | | |id| ]; cbn [Overlap.start exec]; try done.
  - unfold handleError.
    set (m1 := set_retryCount (retryCount m + 1) m).
    destruct (_ && _ && _); [|done]. cbn [Overlap.resume].
    match goal with |- context [transitionTo now ERROR ?r ?md m1] =>
      destruct (transitionTo_fields now ERROR r md m1)
        as (_ & _ & _ & H4 & _);
      set (m2 := (transitionTo now ERROR r md m1).2) in * end.
    rewrite andb_false_r in H4. unfold Overlap.scaled.
    replace (0 <=? retryCount m2 - 1) with true; [done|].
    symmetry. apply Z.leb_le. rewrite H4. cbn. lia.
  - unfold gracefulShutdown. by destruct (_ || _).
  - unfold restoreFromCheckpoint.
    destruct checkpoint as [cp|]; [done|].
    cbn [getLastCheckpoint]. by destruct (List.find _ _).
Qed.

Lemma unoverlapped_run ops : forall m,
  0 <= retryCount m ->
  Overlap.steps (Overlap.unoverlapped ops) (m, []) = (run ops m, []).
Proof.
  induction ops as [|[now op] ops IH]; intros m H; [done|].
  change (Overlap.steps (Overlap.unoverlapped ((now, op) :: ops)) (m, []))
    with (Overlap.steps (Overlap.unoverlapped ops)
            (Overlap.step now (Overlap.Resumes 0)
               (Overlap.step now (Overlap.Calls op) (m, [])))).
  change (run ((now, op) :: ops) m) with (run ops (exec now op m)).
  rewrite (exec_unoverlapped now op m H).
  pose proof (start_retryCount now op m H) as H1.
  cbn [Overlap.step fst snd].
  destruct (Overlap.start now op m) as [m1 [c|]]; cbn [fst snd] in *.
  - cbn. apply IH. destruct c; cbn; done.
  - cbn. by apply IH.
Qed.

Lemma unoverlapped_callsDestroy ops :
  forallb (fun e : Z * Overlap.Step => negb (Overlap.callsDestroy e.2))
          (Overlap.unoverlapped ops) = true ->
  forallb (fun o : Z * Op => negb (destroys o.2)) ops = true.
Proof.
  induction ops as [|[now op] ops IH]; [done|].
  change (Overlap.unoverlapped ((now, op) :: ops))
    with ([(now, Overlap.Calls op); (now, Overlap.Resumes 0)]
          ++ Overlap.unoverlapped ops).
  rewrite forallb_app. intros [H1 H2]%andb_true_iff.
  cbn [forallb]. rewrite (IH H2), andb_true_r.
  cbn in H1. rewrite andb_true_r in H1. by destruct op.
Qed.

(** X10. In a run without destroy and without a subscriber that throws,
    in which calls may overlap (the part of a call after its await is a step
    of its own, which runs after any number of further calls), every pending
    force timer is named by a registered once('terminated') handler, and a
    step that takes the manager from another state into TERMINATED leaves no
    force timer pending: the handlers clear every force timer armed until
    then. When no call overlaps another, a manager that is TERMINATED has no
    force timer pending. *)
Theorem terminated_clears_force_timers over l now st :
  forallb (fun e : Z * Overlap.Step => negb (Overlap.callsDestroy e.2)) l
  = true ->
  Overlap.callsDestroy st = false ->
  let sys := Overlap.steps l (Overlap.boot over) in
  let sys' := Overlap.step now st sys in
  forceCovered sys'.1
  ∧ (currentState sys.1 ≠ TERMINATED -> currentState sys'.1 = TERMINATED ->
     Forall (fun t => timerKind t ≠ ForceTimer) (timers sys'.1))
  ∧ ((exists ops, l = Overlap.unoverlapped ops) ->
     currentState sys.1 = TERMINATED ->
     Forall (fun t => timerKind t ≠ ForceTimer) (timers sys.1)).
Proof.
  intros Hl Hst sys sys'.
  destruct (step_settles now st sys Hst (steps_covered over l Hl)) as [H1 H2].
  split; [exact H1|]. split; [exact H2|].
  intros [ops ->] Hs. unfold sys in *.
  unfold Overlap.boot in *.
  rewrite unoverlapped_run in *
    by (destruct (new_fields over) as (_ & _ & _ & ->); done).
  apply run_terminated_unforced; [|exact Hs].
  by apply unoverlapped_callsDestroy.
Qed.

Lemma terminated_clears_force_timers_witness :
  let l := Overlap.unoverlapped
             [(1, OpTransitionTo INITIALIZING None None);
              (2, OpTransitionTo RUNNING None None);
              (3, OpGracefulShutdown None)] in
  let sys := Overlap.steps l (Overlap.boot noOverrides) in
  let sys' := Overlap.step 4 (Overlap.Calls (OpTransitionTo TERMINATED None None))
                sys in
  timers sys.1 = [mkTimer 0 ForceTimer 5000]
  ∧ currentState sys.1 = TERMINATING
  ∧ currentState sys'.1 = TERMINATED
  ∧ Forall (fun t => timerKind t ≠ ForceTimer) (timers sys'.1).
Proof.
  cbv zeta.
  set (l := Overlap.unoverlapped
              [(1, OpTransitionTo INITIALIZING None None);
               (2, OpTransitionTo RUNNING None None);
               (3, OpGracefulShutdown None)]).
  set (st := Overlap.Calls (OpTransitionTo TERMINATED None None)).
  assert (H1 : forallb (fun e : Z * Overlap.Step =>
                          negb (Overlap.callsDestroy e.2)) l = true)
    by (vm_compute; reflexivity).
  assert (H2 : Overlap.callsDestroy st = false) by reflexivity.
  assert (H3 : currentState (Overlap.steps l (Overlap.boot noOverrides)).1
               ≠ TERMINATED) by (by vm_compute).
  assert (H4 : currentState
                 (Overlap.step 4 st
                    (Overlap.steps l (Overlap.boot noOverrides))).1
               = TERMINATED) by (vm_compute; reflexivity).
  split; [vm_compute; reflexivity|]. split; [vm_compute; reflexivity|].
  split; [exact H4|].
  exact (proj1 (proj2 (terminated_clears_force_timers noOverrides l 4 st
                         H1 H2)) H3 H4).
Defined.

(** When the manager is told to terminate while a gracefulShutdown is
    suspended at its await, the shutdown arms its force timer afterwards:
    the manager is TERMINATED with a force timer pending, and when the timer
    fires a second transition into TERMINATED is recorded. *)
Lemma suspended_shutdown_arms_after_termination :
  let sys := Overlap.steps
               (Overlap.overlapped_shutdown ++
                [(3, Overlap.Calls (OpTransitionTo TERMINATED None None));
                 (3, Overlap.Resumes 0)])
               (Overlap.boot noOverrides) in
  let fired := Overlap.step 5003 (Overlap.Calls (OpTimerFires 0)) sys in
  currentState sys.1 = TERMINATED
  ∧ timers sys.1 = [mkTimer 0 ForceTimer 5000]
  ∧ sys.2 = []
  ∧ ((fun t => (from t, to t, timestamp t)) <$> stateHistory fired.1)
    = [(CREATED, INITIALIZING, 1); (INITIALIZING, RUNNING, 2);
       (RUNNING, TERMINATING, 3); (TERMINATING, TERMINATED, 3);
       (TERMINATED, TERMINATED, 5003)]
  ∧ timers fired.1 = [].
Proof. vm_compute. done. Qed.

(** X11. Apart from restoreFromCheckpoint without an argument, no call
    removes or rewrites a record: the history before a run is a prefix of the
    history after it. *)
Theorem history_append_only ops m :
  forallb (fun o => negb (restoresLast o.2)) ops = true ->
  stateHistory m `prefix_of` stateHistory (run ops m).
Proof.
  intros H. induction ops as [|[t o] ops IH] using rev_ind; [done|].
  rewrite forallb_app in H. apply andb_true_iff in H as [H1 H2].
  cbn in H2. rewrite andb_true_r in H2. apply negb_true_iff in H2.
  rewrite run_snoc. etrans; [by apply IH|].
  apply LifecycleProofs.exec_appends. intros ->. discriminate.
Qed.

Lemma history_append_only_witness :
  forallb (fun o => negb (restoresLast o.2)) shutdown_ops = true
  ∧ stateHistory (new noOverrides)
    `prefix_of` stateHistory (run shutdown_ops (new noOverrides)).
Proof.
  assert (H : forallb (fun o => negb (restoresLast o.2)) shutdown_ops = true)
    by (vm_compute; reflexivity).
  split; [exact H|].
  exact (history_append_only shutdown_ops (new noOverrides) H).
Defined.

Lemma replay_snoc s h t :
  replay s (h ++ [t])
  = match replay s h with
    | Some s' => if decide (from t = s') then Some (to t) else None
    | None => None
    end.
Proof.
  revert s. induction h as [|x h IH]; intros s; cbn.
  - by destruct (decide (from t = s)).
  - destruct (decide (from x = s)); [apply IH|done].
Qed.

Lemma replay_executeTransition tr m :
  from tr = currentState m ->
  replay CREATED (stateHistory m) = Some (currentState m) ->
  replay CREATED (stateHistory (executeTransition tr m))
  = Some (currentState (executeTransition tr m)).
Proof.
  intros Hf Hm.
  destruct (executeTransition_fields tr m) as (-> & -> & _).
  rewrite replay_snoc, Hm. by rewrite decide_True.
Qed.

Lemma replay_same m m' :
  stateHistory m' = stateHistory m -> currentState m' = currentState m ->
  replay CREATED (stateHistory m) = Some (currentState m) ->
  replay CREATED (stateHistory m') = Some (currentState m').
Proof. by intros -> ->. Qed.

Lemma replay_transitionTo now target rsn md m :
  replay CREATED (stateHistory m) = Some (currentState m) ->
  replay CREATED (stateHistory (transitionTo now target rsn md m).2)
  = Some (currentState (transitionTo now target rsn md m).2).
Proof.
  intros Hm. unfold transitionTo. destruct (negb _); cbn [snd]; [done|].
  by apply replay_executeTransition.
Qed.

Lemma replay_forceTransitionTo now target rsn md m :
  replay CREATED (stateHistory m) = Some (currentState m) ->
  replay CREATED (stateHistory (forceTransitionTo now target rsn md m))
  = Some (currentState (forceTransitionTo now target rsn md m)).
Proof. intros Hm. unfold forceTransitionTo. by apply replay_executeTransition. Qed.

Lemma replay_exec now op m :
  restoresLast op = false ->
  replay CREATED (stateHistory m) = Some (currentState m) ->
  replay CREATED (stateHistory (exec now op m))
  = Some (currentState (exec now op m)).
Proof.
  intros Hop Hm.
  destruct op as [target rsn md|target rsn md|message|rsn| |[cp|]|
                  pol| | | |id| ];
    try discriminate Hop; cbn [exec].
  - by apply replay_transitionTo.
  - by apply replay_forceTransitionTo.
  - unfold handleError. destruct (_ && _ && _).
    + match goal with |- context [setTimeout ?k ?d ?m2] =>
        apply (replay_same m2); [done..|] end.
      by apply replay_transitionTo.
    + by apply replay_transitionTo.
  - unfold gracefulShutdown. destruct (_ || _); [done|].
    match goal with |- context [setTimeout ?k ?d ?m2] =>
      apply (replay_same m2); [done..|] end.
    by apply replay_transitionTo.
  - cbn [createCheckpoint snd emit set_history stateHistory currentState].
    rewrite replay_snoc, Hm. cbn [from to]. by rewrite decide_True.
  - unfold restoreFromCheckpoint. cbn [snd].
    match goal with |- context [forceTransitionTo ?t ?s ?r ?d ?m2] =>
      apply (replay_same (forceTransitionTo t s r d m2)); [done..|] end.
    by apply replay_forceTransitionTo.
  - exact Hm.
  - exact Hm.
  - exact Hm.
  - unfold destroy, stopCheckpointing. by destruct (checkpointTimer m).
  - unfold fireTimer. destruct (List.find _ _) as [t|]; [|done].
    destruct (timerKind t).
    + by apply replay_transitionTo.
    + by apply replay_forceTransitionTo.
  - unfold checkpointTick. destruct (checkpointTimer m); [|done].
    case_bool_decide; [|done].
    cbn [createCheckpoint snd emit set_history stateHistory currentState].
    rewrite replay_snoc, Hm. cbn [from to]. by rewrite decide_True.
Qed.

(** X12. In a run of a new manager without restoreFromCheckpoint without
    an argument the history is a chain: the first record starts from CREATED,
    each record starts from the target of the one before it, and the target
    of the last one is the current state. *)
Theorem history_is_a_chain over ops :
  forallb (fun o => negb (restoresLast o.2)) ops = true ->
  replay CREATED (stateHistory (run ops (new over)))
  = Some (currentState (run ops (new over))).
Proof.
  intros H. induction ops as [|[t o] ops IH] using rev_ind.
  - change (run [] (new over)) with (new over).
    destruct (new_fields over) as (_ & _ & -> & _).
    unfold new, startCheckpointing. by destruct (_ <? _).
  - rewrite forallb_app in H. apply andb_true_iff in H as [H1 H2].
    cbn in H2. rewrite andb_true_r in H2. apply negb_true_iff in H2.
    rewrite run_snoc. apply replay_exec; [done|]. by apply IH.
Qed.

Lemma history_is_a_chain_witness :
  forallb (fun o => negb (restoresLast o.2)) shutdown_ops = true
  ∧ replay CREATED (stateHistory (run shutdown_ops (new noOverrides)))
    = Some (currentState (run shutdown_ops (new noOverrides))).
Proof.
  assert (H : forallb (fun o => negb (restoresLast o.2)) shutdown_ops = true)
    by (vm_compute; reflexivity).
  split; [exact H|].
  exact (history_is_a_chain noOverrides shutdown_ops H).
Defined.

End LifecycleExtras.

(** * Further properties of the swarm coordinator *)

Module SwarmExtras.
Import Swarm SwarmProofs SwarmTerms.

Lemma filter_none {A} (p : A -> bool) (l : list A) :
  Forall (fun x => p x = false) l -> List.filter p l = [].
Proof. induction 1 as [|x l Hx _ IH]; [done|]. cbn. by rewrite Hx. Qed.

Lemma findSuitableNodes_nil task w :
  Forall (fun e => isSuitable task e.2 = false) (nodeEntries w) ->
  findSuitableNodes task w = [].
Proof. intros H. unfold findSuitableNodes. by rewrite filter_none. Qed.

(** X13. A submission that is not decomposed and that no registered node
    is suitable for resolves at once with the task's id: the task is stored
    with status pending, 'taskAssignmentFailed' is emitted, and nothing else
    changes (no timer is set: the coordinator does not come back to it). *)
Theorem submitTask_no_candidate task w :
  shouldDecomposeTask (stampTask task w) = false ->
  Forall (fun e => isSuitable (stampTask task w) e.2 = false)
         (nodeEntries w) ->
  submitTask task w
  = Done (task_id (stampTask task w))
         (emit (taskAssignmentFailed (length (taskObjects w))
                                     "No suitable nodes available")
               (submitted task w)).
Proof.
  intros Hd Hn. unfold submitTask. rewrite run_get. cbv zeta.
  rewrite !run_modify. rewrite Hd.
  change (emit _ (on_tasks _ (on_taskObjects _ (set_draws _ w))))
    with (submitted task w).
  unfold assignTask.
  change ((get ≫= ?f) ≫= ?g) with (fun w0 => bindRes (f w0 w0) g).
  cbv beta.
  assert (Hl : taskObjects (submitted task w) !! length (taskObjects w)
               = Some (stampTask task w)).
  { cbn. by apply list_lookup_middle. }
  rewrite Hl.
  rewrite findSuitableNodes_nil by exact Hn.
  reflexivity.
Qed.

Lemma submitTask_no_candidate_witness :
  shouldDecomposeTask (stampTask simpleTask (new pretty (fun _ => true)))
  = false
  ∧ yielded (submitTask simpleTask (new pretty (fun _ => true)))
    = emit (taskAssignmentFailed 0 "No suitable nodes available")
           (submitted simpleTask (new pretty (fun _ => true))).
Proof.
  assert (H1 : shouldDecomposeTask
                 (stampTask simpleTask (new pretty (fun _ => true))) = false)
    by (vm_compute; reflexivity).
  split; [exact H1|].
  exact (f_equal yielded
           (submitTask_no_candidate simpleTask (new pretty (fun _ => true))
              H1 (List.Forall_nil _))).
Defined.

(** X14. A retry for which every suitable node is among the task's
    assignedNodes emits 'taskRetryFailed' and leaves the task in status
    pending; nothing else changes. *)
Theorem retryTask_stranded t task w :
  taskObjects w !! t = Some task ->
  Forall (fun e : nat * SwarmNode =>
            isSuitable task e.2 = true -> node_id e.2 ∈ previousNodes task)
         (nodeEntries w) ->
  retryTask t w
  = Done tt (emit (taskRetryFailed t "No alternative nodes available")
                  (updateTask t (set_status Pending) w)).
Proof.
  intros Ht Hn. unfold retryTask. rewrite run_modify, run_get.
  assert (Hl : taskObjects (updateTask t (set_status Pending) w) !! t
               = Some (set_status Pending task)).
  { cbn. rewrite list_lookup_alter_eq, Ht. done. }
  rewrite Hl.
  change (findSuitableNodes (set_status Pending task)
            (updateTask t (set_status Pending) w))
    with (findSuitableNodes task w).
  change (default [] (assignedNodes (set_status Pending task)))
    with (previousNodes task).
  rewrite filter_none; [done|].
  apply Forall_forall. intros e He.
  apply negb_false_iff, bool_decide_eq_true.
  unfold findSuitableNodes in He. rewrite sortWith_perm in He.
  apply list_elem_of_In, filter_In in He as [He Hs].
  apply list_elem_of_In in He.
  rewrite Forall_forall in Hn. by apply Hn.
Qed.

Lemma tried_all task (l : list (nat * SwarmNode)) :
  forallb (fun e => negb (isSuitable task e.2)
                    || bool_decide (node_id e.2 ∈ previousNodes task)) l
  = true ->
  Forall (fun e : nat * SwarmNode =>
            isSuitable task e.2 = true -> node_id e.2 ∈ previousNodes task) l.
Proof.
  intros H. apply Forall_forall. intros e He%list_elem_of_In Hs.
  rewrite forallb_forall in H. specialize (H e He). rewrite Hs in H.
  by apply bool_decide_eq_true in H.
Qed.

Lemma retryTask_stranded_witness :
  taskObjects after_failure !! 0%nat = Some failedTask
  ∧ retryTask 0 after_failure
    = Done tt (emit (taskRetryFailed 0 "No alternative nodes available")
                    (updateTask 0 (set_status Pending) after_failure)).
Proof.
  assert (H1 : taskObjects after_failure !! 0%nat = Some failedTask)
    by (vm_compute; reflexivity).
  assert (H2 : Forall (fun e : nat * SwarmNode =>
                         isSuitable failedTask e.2 = true ->
                         node_id e.2 ∈ previousNodes failedTask)
                      (nodeEntries after_failure)).
  { apply tried_all. vm_compute. reflexivity. }
  split; [exact H1|].
  exact (retryTask_stranded 0 failedTask after_failure H1 H2).
Defined.

Lemma map_get_set {V} (k : string) (v : V) m :
  map_get k (map_set k v m) = Some v.
Proof.
  induction m as [|[k' v'] m IH]; cbn.
  - by rewrite decide_True.
  - destruct (decide (k' = k)) as [->|Hne]; cbn.
    + by rewrite decide_True.
    + by rewrite decide_False.
Qed.

Lemma map_get_set_ne {V} (k k' : string) (v : V) m :
  k ≠ k' -> map_get k' (map_set k v m) = map_get k' m.
Proof.
  intros Hne. induction m as [|[k0 v0] m IH]; cbn.
  - by rewrite decide_False.
  - destruct (decide (k0 = k)) as [->|Hk]; cbn.
    + by rewrite !decide_False.
    + destruct (decide (k0 = k')); [done|]. apply IH.
Qed.

Lemma quorum_spec n :
  3 * n <= 5 * quorum n < 3 * n + 5.
Proof.
  unfold quorum.
  pose proof (Z.div_mod (3 * n + 4) 5 ltac:(lia)).
  pose proof (Z.mod_pos_bound (3 * n + 4) 5 ltac:(lia)). lia.
Qed.

(** X15. A proposal with fewer yes votes than its threshold is resolved as
    not reached: the notification is emitted, the proposal is deleted, the
    success rate is multiplied by 0.9, and nothing else changes (the task
    stays as it is and no timer is set). *)
Theorem resolveConsensus_rejected proposalId proposal w :
  lookupProposal proposalId w = Some proposal ->
  yesVotes proposal < threshold proposal ->
  resolveConsensus proposalId w
  = Done tt
      (updateConsensusMetrics false
         (on_proposals (map_delete proposalId)
            (emit (consensusResolved proposalId false (yesVotes proposal)
                                     (threshold proposal)) w))).
Proof.
  unfold lookupProposal, yesVotes, resolveConsensus. intros H Hlt.
  rewrite run_get, H. cbv zeta.
  apply Z.leb_gt in Hlt. rewrite Hlt. reflexivity.
Qed.

Lemma resolveConsensus_rejected_witness :
  lookupProposal "proposal_2_1" voting = Some openProposal
  ∧ yesVotes openProposal < threshold openProposal
  ∧ tasks (yielded (resolveConsensus "proposal_2_1" voting)) = tasks voting.
Proof.
  assert (H1 : lookupProposal "proposal_2_1" voting = Some openProposal)
    by (vm_compute; reflexivity).
  assert (H2 : yesVotes openProposal < threshold openProposal)
    by (vm_compute; reflexivity).
  split; [exact H1|]. split; [exact H2|].
  exact (f_equal (fun r => tasks (yielded r))
           (resolveConsensus_rejected "proposal_2_1" openProposal voting
              H1 H2)).
Defined.

Lemma map_set_fresh {V} (k : string) (v : V) m :
  map_get k m = None -> map_set k v m = m ++ [(k, v)].
Proof.
  induction m as [|[k' v'] m IH]; cbn; [done|].
  destruct (decide (k' = k)) as [->|Hne]; [done|].
  intros H. by rewrite IH.
Qed.

(** X16. A task of priority 8 or more, or with the requirement
    'critical', that has a suitable node is not assigned but put to the vote:
    no node or task object changes; one proposal object is created, with the
    ids of the suitable nodes in ranking order as candidates, no votes yet,
    and as threshold the least integer that is at least 60% of the number of
    nodes; it is stored under the id made of the clock reading and a random
    suffix, as a new entry of the proposal map when that id is not in use and
    in the place of the proposal stored under it otherwise, every other
    entry staying as it is; 'consensusStarted' is emitted and two timers are
    set (voting after 1 s, resolution after 30 s). *)
Theorem assignTask_by_consensus t task best rest w :
  taskObjects w !! t = Some task ->
  findSuitableNodes task w = best :: rest ->
  (8 <=? priority task) || bool_decide ("critical" ∈ requirements task)
  = true ->
  exists w' proposal,
    assignTask t w = Done tt w'
    ∧ sameObjects w w'
    ∧ emitted w' = emitted w ++ [consensusStarted (length (proposalObjects w))]
    ∧ timers w'
      = timers w ++ [mkTimer (SimulateVoting (length (proposalObjects w))) 1000;
                     mkTimer (ResolveConsensus (nextProposalId w)) 30000]
    ∧ proposalObjects w' = proposalObjects w ++ [proposal]
    ∧ proposals w'
      = map_set (nextProposalId w) (length (proposalObjects w)) (proposals w)
    ∧ (map_get (nextProposalId w) (proposals w) = None ->
       proposals w'
       = proposals w ++ [(nextProposalId w, length (proposalObjects w))])
    ∧ (forall id, id ≠ nextProposalId w ->
         map_get id (proposals w') = map_get id (proposals w))
    ∧ lookupProposal (nextProposalId w) w' = Some proposal
    ∧ proposal_id proposal = nextProposalId w
    ∧ taskId (payload proposal) = task_id task
    ∧ candidateNodes (payload proposal)
      = (fun e : nat * SwarmNode => node_id e.2) <$> (best :: rest)
    ∧ votes proposal = []
    ∧ 3 * map_size (nodes w) <= 5 * threshold proposal
      < 3 * map_size (nodes w) + 5.
Proof.
  intros Ht Hc Hp. unfold assignTask. rewrite run_get, Ht, Hc. cbv zeta.
  rewrite Hp. unfold assignTaskWithConsensus. rewrite run_get, Ht. cbv zeta.
  rewrite !run_modify.
  eexists _, _. split; [reflexivity|].
  split; [done|]. split; [reflexivity|]. split.
  { cbn. by rewrite <- app_assoc. }
  split; [reflexivity|]. split; [reflexivity|]. split.
  { intros Hfresh. cbn. by apply map_set_fresh. }
  split.
  { intros id Hne. cbn. by apply map_get_set_ne. }
  split.
  { unfold lookupProposal, nextProposalId. cbn.
    rewrite map_get_set. cbn. by apply list_lookup_middle. }
  split; [reflexivity|].
  split; [reflexivity|]. split; [reflexivity|]. split; [reflexivity|].
  cbn [threshold]. apply quorum_spec.
Qed.

Lemma checkNodeHealth_fold w l acc :
  nodeObjects acc = nodeObjects w -> clock acc = clock w ->
  let r := foldl (fun (a : SwarmCoordinator) (e : string * nat) =>
                    match nodeObjects a !! e.2 with
                    | Some node =>
                        if 60000 <? clock a - lastSeen node
                        then emit (nodeStale e.1) a else a
                    | None => a
                    end) acc l in
  emitted r = emitted acc ++ omap (staleEvent w) l
  ∧ nodeObjects r = nodeObjects acc ∧ taskObjects r = taskObjects acc
  ∧ nodes r = nodes acc ∧ tasks r = tasks acc ∧ timers r = timers acc.
Proof.
  cbv zeta. revert acc.
  induction l as [|e l IH]; intros acc Hn Hc.
  - cbn. by rewrite app_nil_r.
  - cbn [foldl omap list_omap]. unfold staleEvent at 1. rewrite <- Hn, <- Hc.
    destruct (nodeObjects acc !! e.2) as [node|].
    + destruct (60000 <? clock acc - lastSeen node).
      * destruct (IH (emit (nodeStale e.1) acc)) as (H1 & H2); [done..|].
        rewrite H1. cbn [emitted emit]. rewrite <- app_assoc.
        split; [done|]. exact H2.
      * by apply IH.
    + by apply IH.
Qed.

(** X18. The heartbeat never evicts: it leaves the node map, the nodes,
    the tasks and the timers as they are, and emits 'nodeStale' for exactly
    the registered nodes last seen more than 60 s before (and nothing once
    shutdown has cleared the interval). *)
Theorem heartbeat_only_reports w :
  let w' := heartbeat w in
  nodes w' = nodes w ∧ nodeObjects w' = nodeObjects w
  ∧ tasks w' = tasks w ∧ taskObjects w' = taskObjects w
  ∧ timers w' = timers w
  ∧ emitted w'
    = emitted w ++ (if heartbeatInterval w then staleEvents w else []).
Proof.
  unfold heartbeat. destruct (heartbeatInterval w).
  - destruct (checkNodeHealth_fold w (nodes w) w eq_refl eq_refl)
      as (H1 & H2 & H3 & H4 & H5 & H6).
    cbv zeta in *. fold (checkNodeHealth w) in *.
    cbn [updateMetrics on_metrics nodes nodeObjects tasks taskObjects timers
         emitted].
    by rewrite H1, H2, H3, H4, H5, H6.
  - cbv zeta. by rewrite app_nil_r.
Qed.

Lemma shutdown_fold l acc :
  let g := fun (a : SwarmCoordinator) (t : nat) =>
             emit (taskCancelled t) (updateTask t (set_status Failed) a) in
  let r := foldl g acc l in
  nodes r = nodes acc ∧ nodeObjects r = nodeObjects acc
  ∧ tasks r = tasks acc ∧ timers r = timers acc
  ∧ proposals r = proposals acc
  ∧ heartbeatInterval r = heartbeatInterval acc
  ∧ metrics r = metrics acc
  ∧ emitted r = emitted acc ++ (taskCancelled <$> l)
  ∧ (forall t, taskObjects r !! t
               = (if bool_decide (t ∈ l)
                  then set_status Failed <$> taskObjects acc !! t
                  else taskObjects acc !! t)).
Proof.
  intros g. revert acc. induction l as [|t0 l IH]; intros acc.
  - cbn. rewrite app_nil_r. repeat split.
  - cbn [foldl].
    destruct (IH (g acc t0)) as (H1 & H2 & H3 & H4 & H5 & H6 & H7 & H8 & H9).
    cbv zeta. rewrite H1, H2, H3, H4, H5, H6, H7, H8.
    repeat split.
    + cbn. by rewrite <- app_assoc.
    + intros t. rewrite H9. cbn [g taskObjects emit updateTask on_taskObjects].
      rewrite list_lookup_alter.
      destruct (decide (t0 = t)) as [->|Hne].
      * rewrite (bool_decide_eq_true_2 (t ∈ t :: l)) by left.
        destruct (bool_decide (t ∈ l)); [|done].
        by destruct (taskObjects acc !! t).
      * destruct (bool_decide (t ∈ l)) eqn:E.
        -- apply bool_decide_eq_true in E.
           by rewrite (bool_decide_eq_true_2 (t ∈ t0 :: l)) by (by right).
        -- apply bool_decide_eq_false in E.
           rewrite (bool_decide_eq_false_2 (t ∈ t0 :: l)); [done|].
           intros [?|?]%elem_of_cons; congruence.
Qed.

Lemma shutdown_unfold w :
  shutdown w
  = emit swarmShutdown
      (foldl (fun a t => emit (taskCancelled t)
                              (updateTask t (set_status Failed) a))
             (if heartbeatInterval w then set_heartbeatInterval false w else w)
             (activeTasks w)).
Proof. unfold shutdown, activeTasks. by destruct (heartbeatInterval w). Qed.

Lemma activeTasks_spec k t x w :
  (k, t) ∈ tasks w -> taskObjects w !! t = Some x -> status x = Executing ->
  t ∈ activeTasks w.
Proof.
  intros Hin Hx Hs. unfold activeTasks.
  apply list_elem_of_fmap. exists (t, x). split; [done|].
  apply list_elem_of_In, filter_In. split.
  - apply list_elem_of_In. unfold taskEntries. apply list_elem_of_omap.
    exists (k, t). split; [done|]. cbn. by rewrite Hx.
  - cbn. by apply bool_decide_eq_true.
Qed.

(** X19. shutdown clears the heartbeat (a later heartbeat does nothing),
    keeps the nodes, the task map, the proposals and the pending timers,
    leaves no registered task in status executing, and leaves every task that
    was not executing as it was. *)
Theorem shutdown_cancels_executing w :
  let w' := shutdown w in
  heartbeatInterval w' = false
  ∧ heartbeat w' = w'
  ∧ nodes w' = nodes w ∧ nodeObjects w' = nodeObjects w
  ∧ tasks w' = tasks w ∧ timers w' = timers w ∧ proposals w' = proposals w
  ∧ (forall k t x, (k, t) ∈ tasks w -> taskObjects w' !! t = Some x ->
                   status x ≠ Executing)
  ∧ (forall t x, taskObjects w !! t = Some x -> status x ≠ Executing ->
                 taskObjects w' !! t = Some x).
Proof.
  cbv zeta. rewrite shutdown_unfold.
  set (w1 := if heartbeatInterval w then set_heartbeatInterval false w else w).
  assert (Hw1 : heartbeatInterval w1 = false ∧ nodes w1 = nodes w
                ∧ nodeObjects w1 = nodeObjects w ∧ tasks w1 = tasks w
                ∧ timers w1 = timers w ∧ proposals w1 = proposals w
                ∧ taskObjects w1 = taskObjects w).
  { unfold w1. by destruct (heartbeatInterval w) eqn:E. }
  destruct Hw1 as (E1 & E2 & E3 & E4 & E5 & E6 & E7).
  destruct (shutdown_fold (activeTasks w) w1)
    as (H1 & H2 & H3 & H4 & H5 & H6 & H7 & H8 & H9).
  cbv zeta in *.
  set (w2 := foldl _ w1 (activeTasks w)) in *.
  assert (Hh : heartbeatInterval (emit swarmShutdown w2) = false).
  { cbn. by rewrite H6. }
  split; [exact Hh|]. split.
  { unfold heartbeat. by rewrite Hh. }
  cbn [nodes nodeObjects tasks timers proposals taskObjects emit].
  rewrite H1, H2, H3, H4, H5, E2, E3, E4, E5, E6.
  repeat split.
  - intros k t x Hin Hx Hs. rewrite H9, E7 in Hx.
    destruct (bool_decide (t ∈ activeTasks w)) eqn:E.
    + destruct (taskObjects w !! t); [|done]. cbn in Hx.
      injection Hx as <-. done.
    + apply bool_decide_eq_false in E. apply E.
      by eapply activeTasks_spec.
  - intros t x Hx Hs. rewrite H9, E7, Hx.
    destruct (bool_decide (t ∈ activeTasks w)) eqn:E; [|done].
    apply bool_decide_eq_true in E. unfold activeTasks in E.
    apply list_elem_of_fmap in E as ([t' x'] & -> & E).
    apply list_elem_of_In, filter_In in E as [E Hs'].
    apply list_elem_of_In in E. unfold taskEntries in E.
    apply list_elem_of_omap in E as ([k l] & _ & E). cbn in E.
    destruct (taskObjects w !! l) as [y|] eqn:Ey; [|done].
    cbn in E. injection E as <- <-. cbn in *.
    apply bool_decide_eq_true in Hs'. congruence.
Qed.

Lemma assignTask_by_consensus_witness :
  taskObjects queued !! 0%nat = Some queuedTask
  ∧ findSuitableNodes queuedTask queued
    = [(0%nat, mkNode "A" "A" ["a"] 0 100 1)]
  ∧ exists w', assignTask 0 queued = Done tt w' ∧ sameObjects queued w'
               ∧ proposals w' = [("proposal_1_1", 0%nat)].
Proof.
  assert (H1 : taskObjects queued !! 0%nat = Some queuedTask)
    by (vm_compute; reflexivity).
  assert (H2 : findSuitableNodes queuedTask queued
               = [(0%nat, mkNode "A" "A" ["a"] 0 100 1)])
    by (vm_compute; reflexivity).
  assert (H3 : (8 <=? priority queuedTask)
               || bool_decide ("critical" ∈ requirements queuedTask) = true)
    by (vm_compute; reflexivity).
  split; [exact H1|]. split; [exact H2|].
  destruct (assignTask_by_consensus 0 queuedTask _ _ queued H1 H2 H3)
    as (w' & proposal & E & Hs & _ & _ & _ & Hm & _).
  exists w'. split; [exact E|]. split; [exact Hs|].
  rewrite Hm. vm_compute. reflexivity.
Defined.

Lemma directAssignTask_waits t n node w :
  nodeObjects w !! n = Some node ->
  exists k,
    directAssignTask t n w
    = Wait (updateTask t (set_status Executing)
              (emit (taskAssigned t n)
                 (updateNode n nodeAssigned
                    (updateTask t (fun x =>
                       set_assignedNodes (Some [node_id node])
                                         (set_status Assigned x)) w))))
           n t k
    ∧ (forall r w',
         k (Resolved r) w'
         = Done tt (emit (taskCompleted t r)
                      (incr_completedTasks
                         (updateNode n nodeSucceeded
                            (updateTask t (fun x =>
                               set_result (Some r) (set_status Completed x))
                               w')))))
    ∧ (forall e w',
         k (Rejected e) w'
         = let w1 := emit (taskFailed t e)
                       (updateNode n nodeFailed
                          (updateTask t (set_status Failed) w')) in
           Done tt (if default true (retriesAvailable <$> taskObjects w1 !! t)
                    then setTimeout (RetryTask t) 5000 w1 else w1)).
Proof.
  intros Hn. unfold directAssignTask. rewrite run_get, Hn.
  rewrite !run_modify. eexists. split; [reflexivity|]. split.
  - reflexivity.
  - intros e w'. rewrite !run_modify, run_get. cbv zeta.
    by destruct (default true _).
Qed.

(** X20. shutdown does not stop work in flight. A registered task that is
    executing on a node when shutdown runs is marked failed and
    'taskCancelled' is emitted; when the agent's promise resolves afterwards
    the task becomes completed with that result and the count of completed
    tasks rises, and when it rejects a retry is scheduled after 5 s. *)
Theorem shutdown_then_settlement t n node task key w now later :
  nodeObjects w !! n = Some node ->
  taskObjects w !! t = Some task ->
  (key, t) ∈ tasks w ->
  let sys1 := settle (directAssignTask t n w) [] in
  let sys2 := step now CallShutdown sys1 in
  (status <$> taskObjects sys2.1 !! t = Some Failed
   ∧ taskCancelled t ∈ emitted sys2.1)
  ∧ (forall r,
       let sys3 := step later (Settles 0 (Resolved r)) sys2 in
       status <$> taskObjects sys3.1 !! t = Some Completed
       ∧ result <$> taskObjects sys3.1 !! t = Some (Some r)
       ∧ completedTasks (metrics sys3.1) = completedTasks (metrics w) + 1)
  ∧ (forall e,
       let sys3 := step later (Settles 0 (Rejected e)) sys2 in
       status <$> taskObjects sys3.1 !! t = Some Failed
       ∧ timers sys3.1 = timers w ++ [mkTimer (RetryTask t) 5000]).
Proof.
  intros Hn Ht Hin.
  destruct (directAssignTask_waits t n node w Hn) as (k & -> & Hok & Hko).
  set (w1 := updateTask t (set_status Executing) _).
  cbv zeta. cbn [settle app].
  assert (Hw1 : taskObjects w1 !! t
                = Some (set_status Executing
                          (set_assignedNodes (Some [node_id node])
                             (set_status Assigned task)))).
  { unfold w1. cbn. rewrite !list_lookup_alter_eq, Ht. done. }
  set (w1' := set_clock now w1).
  assert (Hact : t ∈ activeTasks w1').
  { eapply (activeTasks_spec key); [exact Hin|exact Hw1|done]. }
  assert (Hs2 : step now CallShutdown (w1, [mkSuspended n t k])
                = (shutdown w1', [mkSuspended n t k])) by done.
  destruct (shutdown_fold (activeTasks w1')
              (if heartbeatInterval w1' then set_heartbeatInterval false w1'
               else w1'))
    as (_ & _ & _ & H4 & _ & _ & H7 & H8 & H9).
  cbv zeta in H4, H7, H8, H9.
  assert (Hobj : taskObjects (shutdown w1') !! t
                 = Some (set_status Failed
                           (set_status Executing
                              (set_assignedNodes (Some [node_id node])
                                 (set_status Assigned task))))).
  { rewrite shutdown_unfold. cbn [taskObjects emit]. rewrite H9.
    rewrite bool_decide_eq_true_2 by done.
    replace (taskObjects (if heartbeatInterval w1'
                          then set_heartbeatInterval false w1' else w1'))
      with (taskObjects w1) by (by destruct (heartbeatInterval w1')).
    by rewrite Hw1. }
  assert (Htm : timers (shutdown w1') = timers w).
  { rewrite shutdown_unfold. cbn [timers emit]. rewrite H4.
    by destruct (heartbeatInterval w1'). }
  assert (Hmt : metrics (shutdown w1') = metrics w).
  { rewrite shutdown_unfold. cbn [metrics emit]. rewrite H7.
    by destruct (heartbeatInterval w1'). }
  rewrite Hs2. cbn [fst snd]. split; [split|split].
  - by rewrite Hobj.
  - rewrite shutdown_unfold. cbn [emitted emit]. rewrite H8.
    apply elem_of_app. left. apply elem_of_app. right.
    apply list_elem_of_fmap. by exists t.
  - intros r. cbn [step fst snd lookup list_lookup resume]. rewrite Hok.
    cbn [settle fst]. cbn [taskObjects metrics emit incr_completedTasks
      on_metrics updateNode on_nodeObjects updateTask on_taskObjects set_clock
      completedTasks].
    rewrite list_lookup_alter_eq, Hobj, Hmt. done.
  - intros e. cbn [step fst snd lookup list_lookup resume]. rewrite Hko.
    cbv zeta.
    set (w3 := emit (taskFailed t e) _).
    assert (Hw3 : taskObjects w3 !! t
                  = Some (set_status Failed
                            (set_status Failed
                               (set_status Executing
                                  (set_assignedNodes (Some [node_id node])
                                     (set_status Assigned task)))))).
    { unfold w3. cbn [taskObjects emit updateNode on_nodeObjects updateTask
                      on_taskObjects set_clock].
      by rewrite list_lookup_alter_eq, Hobj. }
    rewrite Hw3. cbn [fmap option_fmap option_map default retriesAvailable
                      assignedNodes set_status set_assignedNodes].
    cbn [settle fst].
    change (id (length [node_id node] <? maxTaskRetries)%nat) with true.
    cbv iota. split.
    + change (taskObjects (setTimeout (RetryTask t) 5000 w3))
        with (taskObjects w3). by rewrite Hw3.
    + unfold w3. cbn [timers setTimeout on_timers emit updateNode
                      on_nodeObjects updateTask on_taskObjects set_clock].
      by rewrite Htm.
Qed.

Lemma shutdown_then_settlement_witness :
  nodeObjects queued !! 0%nat = Some (mkNode "A" "A" ["a"] 0 100 1)
  ∧ taskObjects queued !! 0%nat = Some queuedTask
  ∧ ("task_0_0", 0%nat) ∈ tasks queued
  ∧ status <$> taskObjects
                 (step 9 (Settles 0 (Resolved okResult))
                    (step 8 CallShutdown
                       (settle (directAssignTask 0 0 queued) []))).1 !! 0%nat
    = Some Completed.
Proof.
  assert (H1 : nodeObjects queued !! 0%nat
               = Some (mkNode "A" "A" ["a"] 0 100 1))
    by (vm_compute; reflexivity).
  assert (H2 : taskObjects queued !! 0%nat = Some queuedTask)
    by (vm_compute; reflexivity).
  assert (H3 : ("task_0_0", 0%nat) ∈ tasks queued).
  { replace (tasks queued) with [("task_0_0", 0%nat)]
      by (vm_compute; reflexivity). left. }
  split; [exact H1|]. split; [exact H2|]. split; [exact H3|].
  exact (proj1 (proj1 (proj2 (shutdown_then_settlement 0 0 _ queuedTask
                                "task_0_0" queued 8 9 H1 H2 H3))
                  okResult)).
Defined.

Lemma castVote_fold p w l :
  forall acc prop,
    proposalObjects acc !! p = Some prop ->
    nodeObjects acc = nodeObjects w ->
    NoDup l.*1 ->
    exists prop',
      proposalObjects (foldl (castVote p) acc l) !! p = Some prop'
      ∧ threshold prop' = threshold prop
      ∧ payload prop' = payload prop
      ∧ (forall k, k ∉ l.*1 ->
           map_get k (votes prop') = map_get k (votes prop))
      ∧ (forall k ref node,
           (k, ref) ∈ l -> nodeObjects w !! ref = Some node ->
           exists v, map_get k (votes prop') = Some v
                     ∧ (v = true -> mayApprove node)).
Proof.
  induction l as [|[k0 ref0] l IH]; intros acc prop Hp Hn Hd.
  - exists prop. cbn. repeat split; try done.
    intros k ref node Hin. by apply elem_of_nil in Hin.
  - cbn [foldl]. cbn [fmap list_fmap] in Hd. apply NoDup_cons in Hd as [Hk0 Hd].
    unfold castVote at 2. cbn [fst snd]. rewrite Hn.
    destruct (nodeObjects w !! ref0) as [node0|] eqn:En.
    + set (vote := if Qlt_bool (loadFactor node0) (7 # 10)
                      && Qlt_bool 60 (reputation node0)
                   then randomVote acc (draws acc) else false).
      set (acc1 := if Qlt_bool (loadFactor node0) (7 # 10)
                      && Qlt_bool 60 (reputation node0)
                   then _ else _).
      assert (H1 : proposalObjects acc1 !! p
                   = Some (set_votes (map_set k0 vote (votes prop)) prop)).
      { unfold acc1, vote. destruct (_ && _); cbn;
          by rewrite list_lookup_alter_eq, Hp. }
      assert (H2 : nodeObjects acc1 = nodeObjects w).
      { unfold acc1. by destruct (_ && _). }
      destruct (IH acc1 _ H1 H2 Hd) as (prop' & Q1 & Q2 & Q3 & Q4 & Q5).
      exists prop'. split; [exact Q1|]. split; [exact Q2|].
      split; [exact Q3|]. split.
      * intros k Hk. cbn [fmap list_fmap] in Hk.
        apply not_elem_of_cons in Hk as [Hne Hk].
        rewrite (Q4 k Hk). cbn [votes set_votes].
        by apply map_get_set_ne.
      * intros k ref node Hin Hnode.
        apply elem_of_cons in Hin as [Heq|Hin]; [|by eapply Q5].
        injection Heq as -> ->. exists vote. split.
        -- rewrite (Q4 k0 Hk0). cbn [votes set_votes]. apply map_get_set.
        -- assert (node = node0) as -> by congruence.
           unfold vote. destruct (Qlt_bool _ _ && _) eqn:E; [|done].
           intros _. apply andb_true_iff in E as [E1 E2].
           split; by apply Qlt_bool_iff.
    + destruct (IH acc prop Hp Hn Hd) as (prop' & Q1 & Q2 & Q3 & Q4 & Q5).
      exists prop'. split; [exact Q1|]. split; [exact Q2|].
      split; [exact Q3|]. split.
      * intros k Hk. cbn [fmap list_fmap] in Hk.
        apply not_elem_of_cons in Hk as [Hne Hk]. by apply Q4.
      * intros k ref node Hin Hnode.
        apply elem_of_cons in Hin as [Heq|Hin]; [|by eapply Q5].
        injection Heq as -> ->. congruence.
Qed.

(** X17. simulateVoting records a vote for every registered node; a vote
    can only be yes if the node's load factor is below 0.7 and its reputation
    above 60. The votes of ids that are not registered, the threshold and the
    payload of the proposal are left as they are. *)
Theorem simulateVoting_votes p proposal w :
  proposalObjects w !! p = Some proposal ->
  NoDup (nodes w).*1 ->
  exists proposal',
    proposalObjects (simulateVoting p w) !! p = Some proposal'
    ∧ threshold proposal' = threshold proposal
    ∧ payload proposal' = payload proposal
    ∧ (forall k, k ∉ (nodes w).*1 ->
         map_get k (votes proposal') = map_get k (votes proposal))
    ∧ (forall k ref node,
         (k, ref) ∈ nodes w -> nodeObjects w !! ref = Some node ->
         exists v, map_get k (votes proposal') = Some v
                   ∧ (v = true -> mayApprove node)).
Proof.
  intros Hp Hd. unfold simulateVoting. by apply castVote_fold.
Qed.

Lemma simulateVoting_votes_witness :
  proposalObjects voting !! 0%nat = Some openProposal
  ∧ NoDup (nodes voting).*1
  ∧ exists proposal',
      proposalObjects (simulateVoting 0 voting) !! 0%nat = Some proposal'
      ∧ threshold proposal' = threshold openProposal.
Proof.
  assert (H1 : proposalObjects voting !! 0%nat = Some openProposal)
    by (vm_compute; reflexivity).
  assert (H2 : NoDup (nodes voting).*1).
  { replace (nodes voting) with [("A", 0%nat)] by (vm_compute; reflexivity).
    apply NoDup_singleton. }
  split; [exact H1|]. split; [exact H2|].
  destruct (simulateVoting_votes 0 openProposal voting H1 H2)
    as (proposal' & E & Ht & _).
  exists proposal'. split; [exact E|exact Ht].
Defined.

Lemma map_set_keys {V} (k : string) (v : V) m :
  (map_set k v m).*1
  = match map_get k m with Some _ => m.*1 | None => m.*1 ++ [k] end.
Proof.
  induction m as [|[k' v'] m IH]; cbn; [done|].
  destruct (decide (k' = k)) as [->|Hne]; cbn; [done|].
  rewrite IH. by destruct (map_get k m).
Qed.

(** X21. registerNode resolves at once; the id then leads to a new node
    object with load factor 0 and reputation 100 (for an id that was
    registered the entry keeps its place in the map, and the earlier object
    is no longer reached through it), other ids are unaffected, totalNodes is
    the size of the map, one more state-change listener is subscribed for the
    id, and no task is touched. *)
Theorem registerNode_replaces agentId caps w :
  let fresh := length (nodeObjects w) in
  exists w',
    registerNode agentId caps w = Done tt w'
    ∧ map_get agentId (nodes w') = Some fresh
    ∧ nodeObjects w' = nodeObjects w ++ [mkNode agentId agentId caps 0 100
                                                (clock w)]
    ∧ (nodes w').*1
      = match map_get agentId (nodes w) with
        | Some _ => (nodes w).*1
        | None => (nodes w).*1 ++ [agentId]
        end
    ∧ (forall k, k ≠ agentId -> map_get k (nodes w') = map_get k (nodes w))
    ∧ totalNodes (metrics w') = map_size (nodes w')
    ∧ listeners w' = listeners w ++ [agentId]
    ∧ tasks w' = tasks w ∧ taskObjects w' = taskObjects w.
Proof.
  cbv zeta. unfold registerNode. rewrite run_get. cbv zeta.
  rewrite !run_modify. eexists. split; [reflexivity|].
  cbn [nodes nodeObjects metrics listeners tasks taskObjects emit on_listeners
       updateMetrics on_metrics set_totalNodes on_nodes on_nodeObjects
       totalNodes].
  split; [apply map_get_set|]. split; [done|].
  split; [apply map_set_keys|].
  split; [intros k Hk; by apply map_get_set_ne|].
  done.
Qed.

Lemma sum_loads_bounds (l : list SwarmNode) acc :
  Forall inBounds l ->
  (acc <= fold_left (fun sum (n : SwarmNode) => sum + loadFactor n) l acc)%Q
  ∧ (fold_left (fun sum (n : SwarmNode) => sum + loadFactor n) l acc
     <= acc + inject_Z (Z.of_nat (length l)))%Q.
Proof.
  intros H. revert acc. induction H as [|n l (H0 & H1 & _) _ IH]; intros acc.
  - cbn [fold_left length]. change (inject_Z (Z.of_nat 0)) with 0%Q.
    split; lra.
  - cbn [fold_left length]. destruct (IH (acc + loadFactor n)%Q) as [I1 I2].
    rewrite Nat2Z.inj_succ. unfold Z.succ. rewrite inject_Z_plus.
    change (inject_Z 1) with 1%Q. split; lra.
Qed.

Lemma getNodes_inBounds w :
  Forall inBounds (nodeObjects w) -> Forall inBounds (getNodes w).
Proof.
  intros H. apply Forall_forall. intros n Hn. unfold getNodes in Hn.
  apply list_elem_of_fmap in Hn as ([l n'] & -> & He).
  unfold nodeEntries in He. apply list_elem_of_omap in He as ([k l'] & _ & Hl).
  cbn in Hl. destruct (nodeObjects w !! l') as [x|] eqn:Ex; [|done].
  cbn in Hl. injection Hl as <- <-. cbn.
  rewrite Forall_forall in H. apply H. by eapply list_elem_of_lookup_2.
Qed.

Lemma length_omap_le {A B} (f : A -> option B) l :
  (length (omap f l) <= length l)%nat.
Proof. induction l as [|a l IH]; cbn; [lia|]. destruct (f a); cbn; lia. Qed.

Lemma getNodes_length w : (length (getNodes w) <= length (nodes w))%nat.
Proof.
  unfold getNodes, nodeEntries. rewrite length_fmap. apply length_omap_le.
Qed.

Lemma updateMetrics_figures w :
  Forall inBounds (nodeObjects w) ->
  let m := metrics (updateMetrics w) in
  totalNodes m = map_size (nodes w)
  ∧ 0 <= activeNodes m <= totalNodes m
  ∧ (0 < map_size (nodes w) ->
     (0 <= averageLoadFactor m)%Q ∧ (averageLoadFactor m <= 1)%Q)
  ∧ (map_size (nodes w) = 0 ->
     averageLoadFactor m = averageLoadFactor (metrics w))
  ∧ completedTasks m = completedTasks (metrics w)
  ∧ consensusSuccessRate m = consensusSuccessRate (metrics w).
Proof.
  intros Hb. cbn [updateMetrics on_metrics metrics totalNodes activeNodes
                  averageLoadFactor completedTasks consensusSuccessRate].
  pose proof (getNodes_length w) as Hlen.
  split; [done|]. split.
  { unfold map_size. split; [lia|].
    pose proof (filter_length_le
                  (fun n : SwarmNode => clock w - lastSeen n <? 60000)
                  (getNodes w)). lia. }
  split; [|split; [|done]].
  - intros Hpos. rewrite (proj2 (Z.ltb_lt _ _) Hpos).
    destruct (sum_loads_bounds (getNodes w) 0 (getNodes_inBounds w Hb))
      as [S0 S1].
    assert (Hs : (0 < inject_Z (map_size (nodes w)))%Q).
    { change 0%Q with (inject_Z 0). rewrite <- Zlt_Qlt. exact Hpos. }
    assert (Hl : (inject_Z (Z.of_nat (length (getNodes w)))
                  <= inject_Z (map_size (nodes w)))%Q).
    { rewrite <- Zle_Qle. unfold map_size. lia. }
    split.
    + apply Qle_shift_div_l; [exact Hs|]. lra.
    + apply Qle_shift_div_r; [exact Hs|]. lra.
  - intros Hz. rewrite Hz. reflexivity.
Qed.

Lemma updateNode_identity f n w :
  (forall x, node_id (f x) = node_id x /\ agent (f x) = agent x /\
             capabilities (f x) = capabilities x) ->
  identitySeg None w (updateNode n f w).
Proof.
  intros Hf. split.
  - intros l x Hl. cbn. rewrite list_lookup_alter.
    destruct (decide (n = l)) as [->|Hne]; rewrite Hl; cbn.
    + eexists. split; [done|]. apply Hf.
    + by exists x.
  - intros l x Hl. by exists x.
Qed.

Lemma updateTask_identity f t w :
  (forall x, task_id (f x) = task_id x /\ description (f x) = description x /\
             requirements (f x) = requirements x /\
             priority (f x) = priority x) ->
  identitySeg None w (updateTask t f w).
Proof.
  intros Hf. split.
  - intros l x Hl. by exists x.
  - intros l x Hl. cbn. rewrite list_lookup_alter.
    destruct (decide (t = l)) as [->|Hne]; rewrite Hl; cbn.
    + eexists. split; [done|]. apply Hf.
    + by exists x.
Qed.

Lemma identitySeg_laws :
  SegmentLaws identitySeg (fun _ => True) (fun _ => True).
Proof.
  split.
  - intros x w. split; intros l n Hl; by exists n.
  - intros x a b c [N1 T1] [N2 T2]. split.
    + intros l n Hl. destruct (N1 l n Hl) as (n1 & H1 & E1 & E2 & E3).
      destruct (N2 l n1 H1) as (n2 & H2 & F1 & F2 & F3).
      exists n2. repeat split; [done|congruence..].
    + intros l y Hl. destruct (T1 l y Hl) as (y1 & H1 & E1 & E2 & E3 & E4).
      destruct (T2 l y1 H1) as (y2 & H2 & F1 & F2 & F3 & F4).
      exists y2. repeat split; [done|congruence..].
  - intros x a b c [N1 T1] [N2 T2]. split.
    + intros l n Hl. destruct (N1 l n Hl) as (n1 & H1 & E1 & E2 & E3).
      destruct (N2 l n1 H1) as (n2 & H2 & F1 & F2 & F3).
      exists n2. repeat split; [done|congruence..].
    + intros l y Hl. destruct (T1 l y Hl) as (y1 & H1 & E1 & E2 & E3 & E4).
      destruct (T2 l y1 H1) as (y2 & H2 & F1 & F2 & F3 & F4).
      exists y2. repeat split; [done|congruence..].
  - intros w w' (E1 & E2 & _). split; intros l n Hl; exists n.
    + by rewrite E1.
    + by rewrite E2.
  - intros t f w _ Hf. apply updateTask_identity. intros x.
    destruct (Hf x) as (H1 & H2 & H3 & H4 & _). done.
  - intros n w. by apply updateNode_identity.
  - intros r n w. by apply updateNode_identity.
  - intros e n w. by apply updateNode_identity.
  - intros t refs w _. by apply updateTask_identity.
  - intros ts w. split; intros l n Hl; exists n; [done|].
    split; [|done]. cbn. by apply lookup_app_l_Some.
  - intros id a caps t w. split; intros l n Hl; exists n; [|done].
    split; [|done]. cbn. by apply lookup_app_l_Some.
  - intros id w. split; intros l n Hl; by exists n.
  - intros n t w. by apply updateNode_identity.
Qed.

(** X22. Over any run of the coordinator every node object stays in the
    store and keeps its id, agent and capabilities, and every task object
    stays and keeps its id, description, requirements and priority. *)
Theorem objects_keep_identity ids coins before after :
  identitySeg None (steps before (boot ids coins)).1
              (steps after (steps before (boot ids coins))).1.
Proof.
  revert before. induction after as [|[now st] after IH]; intros before.
  - apply (law_refl _ _ _ identitySeg_laws).
  - set (sys := steps before (boot ids coins)).
    assert (Hp : poolLawful identitySeg sys.2).
    { apply (steps_pool _ _ _ identitySeg_laws (fun _ => I) (fun _ => I)).
      constructor. }
    destruct (step_obeys _ _ _ identitySeg_laws (fun _ => I) (fun _ => I)
                now st sys Hp) as [H1 _].
    specialize (IH (before ++ [(now, st)])). rewrite steps_app in IH.
    cbn [steps foldl] in *. fold (steps after) in *.
    assert (H1' : identitySeg None sys.1 (step now st sys).1).
    { destruct H1 as [N T]. split; [exact N|exact T]. }
    exact (law_then _ _ _ identitySeg_laws None _ _ _ H1' IH).
Qed.

(** ** Invariants of the coordinator *)

Section Keeps.
Variable P : SwarmCoordinator -> Prop.
Hypothesis laws : InvariantLaws P.

Let P_frame := inv_frame _ laws.
Let P_emit := inv_emit _ laws.
Let P_completed := inv_completed _ laws.
Let P_node := inv_node _ laws.
Let P_register := inv_register _ laws.
Let P_unregister := inv_unregister _ laws.
Let P_consensus := inv_consensus _ laws.
Let P_task := inv_task _ laws.
Let P_sweep := inv_sweep _ laws.

Lemma keeps_weaken {A} (pre pre' : Prop) (r : Res A) :
  (pre -> pre') -> keeps P pre' r -> keeps P pre r.
Proof.
  intros H. destruct r as [a w|w n t k]; cbn.
  - auto.
  - intros [H1 H2]. split; auto.
Qed.

Lemma keeps_bindRes {A B} pre (r : Res A) (f : A -> Async B) :
  keeps P pre r -> (forall a, invariant P (f a)) -> keeps P pre (bindRes r f).
Proof.
  intros Hr Hf. revert pre Hr.
  induction r as [a w|w n t k IH]; intros pre Hr; cbn in *.
  - eapply keeps_weaken; [exact Hr|apply Hf].
  - destruct Hr as [H1 H2]. split; [done|]. intros o w1. apply IH, H2.
Qed.

Lemma invariant_bind {A B} (m : Async A) (f : A -> Async B) :
  invariant P m -> (forall a, invariant P (f a)) -> invariant P (m ≫= f).
Proof. intros Hm Hf w. apply keeps_bindRes; [by apply Hm|done]. Qed.

Lemma invariant_ret {A} (a : A) : invariant P (mret a).
Proof. by intros w Hw. Qed.

Lemma invariant_skip : invariant P skip.
Proof. by intros w Hw. Qed.

Lemma invariant_get {A} (f : SwarmCoordinator -> Async A) :
  (forall w, invariant P (f w)) -> invariant P (get ≫= f).
Proof. intros H w. by apply (H w w). Qed.

Lemma invariant_modify {A} (g : SwarmCoordinator -> SwarmCoordinator)
    (k : Async A) :
  (forall w, P w -> P (g w)) -> invariant P k -> invariant P (modify g;; k).
Proof.
  intros Hg Hk w. change (keeps P (P w) (k (g w))).
  eapply keeps_weaken; [apply Hg|apply Hk].
Qed.

Lemma invariant_modify_end (g : SwarmCoordinator -> SwarmCoordinator) :
  (forall w, P w -> P (g w)) -> invariant P (modify g).
Proof. intros Hg w Hw. by apply Hg. Qed.

Lemma invariant_await {A} n t (f : Outcome -> Async A) :
  (forall o, invariant P (f o)) -> invariant P (await_executeTask n t ≫= f).
Proof.
  intros H w.
  change ((P w -> P w) /\ forall o w1, keeps P (P w1) (f o w1)).
  split; [done|]. intros o w1. by apply H.
Qed.

Lemma invariant_forEach {X} (l : list X) (body : X -> Async unit) :
  (forall x, invariant P (body x)) -> invariant P (forEach l body).
Proof.
  intros H. induction l as [|a l IH]; cbn [forEach].
  - apply invariant_skip.
  - apply invariant_bind; [apply H|]. intros _. apply IH.
Qed.

Ltac frame := apply P_frame; repeat split.

Ltac update :=
  first
    [ apply P_node;
      first [ apply nodeAssigned_inBounds | apply nodeSucceeded_inBounds
            | apply nodeFailed_inBounds | by intros [] ]
    | apply P_emit; reflexivity
    | apply P_task
    | apply P_consensus
    | frame ].

Ltac invariant_step :=
  lazymatch goal with
  | |- invariant _ (get ≫= _) => apply invariant_get; intros ?
  | |- invariant _ skip => apply invariant_skip
  | |- invariant _ (mret _) => apply invariant_ret
  | |- invariant _ (await_executeTask _ _ ≫= _) =>
      apply invariant_await; intros ?
  | |- invariant _ (modify incr_completedTasks ≫= _) =>
      intros ? ?; apply P_completed; assumption
  | |- invariant _ (modify _ ≫= _) =>
      apply invariant_modify; [intros ?; update|]
  | |- invariant _ (modify _) => apply invariant_modify_end; intros ?; update
  | |- invariant _ (match ?e with _ => _ end) => destruct e
  | |- invariant _ (if ?e then _ else _) => destruct e
  end.

Lemma invariant_directAssignTask t n : invariant P (directAssignTask t n).
Proof. unfold directAssignTask. repeat invariant_step. Qed.

Lemma invariant_retryTask t : invariant P (retryTask t).
Proof.
  unfold retryTask. repeat invariant_step. apply invariant_directAssignTask.
Qed.

Lemma invariant_assignTaskWithConsensus t c :
  invariant P (assignTaskWithConsensus t c).
Proof. unfold assignTaskWithConsensus. repeat invariant_step. Qed.

Lemma invariant_assignTask t : invariant P (assignTask t).
Proof.
  unfold assignTask. repeat invariant_step.
  - apply invariant_assignTaskWithConsensus.
  - apply invariant_directAssignTask.
Qed.

Lemma invariant_resolveConsensus proposalId :
  invariant P (resolveConsensus proposalId).
Proof.
  unfold resolveConsensus. repeat invariant_step.
  all: try (apply invariant_bind; [|intros; repeat invariant_step]).
  all: repeat invariant_step.
  all: apply invariant_directAssignTask.
Qed.

Lemma invariant_reassignNodeTasks nodeId :
  invariant P (reassignNodeTasks nodeId).
Proof.
  unfold reassignNodeTasks. invariant_step.
  apply invariant_forEach. intros t. invariant_step.
  apply invariant_assignTask.
Qed.

Lemma invariant_removeNode nodeId : invariant P (removeNode nodeId).
Proof.
  intros w. unfold removeNode. rewrite !run_modify. intros Hw.
  change (P (emit (nodeUnregistered nodeId)
               (updateMetrics
                  (set_totalNodes (on_nodes (map_delete nodeId) w))))).
  apply P_emit; [reflexivity|]. by apply P_unregister.
Qed.

Lemma invariant_unregisterNode nodeId : invariant P (unregisterNode nodeId).
Proof.
  unfold unregisterNode. repeat invariant_step.
  apply invariant_bind; [apply invariant_reassignNodeTasks|].
  intros _. apply invariant_removeNode.
Qed.

Lemma invariant_registerNode a caps : invariant P (registerNode a caps).
Proof.
  intros w. unfold registerNode. rewrite run_get. cbv zeta.
  rewrite !run_modify. intros Hw.
  change (P (on_listeners (fun ls => ls ++ [a])
               (emit (nodeRegistered (length (nodeObjects w)))
                  (updateMetrics
                     (set_totalNodes
                        (on_nodes (map_set a (length (nodeObjects w)))
                           (on_nodeObjects
                              (fun ns =>
                                 ns ++ [mkNode a a caps 0 100 (clock w)])
                              w))))))).
  apply (P_frame
           (emit (nodeRegistered (length (nodeObjects w)))
              (updateMetrics
                 (set_totalNodes
                    (on_nodes (map_set a (length (nodeObjects w)))
                       (on_nodeObjects
                          (fun ns => ns ++ [mkNode a a caps 0 100 (clock w)])
                          w)))))).
  - repeat split.
  - apply P_emit; [reflexivity|]. by apply P_register.
Qed.

Lemma invariant_onAgentStateChanged nodeId a st :
  invariant P (onAgentStateChanged nodeId a st).
Proof.
  unfold onAgentStateChanged, handleAgentStateChange. repeat invariant_step.
  apply invariant_reassignNodeTasks.
Qed.

Lemma invariant_decomposeTask t : invariant P (decomposeTask t).
Proof.
  unfold decomposeTask. repeat invariant_step.
  - apply invariant_forEach. intros e. invariant_step.
    apply invariant_assignTask.
  - apply invariant_assignTask.
Qed.

Lemma invariant_submitTask spec : invariant P (submitTask spec;; skip).
Proof.
  unfold submitTask. apply invariant_bind; [|intros; apply invariant_skip].
  repeat invariant_step.
  apply invariant_bind; [|intros; apply invariant_ret].
  invariant_step.
  - apply invariant_decomposeTask.
  - apply invariant_assignTask.
Qed.

Lemma sameBooks_trans a b c : sameBooks a b -> sameBooks b c -> sameBooks a c.
Proof.
  intros (A1 & A2 & A3 & A4 & A5) (B1 & B2 & B3 & B4 & B5).
  repeat split; congruence.
Qed.

Lemma simulateVoting_books p w : sameBooks w (simulateVoting p w).
Proof.
  unfold simulateVoting. generalize (nodes w) as l. intros l. revert w.
  induction l as [|e l IH]; intros w; cbn [foldl]; [done|].
  eapply sameBooks_trans; [|apply IH].
  unfold castVote. destruct (nodeObjects w !! e.2); [|done].
  by destruct (_ && _).
Qed.

Lemma invariant_runCallback cb : invariant P (runCallback cb).
Proof.
  destruct cb; cbn [runCallback].
  - apply invariant_modify_end. intros w. apply P_frame, simulateVoting_books.
  - apply invariant_resolveConsensus.
  - apply invariant_retryTask.
Qed.

Lemma heartbeat_keeps w : P w -> P (heartbeat w).
Proof.
  unfold heartbeat. destruct (heartbeatInterval w); [|done].
  intros Hw. apply P_sweep. unfold checkNodeHealth.
  generalize (nodes w) as l. intros l. revert w Hw.
  induction l as [|e l IH]; intros w Hw; cbn [foldl]; [done|].
  apply IH. destruct (nodeObjects w !! e.2); [|done].
  destruct (_ <? _); [|done]. by apply P_emit.
Qed.

Lemma shutdown_keeps w : P w -> P (shutdown w).
Proof.
  intros Hw. rewrite shutdown_unfold. apply P_emit; [done|].
  assert (H1 : P (if heartbeatInterval w then set_heartbeatInterval false w
                  else w)).
  { destruct (heartbeatInterval w); [|done]. revert Hw. by apply P_frame. }
  revert H1. generalize (if heartbeatInterval w
                         then set_heartbeatInterval false w else w).
  generalize (activeTasks w) as l. intros l.
  induction l as [|t l IH]; intros w1 H1; cbn [foldl]; [done|].
  apply IH. apply P_emit; [done|]. revert H1. by apply P_frame.
Qed.

Lemma settle_keeps pre (r : Res unit) pool :
  keeps P pre r -> poolKeeps P pool ->
  (pre -> P (settle r pool).1) /\ poolKeeps P (settle r pool).2.
Proof.
  destruct r as [[] w|w n t k]; cbn; [done|].
  intros [H1 H2] Hp. split; [done|].
  apply Forall_app. split; [done|]. constructor; [|constructor].
  intros o w1. by apply H2.
Qed.

Lemma step_keeps now st sys :
  poolKeeps P sys.2 ->
  (P sys.1 -> P (step now st sys).1) /\ poolKeeps P (step now st sys).2.
Proof.
  destruct sys as [w pool]. cbn [fst snd]. intros Hp.
  assert (Hc : P w -> P (set_clock now w)) by (by apply P_frame).
  assert (Hgo : forall m : Async unit,
             invariant P m ->
             (P w -> P (settle (m (set_clock now w)) pool).1) /\
             poolKeeps P (settle (m (set_clock now w)) pool).2).
  { intros m Hm. apply settle_keeps; [|done].
    eapply keeps_weaken; [exact Hc|apply Hm]. }
  unfold step. cbn [fst snd].
  destruct st.
  - apply (Hgo (registerNode agentId caps)), invariant_registerNode.
  - apply (Hgo (unregisterNode nodeId)), invariant_unregisterNode.
  - apply (Hgo (submitTask task;; skip)), invariant_submitTask.
  - split; [|done]. cbn [fst]. intros Hw. by apply shutdown_keeps, Hc.
  - change (listeners (set_clock now w)) with (listeners w).
    destruct (listeners w !! listener) as [nodeId|].
    + apply (Hgo (onAgentStateChanged nodeId agentId state)),
        invariant_onAgentStateChanged.
    + done.
  - change (timers (set_clock now w)) with (timers w).
    destruct (timers w !! i) as [timer|]; [|done].
    apply (Hgo (fun w' => runCallback (callback timer)
                            (on_timers (delete i) w'))).
    intros w'. eapply keeps_weaken; [|apply invariant_runCallback].
    by apply P_frame.
  - split; [|done]. cbn [fst]. intros Hw. by apply heartbeat_keeps, Hc.
  - destruct (pool !! i) as [s|] eqn:E; [|done].
    apply settle_keeps.
    + unfold poolKeeps in Hp. rewrite Forall_forall in Hp.
      eapply keeps_weaken; [exact Hc|].
      apply (Hp s). by eapply list_elem_of_lookup_2.
    + unfold poolKeeps in *. by apply Forall_delete.
Qed.

Lemma steps_keeps l sys :
  poolKeeps P sys.2 ->
  (P sys.1 -> P (steps l sys).1) /\ poolKeeps P (steps l sys).2.
Proof.
  revert sys. induction l as [|[now st] l IH]; intros sys Hp; [done|].
  cbn [steps foldl]. destruct (step_keeps now st sys Hp) as [H1 H2].
  destruct (IH _ H2) as [I1 I2]. split; [|done]. auto.
Qed.

End Keeps.

Lemma filter_completions_app l e :
  length (List.filter isCompletion (l ++ [e]))
  = (length (List.filter isCompletion l)
     + (if isCompletion e then 1 else 0))%nat.
Proof.
  rewrite List.filter_app, length_app. cbn. by destruct (isCompletion e).
Qed.

Lemma updateMetrics_keeps w :
  Forall inBounds (nodeObjects w) ->
  (0 <= averageLoadFactor (metrics w))%Q ->
  (averageLoadFactor (metrics w) <= 1)%Q ->
  let m := metrics (updateMetrics w) in
  totalNodes m = map_size (nodes w)
  /\ 0 <= activeNodes m <= totalNodes m
  /\ (0 <= averageLoadFactor m)%Q /\ (averageLoadFactor m <= 1)%Q.
Proof.
  intros Hb H0 H1.
  destruct (updateMetrics_figures w Hb) as (E1 & E2 & E3 & E4 & _).
  cbv zeta. split; [done|]. split; [done|].
  destruct (Z.lt_trichotomy 0 (map_size (nodes w))) as [Hp|[Hz|Hn]].
  - by apply E3.
  - rewrite (E4 (eq_sym Hz)). done.
  - unfold map_size in Hn. lia.
Qed.

Ltac conjuncts := repeat match goal with |- _ /\ _ => split end.

Lemma metricsOK_laws : InvariantLaws metricsOK.
Proof.
  split; unfold metricsOK.
  - intros w w' (E1 & E2 & E3 & E4 & E5). by rewrite E1, E2, E4, E5.
  - intros e w He H. cbn [metrics nodes emitted emit nodeObjects].
    rewrite filter_completions_app, He, Nat.add_0_r. exact H.
  - intros t r w (H1 & H2 & H3 & H4 & (H5 & H5') & H6 & H7 & H8 & H9).
    cbn [metrics nodes emitted emit nodeObjects incr_completedTasks
         on_metrics totalNodes completedTasks consensusSuccessRate activeNodes
         averageLoadFactor averageTaskCompletionTime].
    rewrite filter_completions_app. cbn [isCompletion].
    conjuncts; try done; lia.
  - intros n f w Hf (H1 & H2 & H3 & H4 & (H5 & H5') & H6 & H7 & H8 & H9).
    conjuncts; try done. cbn. apply Forall_alter; [done|].
    intros x _. apply Hf.
  - intros id a caps t w (H1 & H2 & H3 & H4 & (H5 & H5') & H6 & H7 & H8 & H9).
    set (w1 := set_totalNodes _).
    assert (Hb : Forall inBounds (nodeObjects w1)).
    { cbn. apply Forall_app. split; [done|]. repeat constructor; cbn; lra. }
    destruct (updateMetrics_keeps w1 Hb) as (E1 & E2 & E3 & E4); [done..|].
    cbv zeta in *. conjuncts; try done; apply E2.
  - intros id w (H1 & H2 & H3 & H4 & (H5 & H5') & H6 & H7 & H8 & H9).
    set (w1 := set_totalNodes _).
    assert (Hb : Forall inBounds (nodeObjects w1)) by done.
    destruct (updateMetrics_keeps w1 Hb) as (E1 & E2 & E3 & E4); [done..|].
    cbv zeta in *. conjuncts; try done; apply E2.
  - intros b w (H1 & H2 & H3 & H4 & (H5 & H5') & H6 & H7 & H8 & H9).
    cbn [metrics nodes emitted nodeObjects updateConsensusMetrics on_metrics
         totalNodes completedTasks consensusSuccessRate activeNodes
         averageLoadFactor averageTaskCompletionTime].
    conjuncts; try done; destruct b; lra.
  - intros k v w H. exact H.
  - intros w (H1 & H2 & H3 & H4 & (H5 & H5') & H6 & H7 & H8 & H9).
    destruct (updateMetrics_keeps w H9) as (E1 & E2 & E3 & E4); [done..|].
    cbv zeta in *. conjuncts; try done; apply E2.
Qed.

(** X23. In every state the coordinator reaches: totalNodes is the size of
    the node map; completedTasks is the number of 'taskCompleted'
    notifications emitted; the consensus success rate and the average load
    factor are within [0,1]; activeNodes is between 0 and totalNodes;
    averageTaskCompletionTime is 0 (it is never updated); every node is
    within its bounds. *)
Theorem metrics_are_consistent ids coins l :
  metricsOK (steps l (boot ids coins)).1.
Proof.
  apply (steps_keeps _ metricsOK_laws); [constructor|].
  unfold metricsOK. cbn. conjuncts; try done; try lra; try lia.
Qed.

Lemma hasTask_laws k : InvariantLaws (hasTask k).
Proof.
  split; unfold hasTask; try (intros; assumption).
  - intros w w' (_ & _ & E & _). by rewrite E.
  - intros k' v w H. cbn [tasks on_tasks].
    destruct (decide (k' = k)) as [->|Hne].
    + rewrite map_get_set. by eexists.
    + by rewrite map_get_set_ne.
Qed.

(** X24. A task id that is in the task map stays in it over any run: the
    coordinator never deletes a task. *)
Theorem tasks_are_never_removed ids coins before after k :
  hasTask k (steps before (boot ids coins)).1 ->
  hasTask k (steps after (steps before (boot ids coins))).1.
Proof.
  destruct (steps_keeps _ (hasTask_laws k) before (boot ids coins))
    as [_ Hp]; [constructor|].
  by destruct (steps_keeps _ (hasTask_laws k) after _ Hp) as [H _].
Qed.

Lemma tasks_are_never_removed_witness :
  hasTask "task_0_0"
    (steps [(0, CallSubmitTask simpleTask)] (boot pretty (fun _ => true))).1
  /\ hasTask "task_0_0"
       (steps [(1, CallRegisterNode "A" ["a"]); (2, CallShutdown)]
          (steps [(0, CallSubmitTask simpleTask)]
                 (boot pretty (fun _ => true)))).1.
Proof.
  assert (H : hasTask "task_0_0"
                (steps [(0, CallSubmitTask simpleTask)]
                       (boot pretty (fun _ => true))).1).
  { exists 0%nat. vm_compute. reflexivity. }
  split; [exact H|].
  exact (tasks_are_never_removed pretty (fun _ => true)
           [(0, CallSubmitTask simpleTask)]
           [(1, CallRegisterNode "A" ["a"]); (2, CallShutdown)]
           "task_0_0" H).
Defined.

End SwarmExtras.

(** * Node loss *)

Module NodeLoss.
Import Swarm SwarmTerms SwarmProofs SwarmExtras.

Lemma decides_kept s s' t e :
  (forall x, taskObjects s !! t = Some x ->
     exists x', taskObjects s' !! t = Some x' /\ task_id x' = task_id x) ->
  (forall p q, proposalObjects s !! p = Some q ->
               proposalObjects s' !! p = Some q) ->
  decides s t e -> decides s' t e.
Proof.
  intros Ht Hp. destruct e; cbn; try done.
  intros (x & q & Hx & Hq & E).
  destruct (Ht x Hx) as (x' & Hx' & Eid).
  exists x', q. split; [done|]. split; [by apply Hp|]. congruence.
Qed.

Lemma lookup_alter_task_id (f : SwarmTask -> SwarmTask) (t t' : nat)
    (ts : list SwarmTask) x :
  (forall y, task_id (f y) = task_id y) ->
  ts !! t' = Some x ->
  exists x', alter f t ts !! t' = Some x' /\ task_id x' = task_id x.
Proof.
  intros Hf Hx. rewrite list_lookup_alter.
  destruct (decide (t = t')) as [->|Hne]; rewrite Hx; cbn.
  - eexists. split; [done|]. apply Hf.
  - by exists x.
Qed.

(** A segment's bookkeeping of the tasks given back so far survives the
    reset of a task and whatever leaves the task objects alone and only
    adds proposals. *)
Lemma givenBack_reset nodeId w0 s s' evs more t t' :
  taskObjects s' = alter (resetForReassign nodeId) t (taskObjects s) ->
  (exists ps, proposalObjects s' = proposalObjects s ++ ps) ->
  givenBack nodeId None w0 s evs t' ->
  givenBack nodeId None w0 s' (evs ++ more) t'.
Proof.
  intros Ht [ps Hp] H Hsome. destruct (H Hsome) as [Hpark Hdec].
  split.
  - intros _. destruct (Hpark ltac:(done)) as (x & Hx & Hst & Hn).
    unfold parked. rewrite Ht, list_lookup_alter.
    destruct (decide (t = t')) as [->|Hne]; rewrite Hx; cbn.
    + eexists. split; [done|]. apply resetForReassign_spec.
    + by exists x.
  - apply Exists_app. left.
    eapply Exists_impl; [exact Hdec|]. intros e.
    apply decides_kept.
    + intros x Hx. rewrite Ht. by apply lookup_alter_task_id.
    + intros p q Hq. rewrite Hp. by apply lookup_app_l_Some.
Qed.

Lemma elem_of_findSuitableNodes task w e :
  e ∈ findSuitableNodes task w -> nodeObjects w !! e.1 = Some e.2.
Proof.
  unfold findSuitableNodes. rewrite sortWith_perm.
  intros H%list_elem_of_In%filter_In. destruct H as [H%list_elem_of_In _].
  unfold nodeEntries in H. apply list_elem_of_omap in H as ([k l] & _ & H).
  cbn in H. destruct (nodeObjects w !! l) eqn:E; [|done].
  cbn in H. by injection H as <-.
Qed.

Lemma loop nodeId todo : forall done_ w0 s evs0,
  emitted s = emitted w0 ++ evs0 ->
  nodes s = nodes w0 ->
  (forall t, is_Some (taskObjects w0 !! t) -> is_Some (taskObjects s !! t)) ->
  Forall (givenBack nodeId None w0 s evs0) done_ ->
  handsOver nodeId (done_ ++ todo) w0
    (bindRes (forEach todo (reassign nodeId) s) (fun _ => removeNode nodeId)).
Proof.
  induction todo as [|t todo IH]; intros done_ w0 s evs0 He Hn Hobj Hdone.
  - rewrite app_nil_r. cbn [forEach skip ret bindRes].
    unfold removeNode. rewrite !run_modify.
    cbn [handsOver yielded modify].
    exists (evs0 ++ [nodeUnregistered nodeId]). split.
    { cbn. by rewrite He, <- app_assoc. }
    split; [|split].
    + eapply Forall_impl; [exact Hdone|]. intros t' H Hsome.
      destruct (H Hsome) as [Hp Hd]. split; [exact Hp|].
      apply Exists_app. left. exact Hd.
    + cbn. apply map_get_delete.
    + by rewrite last_snoc.
  - set (s1 := updateTask t (resetForReassign nodeId) s).
    change (forEach (t :: todo) (reassign nodeId) s)
      with (bindRes (assignTask t s1)
                    (fun _ => forEach todo (reassign nodeId))).
    assert (Hs1 : taskObjects s1
                  = alter (resetForReassign nodeId) t (taskObjects s))
      by done.
    assert (Hobj1 : forall t', is_Some (taskObjects w0 !! t') ->
                               is_Some (taskObjects s1 !! t')).
    { intros t' H. destruct (Hobj t' H) as [x Hx].
      destruct (lookup_alter_task_id (resetForReassign nodeId) t t'
                  (taskObjects s) x) as (x' & Hx' & _); [done|done|].
      rewrite Hs1. by exists x'. }
    (* the tasks given back, in the state a synchronous answer leaves *)
    assert (Hnext : forall s2 more,
      taskObjects s2 = taskObjects s1 ->
      (exists ps, proposalObjects s2 = proposalObjects s ++ ps) ->
      nodes s2 = nodes s ->
      emitted s2 = emitted s ++ more ->
      Exists (decides s2 t) more ->
      handsOver nodeId (done_ ++ t :: todo) w0
        (bindRes (forEach todo (reassign nodeId) s2)
                 (fun _ => removeNode nodeId))).
    { intros s2 more Ht2 Hp2 Hn2 He2 Hd2.
      replace (done_ ++ t :: todo) with ((done_ ++ [t]) ++ todo)
        by by rewrite <- app_assoc.
      apply (IH _ w0 s2 (evs0 ++ more)).
      - by rewrite He2, He, <- app_assoc.
      - congruence.
      - intros t' H. rewrite Ht2. by apply Hobj1.
      - apply Forall_app. split.
        + eapply Forall_impl; [exact Hdone|]. intros t'.
          apply (givenBack_reset _ _ _ _ _ _ t); [by rewrite Ht2|done].
        + constructor; [|constructor]. intros Hsome. split.
          * intros _. destruct (Hobj1 t Hsome) as [x Hx].
            unfold parked. rewrite Ht2. exists x. split; [done|].
            rewrite Hs1, list_lookup_alter, decide_True in Hx by done.
            destruct (taskObjects s !! t) as [y|]; [|done].
            cbn in Hx. injection Hx as <-. apply resetForReassign_spec.
          * apply Exists_app. by right. }
    unfold assignTask at 1. rewrite run_get.
    destruct (taskObjects s1 !! t) as [task|] eqn:Etask.
    2:{ (* the object is missing: nothing is given back *)
      cbn [skip ret bindRes].
      replace (done_ ++ t :: todo) with ((done_ ++ [t]) ++ todo)
        by by rewrite <- app_assoc.
      apply (IH _ w0 s1 evs0); [done|done|done|].
      apply Forall_app. split.
      - eapply Forall_impl; [exact Hdone|]. intros t' H.
        assert (G : givenBack nodeId None w0 s1 (evs0 ++ []) t').
        { apply (givenBack_reset _ _ s _ _ _ t);
            [done|by exists []; rewrite app_nil_r|done]. }
        by rewrite app_nil_r in G.
      - constructor; [|constructor]. intros Hsome.
        destruct (Hobj1 t Hsome) as [x Hx]. congruence. }
    cbv zeta.
    destruct (findSuitableNodes task s1) as [|best rest] eqn:Ecand.
    { (* no suitable node *)
      cbn [modify bindRes].
      apply (Hnext _ [taskAssignmentFailed t "No suitable nodes available"]);
        [done|by exists []; rewrite app_nil_r|done|done|].
      by left. }
    assert (Hnode : nodeObjects s1 !! best.1 = Some best.2).
    { apply (elem_of_findSuitableNodes task). rewrite Ecand. by left. }
    destruct ((8 <=? priority task)
              || bool_decide ("critical" ∈ requirements task)).
    { (* put to the vote *)
      unfold assignTaskWithConsensus. rewrite run_get, Etask. cbv zeta.
      rewrite !run_modify. cbn [modify bindRes].
      eapply (Hnext _ [consensusStarted (length (proposalObjects s1))]);
        [done|by eexists|done|done|].
      left. cbn. eexists task, _. split; [exact Etask|]. split.
      - by apply list_lookup_middle.
      - done. }
    (* assigned: the call waits for the execution *)
    destruct (directAssignTask_waits t best.1 best.2 s1 Hnode)
      as (k & Ek & Hres & Hrej).
    rewrite Ek. cbn [bindRes handsOver yielded].
    exists (evs0 ++ [taskAssigned t best.1]). split.
    { cbn. by rewrite He, <- app_assoc. }
    exists done_, todo. split; [done|]. split; [|split; [|split; [|split]]].
    + eapply Forall_impl; [exact Hdone|]. intros t' H Hsome.
      destruct (H Hsome) as [Hp Hd]. split.
      * intros Hne. destruct (Hp ltac:(done)) as (x & Hx & Hst & Hni).
        exists x. split; [|done]. cbn.
        rewrite !list_lookup_alter_ne by congruence. done.
      * apply Exists_app. left. eapply Exists_impl; [exact Hd|]. intros e.
        apply decides_kept; [|done].
        intros x Hx. cbn.
        destruct (lookup_alter_task_id (resetForReassign nodeId) t t'
                    (taskObjects s) x) as (x1 & Hx1 & E1); [done|done|].
        destruct (lookup_alter_task_id
                    (fun y => set_assignedNodes (Some [node_id best.2])
                                                (set_status Assigned y))
                    t t' _ x1 ltac:(done) Hx1) as (x2 & Hx2 & E2).
        destruct (lookup_alter_task_id (set_status Executing)
                    t t' _ x2 ltac:(done) Hx2) as (x3 & Hx3 & E3).
        exists x3. split; [exact Hx3|]. congruence.
    + unfold startedOn. cbn.
      rewrite !list_lookup_alter, !decide_True by done.
      assert (Et : resetForReassign nodeId <$> taskObjects s !! t = Some task).
      { rewrite <- Etask, Hs1, list_lookup_alter, decide_True; done. }
      rewrite Et.
      change (nodeObjects s !! best.1) with (nodeObjects s1 !! best.1).
      rewrite Hnode. cbn. eexists _, _. done.
    + by rewrite last_snoc.
    + done.
    + intros o w1.
      assert (Hend : forall w1',
        k o w1 = Done tt w1' ->
        (exists more, emitted w1' = emitted w1 ++ more) ->
        nodes w1' = nodes w1 ->
        (forall t', is_Some (taskObjects w1 !! t') ->
                    is_Some (taskObjects w1' !! t')) ->
        handsOver nodeId todo w1
          (bindRes (bindRes (k o w1) (fun _ => forEach todo (reassign nodeId)))
                   (fun _ => removeNode nodeId))).
      { intros w1' -> [more Hm] Hn' Hobj'. cbn [bindRes].
        by apply (IH [] w1 w1' more). }
      destruct o as [r|e].
      * eapply Hend; [apply Hres|by eexists|done|].
        intros t' [x Hx].
        destruct (lookup_alter_task_id
                    (fun y => set_result (Some r) (set_status Completed y))
                    t t' _ x ltac:(done) Hx) as (x' & Hx' & _).
        by exists x'.
      * assert (Hobj' : forall w1', taskObjects w1'
                          = alter (set_status Failed) t (taskObjects w1) ->
                  forall t', is_Some (taskObjects w1 !! t') ->
                             is_Some (taskObjects w1' !! t')).
        { intros w1' E t' [x Hx].
          destruct (lookup_alter_task_id (set_status Failed)
                      t t' _ x ltac:(done) Hx) as (x' & Hx' & _).
          rewrite E. by exists x'. }
        pose proof (Hrej e w1) as Hk. cbv zeta in Hk.
        destruct (default true _).
        -- eapply Hend; [exact Hk|by eexists|done|by apply Hobj'].
        -- eapply Hend; [exact Hk|by eexists|done|by apply Hobj'].
Qed.

Lemma unregisterNode_handsOver nodeId w :
  is_Some (map_get nodeId (nodes w)) ->
  handsOver nodeId (nodeTasks nodeId w) w (unregisterNode nodeId w).
Proof.
  intros [n Hn]. unfold unregisterNode. rewrite run_get, Hn.
  change ((reassignNodeTasks nodeId;; removeNode nodeId) w)
    with (bindRes (forEach (nodeTasks nodeId w) (reassign nodeId) w)
                  (fun _ => removeNode nodeId)).
  apply (loop nodeId _ [] w w []); [by rewrite app_nil_r|done|done|constructor].
Qed.

(** C5, as amended. When unregisterNode(id) completes, however it was
    interleaved, the node map has no entry for id, and getNodes() lists no
    node with that id (in every state the coordinator reaches, a node sits
    in the map under its own id). The tasks the call reassigns are those
    that, at the time of the call, are in the task map as assigned or
    executing with id among their assignedNodes. While the node is still
    registered the call takes them one after the other: the task is reset to
    pending with id removed from its assignedNodes and the assignment policy
    answers for it ('taskAssigned', 'taskAssignmentFailed' or
    'consensusStarted'); when the policy assigns the task, the call waits for
    that execution before it turns to the next task. Only the segment that
    has no task left deletes the node record. The call writes to no other
    task: a task in any other status at the time of the call keeps its
    assignedNodes. *)
Theorem unregisterNode_reassigns (nodeId : string) (w : SwarmCoordinator) :
  finally (fun w' => map_get nodeId (nodes w') = None /\
                     (keyed w' -> nodeId ∉ node_id <$> getNodes w'))
          (unregisterNode nodeId w) /\
  (forall ids coins l, keyed (steps l (boot ids coins)).1) /\
  (forall t, t ∈ nodeTasks nodeId w <->
     exists task, (t, task) ∈ taskEntries w /\
                  (exists ns, assignedNodes task = Some ns /\ nodeId ∈ ns) /\
                  (status task = Assigned \/ status task = Executing)) /\
  (is_Some (map_get nodeId (nodes w)) ->
     handsOver nodeId (nodeTasks nodeId w) w (unregisterNode nodeId w)) /\
  (map_get nodeId (nodes w) = None -> unregisterNode nodeId w = Done tt w) /\
  (forall t, t ∉ nodeTasks nodeId w ->
             obeys (taskFrame t) None w (unregisterNode nodeId w)).
Proof.
  split; [|split; [|split; [|split; [|split]]]].
  - apply (finally_impl (fun w' => map_get nodeId (nodes w') = None)).
    { intros w' H. split; [exact H|]. intros Hk. by apply keyed_getNodes. }
    unfold unregisterNode. rewrite run_get.
    destruct (map_get nodeId (nodes w)) eqn:E; [|exact E].
    apply finally_bind. intros _ w1. simpl. apply map_get_delete.
  - apply steps_keyed.
  - apply nodeTasks_spec.
  - apply unregisterNode_handsOver.
  - intros E. unfold unregisterNode. by rewrite run_get, E.
  - intros t Ht.
    apply (obeys_unregisterNode _ _ _ (taskFrame_laws t)).
    intros t' Hin ->. done.
Qed.

Lemma unregisterNode_reassigns_witness :
  let w := (steps two_nodes_one_task (boot pretty (fun _ => true))).1 in
  nodeTasks "A" w = [0%nat] /\
  handsOver "A" (nodeTasks "A" w) w (unregisterNode "A" w) /\
  exists w' k,
    unregisterNode "A" w = Wait w' 1 0 k /\
    ((fun t => (status t, assignedNodes t)) <$> getTasks w')
    = [(Executing, Some ["B"])] /\
    (node_id <$> getNodes w') = ["A"; "B"].
Proof.
  cbv zeta.
  assert (H1 : nodeTasks "A"
                 (steps two_nodes_one_task (boot pretty (fun _ => true))).1
               = [0%nat]) by (vm_compute; reflexivity).
  assert (H2 : is_Some (map_get "A"
                 (nodes (steps two_nodes_one_task
                           (boot pretty (fun _ => true))).1)))
    by (vm_compute; by eexists).
  split; [exact H1|]. split.
  - exact (proj1 (proj2 (proj2 (proj2
             (unregisterNode_reassigns "A"
                (steps two_nodes_one_task (boot pretty (fun _ => true))).1))))
             H2).
  - eexists _, _. split; [vm_compute; reflexivity|].
    split; vm_compute; reflexivity.
Defined.

(** A task assigned to the node while unregisterNode waits is not among the
    tasks the call reassigns: when the call completes the node is gone and
    the task is executing on it. *)
Lemma task_assigned_meanwhile_stays :
  let sys := steps assigned_meanwhile (boot pretty (fun _ => true)) in
  (node_id <$> getNodes sys.1) = ["B"] /\
  last (emitted sys.1) = Some (nodeUnregistered "A") /\
  ((fun t => (task_id t, status t, assignedNodes t)) <$> getTasks sys.1)
  = [("task_2_0", Completed, Some ["B"]);
     ("task_4_1", Executing, Some ["A"])].
Proof. vm_compute. done. Qed.

(** The node is in the node map while its tasks are reassigned, so the
    policy can choose it again. *)
Lemma reassigned_to_the_same_node :
  let sys := steps back_to_the_node (boot pretty (fun _ => true)) in
  assignmentLog sys.1 = [("task_2_0", "A"); ("task_2_0", "A")] /\
  (node_id <$> getNodes sys.1) = [] /\
  ((fun t => (status t, assignedNodes t)) <$> getTasks sys.1)
  = [(Completed, Some ["A"])] /\
  sys.2 = [].
Proof. vm_compute. done. Qed.

End NodeLoss.

(** * Properties of the agents *)

Module AgentExtras.
Import Agent.

Lemma executeTask_refusal now task a :
  match executeTask now task a with
  | Settled reply _ => admits a task = false /\ exists msg, reply = Rejects msg
  | Awaiting _ _ => admits a task = true
  end.
Proof.
  unfold executeTask, admits.
  destruct (bool_decide (state a = RUNNING)); cbn [negb andb]; [|eauto].
  destruct (maxConcurrentTasks a <=? Z.of_nat (size (currentTasks a)))
    eqn:Ec.
  - apply Z.leb_le in Ec. rewrite (proj2 (Z.ltb_ge _ _)) by lia. cbn. eauto.
  - apply Z.leb_gt in Ec. rewrite (proj2 (Z.ltb_lt _ _)) by lia.
    cbn [andb]. destruct (canHandleTask a task); cbn [negb]; eauto.
Qed.

Lemma executeTask_flag now task a :
  match executeTask now task a with
  | Settled _ _ => True
  | Awaiting _ k =>
      forall later h a',
        exists r,
          (k later h a').1 = ResolvesWith r
          /\ Swarm.r_success r
             = (match h with Fulfils => true | _ => false end)
  end.
Proof.
  unfold executeTask.
  destruct (negb (bool_decide (state a = RUNNING))); [done|].
  destruct (maxConcurrentTasks a <=? _); [done|].
  destruct (negb (canHandleTask a task)); [done|].
  intros later h a'. destruct h as [|e]; eexists; cbn; done.
Qed.

(** X25. executeTask rejects, leaving the agent exactly as it was, when
    the agent is not RUNNING, or runs maxConcurrentTasks tasks or more, or
    lacks the task's type among its capabilities; otherwise it puts the task
    id into currentTasks, raises assignedTasks by one and waits for
    onExecuteTask. *)
Theorem executeTask_admission now task a :
  match executeTask now task a with
  | Settled reply a' =>
      admits a task = false /\ a' = a /\ (exists msg, reply = Rejects msg)
  | Awaiting a' _ =>
      admits a task = true
      /\ currentTasks a' = {[task_id task]} ∪ currentTasks a
      /\ assignedTasks a' = assignedTasks a + 1
      /\ completedTasks a' = completedTasks a
      /\ errorCount a' = errorCount a
      /\ state a' = RUNNING
  end.
Proof.
  unfold executeTask, admits.
  destruct (bool_decide (state a = RUNNING)) eqn:Es; cbn [negb andb].
  - apply bool_decide_eq_true in Es.
    destruct (maxConcurrentTasks a <=? Z.of_nat (size (currentTasks a)))
      eqn:Ec.
    + apply Z.leb_le in Ec.
      rewrite (proj2 (Z.ltb_ge _ _)) by lia. cbn. eauto.
    + apply Z.leb_gt in Ec. rewrite (proj2 (Z.ltb_lt _ _)) by lia.
      cbn [andb]. destruct (canHandleTask a task); cbn [negb]; [|eauto].
      repeat split; done.
  - eauto.
Qed.

(** X26. Once admitted, executeTask never rejects: whatever onExecuteTask
    does, and whatever state the agent is in by then, the promise resolves
    with a result whose success flag tells whether the hook fulfilled;
    completedTasks or errorCount rises by one accordingly, the state is not
    changed, and the task id is no longer in currentTasks. *)
Theorem executeTask_always_resolves now task a :
  match executeTask now task a with
  | Settled _ _ => admits a task = false
  | Awaiting _ k =>
      forall later h a',
        exists r,
          (k later h a').1 = ResolvesWith r
          /\ Swarm.r_taskId r = task_id task
          /\ Swarm.r_agentId r = id a'
          /\ Swarm.r_success r
             = (match h with Fulfils => true | _ => false end)
          /\ Swarm.r_duration r = later - now
          /\ (task_id task ∉ currentTasks (k later h a').2)
          /\ state (k later h a').2 = state a'
          /\ assignedTasks (k later h a').2 = assignedTasks a'
          /\ completedTasks (k later h a').2
             = completedTasks a' + (match h with Fulfils => 1 | _ => 0 end)
          /\ errorCount (k later h a').2
             = errorCount a' + (match h with Fulfils => 0 | _ => 1 end)
  end.
Proof.
  pose proof (executeTask_refusal now task a) as H.
  unfold executeTask in *.
  destruct (negb (bool_decide (state a = RUNNING))); [by destruct H|].
  destruct (maxConcurrentTasks a <=? _); [by destruct H|].
  destruct (negb (canHandleTask a task)); [by destruct H|].
  intros later h a'.
  assert (Hout : forall (S : gset string), task_id task ∉ S ∖ {[task_id task]}).
  { intros S [_ Hn]%elem_of_difference. apply Hn. by apply elem_of_singleton. }
  destruct h as [|e]; eexists; cbn; (repeat split; [apply Hout|lia..]).
Qed.

Lemma call_later_than now c a :
  match call now c a with
  | Settled _ a' => later_than a a'
  | Awaiting a' k =>
      later_than a a' /\ forall t h x, later_than x (k t h x).2
  end.
Proof.
  assert (Hrefl : forall x, later_than x x).
  { intros x. repeat split; try done; try lia. exists []. by rewrite app_nil_r. }
  destruct c; cbn [call].
  - unfold initialize. destruct (initializationPromise a) eqn:E; [done|].
    split.
    + repeat split; try done; try (cbn; lia). by eexists.
    + intros t [|e] x; cbn [snd]; repeat split; try done; try (cbn; lia);
        cbn; rewrite <- ?app_assoc; by eexists.
  - unfold terminate. split.
    + repeat split; try done; try (cbn; lia). by eexists.
    + intros t [|e] x; cbn [snd]; repeat split; try done; try (cbn; lia);
        cbn; rewrite <- ?app_assoc; by eexists.
  - unfold suspend. destruct (negb _); [done|]. split.
    + repeat split; try done; try (cbn; lia). by eexists.
    + intros t [|e] x; cbn [snd]; [|done].
      repeat split; try done; try (cbn; lia). by eexists.
  - unfold resume. destruct (negb _); [done|]. split.
    + repeat split; try done; try (cbn; lia). by eexists.
    + intros t [|e] x; cbn [snd]; [|done].
      repeat split; try done; try (cbn; lia). by eexists.
  - unfold executeTask.
    destruct (negb (bool_decide (state a = RUNNING))); [done|].
    destruct (maxConcurrentTasks a <=? _); [done|].
    destruct (negb (canHandleTask a task)); [done|]. split.
    + repeat split; try done; try (cbn; lia). by eexists.
    + intros t [|e] x; cbn [snd]; repeat split; try done; try (cbn; lia);
        by eexists.
Qed.

Lemma later_than_trans a b c :
  later_than a b -> later_than b c -> later_than a c.
Proof.
  intros (A1 & A2 & A3 & A4 & A5 & A6 & A7 & m1 & A8)
         (B1 & B2 & B3 & B4 & B5 & B6 & B7 & m2 & B8).
  repeat split; try congruence; try lia; [tauto|].
  exists (m1 ++ m2). by rewrite B8, A8, app_assoc.
Qed.

Lemma step_later_than now st sys :
  Forall (fun k => forall t h x, later_than x (k t h x).2) sys.2 ->
  later_than sys.1 (step now st sys).1
  /\ Forall (fun k => forall t h x, later_than x (k t h x).2)
            (step now st sys).2.
Proof.
  destruct sys as [a pool]. cbn [fst snd]. intros Hp.
  destruct st as [c|i h]; cbn [step fst snd].
  - pose proof (call_later_than now c a) as H.
    destruct (call now c a) as [reply a'|a' k]; cbn [fst snd]; [done|].
    destruct H as [H1 H2]. split; [done|].
    apply Forall_app. split; [done|]. by constructor.
  - destruct (pool !! i) as [k|] eqn:E; cbn [fst snd].
    + split; [|by apply Forall_delete].
      rewrite Forall_forall in Hp. apply Hp. by eapply list_elem_of_lookup_2.
    + split; [|done]. repeat split; try done; try lia.
      exists []. by rewrite app_nil_r.
Qed.

Lemma agent_steps_snoc l now st sys :
  steps (l ++ [(now, st)]) sys = step now st (steps l sys).
Proof. unfold steps. by rewrite foldl_app. Qed.

Lemma steps_later_than l sys :
  Forall (fun k => forall t h x, later_than x (k t h x).2) sys.2 ->
  later_than sys.1 (steps l sys).1
  /\ Forall (fun k => forall t h x, later_than x (k t h x).2)
            (steps l sys).2.
Proof.
  intros Hp. induction l as [|[now st] l IH] using rev_ind.
  - split; [|done]. repeat split; try done; try lia.
    exists []. by rewrite app_nil_r.
  - rewrite agent_steps_snoc. destruct IH as [I1 I2].
    destruct (step_later_than now st (steps l sys) I2) as [S1 S2].
    split; [|done]. by eapply later_than_trans.
Qed.

(** X28. Over any run of an agent its id, capabilities and capacity stay
    as constructed and errorCount never decreases; so an agent whose
    errorCount reached 5 is never healthy again, and once initialize has been
    called every later call of it returns the first call's promise and
    changes nothing. *)
Theorem agent_never_recovers agentId caps maxTasks t0 before after :
  let a := (steps before (boot agentId caps maxTasks t0)).1 in
  let a' := (steps after (steps before (boot agentId caps maxTasks t0))).1 in
  id a' = agentId
  /\ capabilities a' = caps
  /\ maxConcurrentTasks a' = maxTasks
  /\ errorCount a <= errorCount a'
  /\ (5 <= errorCount a -> isHealthy a' = false)
  /\ (initializationPromise a = true -> initialize a' = Settled Shared a').
Proof.
  intros a a'.
  destruct (steps_later_than before (boot agentId caps maxTasks t0))
    as [(B1 & B2 & B3 & _) Hp]; [constructor|].
  destruct (steps_later_than after
              (steps before (boot agentId caps maxTasks t0)) Hp)
    as [(A1 & A2 & A3 & A4 & _ & _ & A7 & _) _].
  fold a in A1, A2, A3, A4, A7, B1, B2, B3. fold a' in A1, A2, A3, A4, A7.
  cbn in B1, B2, B3.
  split; [congruence|]. split; [congruence|]. split; [congruence|].
  split; [exact A4|]. split.
  - intros H5. unfold isHealthy.
    rewrite (proj2 (Z.ltb_ge (errorCount a') 5)) by lia.
    by rewrite andb_false_r.
  - intros Hi. unfold initialize. by rewrite (A7 Hi).
Qed.

Lemma size_difference_le (S : gset string) x :
  (size (S ∖ {[x]}) <= size S)%nat.
Proof. apply subseteq_size, subseteq_difference_l. done. Qed.

Lemma call_capacity now c a :
  withinCapacity a ->
  match call now c a with
  | Settled _ a' => withinCapacity a'
  | Awaiting a' k =>
      withinCapacity a'
      /\ forall t h x, withinCapacity x -> withinCapacity (k t h x).2
  end.
Proof.
  unfold withinCapacity. intros Hc. destruct c; cbn [call].
  - unfold initialize. destruct (initializationPromise a); [done|].
    split; [done|]. by intros t [|e] x.
  - unfold terminate. split.
    + cbn. rewrite size_empty. lia.
    + by intros t [|e] x.
  - unfold suspend. destruct (negb _); [done|]. split; [done|].
    by intros t [|e] x.
  - unfold resume. destruct (negb _); [done|]. split; [done|].
    by intros t [|e] x.
  - unfold executeTask.
    destruct (negb (bool_decide (state a = RUNNING))); [done|].
    destruct (maxConcurrentTasks a <=? _) eqn:E; [done|].
    destruct (negb (canHandleTask a task)); [done|].
    apply Z.leb_gt in E. split.
    + cbn. rewrite size_union_alt, size_singleton.
      pose proof (size_difference_le (currentTasks a) (task_id task)). lia.
    + intros t h x Hx.
      destruct h as [|e]; cbn.
      * pose proof (size_difference_le (currentTasks x) (task_id task)). lia.
      * pose proof (size_difference_le (currentTasks x) (task_id task)). lia.
Qed.

Lemma steps_capacity l sys :
  withinCapacity sys.1 ->
  Forall (fun k => forall t h x, withinCapacity x -> withinCapacity (k t h x).2)
         sys.2 ->
  withinCapacity (steps l sys).1
  /\ Forall (fun k => forall t h x,
               withinCapacity x -> withinCapacity (k t h x).2)
            (steps l sys).2.
Proof.
  intros Ha Hp. induction l as [|[now st] l IH] using rev_ind; [done|].
  rewrite agent_steps_snoc. destruct IH as [I1 I2].
  destruct (steps l sys) as [a pool]. cbn [fst snd] in *.
  destruct st as [c|i h]; cbn [step fst snd].
  - pose proof (call_capacity now c a I1) as H.
    destruct (call now c a) as [reply a'|a' k]; cbn [fst snd]; [done|].
    destruct H as [H1 H2]. split; [done|].
    apply Forall_app. split; [done|]. by constructor.
  - destruct (pool !! i) as [k|] eqn:E; cbn [fst snd]; [|done].
    split; [|by apply Forall_delete].
    rewrite Forall_forall in I2. apply I2; [|done].
    by eapply list_elem_of_lookup_2.
Qed.

(** X27. In every state an agent reaches it runs at most
    max(0, maxConcurrentTasks) tasks, and getCurrentLoad is within [0,1] (it
    is not a number only when maxConcurrentTasks is 0). *)
Theorem capacity_respected agentId caps maxTasks t0 l :
  let a := (steps l (boot agentId caps maxTasks t0)).1 in
  Z.of_nat (size (currentTasks a)) <= Z.max 0 maxTasks
  /\ match getCurrentLoad a with
     | Some load => (0 <= load)%Q /\ (load <= 1)%Q
     | None => maxTasks = 0
     end.
Proof.
  intros a.
  destruct (steps_capacity l (boot agentId caps maxTasks t0)) as [Hc _].
  { unfold withinCapacity. cbn. rewrite size_empty. lia. }
  { constructor. }
  destruct (steps_later_than l (boot agentId caps maxTasks t0))
    as [(_ & _ & Hm & _) _]; [constructor|].
  fold a in Hc, Hm. cbn in Hm. unfold withinCapacity in Hc. rewrite Hm in Hc.
  split; [exact Hc|]. unfold getCurrentLoad. rewrite Hm.
  destruct (maxTasks =? 0) eqn:E; [by apply Z.eqb_eq in E|].
  apply Z.eqb_neq in E.
  destruct (Z.lt_trichotomy maxTasks 0) as [Hneg|[?|Hpos]]; [|done|].
  - assert (Hz : Z.of_nat (size (currentTasks a)) = 0) by lia.
    rewrite Hz. unfold Qdiv. rewrite Qmult_0_l. split; lra.
  - assert (Hq : (0 < inject_Z maxTasks)%Q).
    { change 0%Q with (inject_Z 0). by rewrite <- Zlt_Qlt. }
    split.
    + apply Qle_shift_div_l; [done|]. rewrite Qmult_0_l.
      change 0%Q with (inject_Z 0). rewrite <- Zle_Qle. lia.
    + apply Qle_shift_div_r; [done|]. rewrite Qmult_1_l.
      rewrite <- Zle_Qle. lia.
Qed.

(** X29. A BasicAgent never reports success for a task of the
    coordinator: executeTask for the task the coordinator hands over (of type
    'swarm_task') either rejects at admission or, since onExecuteTask of
    BasicAgent throws for that type, resolves with success = false. *)
Theorem basic_agent_cannot_serve_swarm now later x a a' :
  match executeTask now (agentTask x) a with
  | Settled reply _ => exists msg, outcome reply = Some (Swarm.Rejected msg)
  | Awaiting _ k =>
      exists r,
        outcome (k later (basicOnExecuteTask (agentTask x)) a').1
        = Some (Swarm.Resolved r)
        /\ Swarm.r_success r = false
  end.
Proof.
  pose proof (executeTask_refusal now (agentTask x) a) as H1.
  pose proof (executeTask_flag now (agentTask x) a) as H2.
  destruct (executeTask now (agentTask x) a) as [reply a1|a1 k].
  - destruct H1 as (_ & msg & ->). by exists msg.
  - destruct (H2 later (basicOnExecuteTask (agentTask x)) a')
      as (r & -> & Hs).
    exists r. split; [done|]. exact Hs.
Qed.

(** X30. Work that fails inside an agent is recorded as completed by the
    coordinator: when onExecuteTask throws for an admitted task, the promise
    the coordinator awaits resolves (with success = false), and the
    coordinator then sets the task to completed with that result, raises the
    node's reputation by 2 (capped at 100) and counts the task as
    completed. *)
Theorem failed_work_is_recorded_completed
    now later a a' x e t n node w w' x' node' :
  admits a (agentTask x) = true ->
  Swarm.nodeObjects w !! n = Some node ->
  Swarm.taskObjects w' !! t = Some x' ->
  Swarm.nodeObjects w' !! n = Some node' ->
  exists a1 k r w1 kc w'',
    executeTask now (agentTask x) a = Awaiting a1 k
    /\ outcome (k later (Throws e) a').1 = Some (Swarm.Resolved r)
    /\ Swarm.r_success r = false
    /\ Swarm.directAssignTask t n w = Swarm.Wait w1 n t kc
    /\ kc (Swarm.Resolved r) w' = Swarm.Done tt w''
    /\ Swarm.status <$> Swarm.taskObjects w'' !! t = Some Swarm.Completed
    /\ Swarm.result <$> Swarm.taskObjects w'' !! t = Some (Some r)
    /\ Swarm.reputation <$> Swarm.nodeObjects w'' !! n
       = Some (Qmin 100 (Swarm.reputation node' + 2))
    /\ Swarm.completedTasks (Swarm.metrics w'')
       = Swarm.completedTasks (Swarm.metrics w') + 1.
Proof.
  intros Ha Hn Hx' Hn'.
  pose proof (executeTask_refusal now (agentTask x) a) as H1.
  pose proof (executeTask_flag now (agentTask x) a) as H2.
  destruct (executeTask now (agentTask x) a) as [reply a1|a1 k].
  { destruct H1 as (H1 & _). congruence. }
  destruct (H2 later (Throws e) a') as (r & Hr & Hs).
  destruct (SwarmExtras.directAssignTask_waits t n node w Hn)
    as (kc & Hw & Hok & _).
  eexists a1, k, r, _, kc, _.
  split; [reflexivity|]. split; [by rewrite Hr|]. split; [exact Hs|].
  split; [exact Hw|]. split; [apply Hok|].
  cbn. rewrite !list_lookup_alter_eq, Hx', Hn'. done.
Qed.

Lemma failed_work_is_recorded_completed_witness :
  admits worker (agentTask SwarmTerms.queuedTask) = true
  /\ Swarm.nodeObjects SwarmTerms.queued !! 0%nat
     = Some (Swarm.mkNode "A" "A" ["a"] 0 100 1)
  /\ Swarm.taskObjects SwarmTerms.queued !! 0%nat = Some SwarmTerms.queuedTask
  /\ exists a1 k,
       executeTask 5 (agentTask SwarmTerms.queuedTask) worker = Awaiting a1 k.
Proof.
  assert (H1 : admits worker (agentTask SwarmTerms.queuedTask) = true)
    by (vm_compute; reflexivity).
  assert (H2 : Swarm.nodeObjects SwarmTerms.queued !! 0%nat
               = Some (Swarm.mkNode "A" "A" ["a"] 0 100 1))
    by (vm_compute; reflexivity).
  assert (H3 : Swarm.taskObjects SwarmTerms.queued !! 0%nat
               = Some SwarmTerms.queuedTask)
    by (vm_compute; reflexivity).
  split; [exact H1|]. split; [exact H2|]. split; [exact H3|].
  destruct (failed_work_is_recorded_completed 5 9 worker worker
              SwarmTerms.queuedTask "boom" 0 0 _ SwarmTerms.queued
              SwarmTerms.queued _ _ H1 H2 H3 H2)
    as (a1 & k & _ & _ & _ & _ & E & _).
  exists a1, k. exact E.
Defined.

End AgentExtras.
